(** * TypeTrack Pro: typing metrics, session analytics and the live-test timer

    A shallow embedding of the numeric core of the TypeTrack Pro front end:

    - [frontend/app.js] (class [TypeTrackPro]): [calculateLocalMetrics],
      [submitTest], [handleTyping], [startTimer], [finishTest], [resetTest],
      [logout];
    - the analytics component (class [AnalyticsComponent]): [calculateChange],
      [calculateVariance], [calculateDifficultyStats],
      [calculateLinearRegression], [createHistogramBins] and the consistency
      score of [updateDetailedStats]; further [calculateLearningCurve],
      [calculateEnduranceScore], [calculateRadarScores],
      [calculateTrendData], [prepareHeatmapData], [renderHeatmap] and
      [analyzeTimePatterns];
    - [frontend/app.js] again: [updateMetricsDisplay],
      [addActivityFeedItem] and [validateRegistrationData];
    - [frontend/components/leaderboard.js] (class [LeaderboardComponent]):
      [startAutoRefresh], [stopAutoRefresh], [destroy],
      [handleRealtimeUpdate] and [processAnimationQueue].

    Number models.  The functions whose result depends on how each
    operation is rounded ([calculateLocalMetrics] and [submitTest] for the
    accuracy and the WPM, [calculateChange], [calculateVariance]) are
    embedded over [Binary64]: IEEE 754 binary64 as the engine computes it,
    through the standard library's [SpecFloat] at precision 53.  Their
    theorems are in the last part of the file.

    The same and the other functions are also embedded over [num], an
    idealised Number: an exact rational ([Fin q], with [q] a canonical
    rational) or one of the special values [NaN], [+Infinity],
    [-Infinity].  Division by zero, [0/0], [Infinity - Infinity] and NaN
    propagation behave as in the engine; rounding and overflow do not
    occur, and the two signed zeros are identified.  The theorems stated
    over [num] are those that do not depend on rounding: closed instances
    whose intermediate results are whole numbers, comparisons and ranges
    that rounding to nearest preserves, and statements whose hypotheses
    are on the values the code has computed.

    String model.  A JavaScript string is the list of its UTF-16 code units;
    [s.length] is [length s] and [s[i] === t[i]] compares code units. *)

From Stdlib Require Import QArith Qcanon Qround ZArith NArith List Bool Lia Lqa.
From Stdlib Require Import Strings.Ascii Strings.String.
From Stdlib Require Import SpecFloat.
Import Corelib.Init.Datatypes.
Import ListNotations.

(* ================================================================= *)
(** ** JavaScript numbers, idealised *)

(** Exact rationals and the special values: no rounding, no overflow.  The
    Number as the engine computes it is [Binary64], further down. *)
Module JsNum.

Inductive num : Type :=
| Fin (q : Qc)
| NaN
| PInf
| NInf.

Definition ofZ (z : Z) : num := Fin (Q2Qc (inject_Z z)).
Definition ofNat (n : nat) : num := ofZ (Z.of_nat n).

Definition zero : num := ofZ 0.
Definition hundred : num := ofZ 100.

(** Sign of a rational, as a [comparison] with zero. *)
Definition sgn (q : Qc) : comparison := Qccompare q (Q2Qc 0).

Definition neg (a : num) : num :=
  match a with
  | Fin q => Fin (- q)%Qc
  | NaN => NaN
  | PInf => NInf
  | NInf => PInf
  end.

(** [a + b] *)
Definition add (a b : num) : num :=
  match a, b with
  | NaN, _ | _, NaN => NaN
  | Fin p, Fin q => Fin (p + q)%Qc
  | PInf, NInf | NInf, PInf => NaN
  | PInf, _ | _, PInf => PInf
  | NInf, _ | _, NInf => NInf
  end.

(** [a - b] *)
Definition sub (a b : num) : num := add a (neg b).

(** An infinity scaled by the sign of a finite factor; [Infinity * 0] is NaN. *)
Definition scale_inf (pos : bool) (s : comparison) : num :=
  match s with
  | Eq => NaN
  | Gt => if pos then PInf else NInf
  | Lt => if pos then NInf else PInf
  end.

(** [a * b] *)
Definition mul (a b : num) : num :=
  match a, b with
  | NaN, _ | _, NaN => NaN
  | Fin p, Fin q => Fin (p * q)%Qc
  | PInf, Fin q | Fin q, PInf => scale_inf true (sgn q)
  | NInf, Fin q | Fin q, NInf => scale_inf false (sgn q)
  | PInf, PInf | NInf, NInf => PInf
  | PInf, NInf | NInf, PInf => NInf
  end.

(** [a / b]: a finite non-zero value over zero is an infinity, [0/0] is NaN. *)
Definition div (a b : num) : num :=
  match a, b with
  | NaN, _ | _, NaN => NaN
  | Fin p, Fin q =>
      match sgn q with
      | Eq => match sgn p with Eq => NaN | Gt => PInf | Lt => NInf end
      | _ => Fin (p / q)%Qc
      end
  | Fin _, PInf | Fin _, NInf => Fin (Q2Qc 0)
  | PInf, Fin q => match sgn q with Lt => NInf | _ => PInf end
  | NInf, Fin q => match sgn q with Lt => PInf | _ => NInf end
  | _, _ => NaN
  end.

(** [a < b]; every comparison with NaN is false. *)
Definition ltb (a b : num) : bool :=
  match a, b with
  | NaN, _ | _, NaN => false
  | Fin p, Fin q => match Qccompare p q with Lt => true | _ => false end
  | Fin _, PInf => true
  | Fin _, NInf => false
  | PInf, _ => false
  | NInf, NInf => false
  | NInf, _ => true
  end.

(** [a > b] *)
Definition gtb (a b : num) : bool := ltb b a.

(** [a >= b] *)
Definition geb (a b : num) : bool :=
  match a, b with
  | NaN, _ | _, NaN => false
  | _, _ => negb (ltb a b)
  end.

(** [a <= b] *)
Definition leb (a b : num) : bool := geb b a.

(** [Math.round]: the nearest integer, ties towards [+Infinity]. *)
Definition round (a : num) : num :=
  match a with
  | Fin q => ofZ (Qfloor (q + Q2Qc (1 # 2))%Qc)
  | _ => a
  end.

(** [Math.min(a, b)] and [Math.max(a, b)]: NaN if either argument is NaN. *)
Definition min2 (a b : num) : num :=
  match a, b with
  | NaN, _ | _, NaN => NaN
  | _, _ => if ltb b a then b else a
  end.

Definition max2 (a b : num) : num :=
  match a, b with
  | NaN, _ | _, NaN => NaN
  | _, _ => if ltb a b then b else a
  end.

(** [Math.min(...values)] and [Math.max(...values)]; with no argument they
    are [Infinity] and [-Infinity]. *)
Definition minl (values : list num) : num := fold_left min2 values PInf.
Definition maxl (values : list num) : num := fold_left max2 values NInf.

(** [Math.pow(a, 2)] *)
Definition pow2 (a : num) : num := mul a a.

(** [values.reduce((sum, val) => sum + val, 0)] *)
Definition sum (values : list num) : num := fold_left add values zero.

Definition is_finite (a : num) : bool :=
  match a with Fin _ => true | _ => false end.

(** Decidable equality of numbers, for evaluating the model on concrete inputs. *)
Definition eqb (a b : num) : bool :=
  match a, b with
  | Fin p, Fin q => Qc_eq_bool p q
  | NaN, NaN | PInf, PInf | NInf, NInf => true
  | _, _ => false
  end.

(** Equality of lists of numbers, decided entry by entry. *)
Fixpoint eqb_list (l m : list num) : bool :=
  match l, m with
  | [], [] => true
  | a :: l', b :: m' => eqb a b && eqb_list l' m'
  | _, _ => false
  end.

(** The rational of an integer: [ofZ z = Fin (intQ z)]. *)
Definition intQ (z : Z) : Qc := Q2Qc (inject_Z z).

(** The rational of a natural number: [ofNat n = Fin (natQ n)]. *)
Definition natQ (n : nat) : Qc := Q2Qc (inject_Z (Z.of_nat n)).

End JsNum.

Import JsNum.

(* ================================================================= *)
(** ** JavaScript strings *)

Module JsString.

(** A UTF-16 code unit. *)
Definition code_unit : Type := N.

Definition jsstring : Type := list code_unit.

(** The code units matched by the regular expression class [\s]; they are
    also the ones [String.prototype.trim] strips (WhiteSpace and
    LineTerminator of the language specification). *)
Definition is_space (c : code_unit) : bool :=
  ((9 <=? c) && (c <=? 13) || (c =? 32) || (c =? 160) || (c =? 5760)
   || (8192 <=? c) && (c <=? 8202) || (c =? 8232) || (c =? 8233)
   || (c =? 8239) || (c =? 8287) || (c =? 12288) || (c =? 65279))%N.

Fixpoint trimStart (s : jsstring) : jsstring :=
  match s with
  | [] => []
  | c :: r => if is_space c then trimStart r else s
  end.

Definition trimEnd (s : jsstring) : jsstring := rev (trimStart (rev s)).

(** [s.trim()] *)
Definition trim (s : jsstring) : jsstring := trimEnd (trimStart s).

(** [s.split(/\s+/)], scanning left to right.  [cur] holds, reversed, the
    code units of the piece being read; [insep] tells that the scan is inside
    a run of separators whose piece has already been emitted.  The piece that
    is open when the scan ends is always emitted, so the empty string splits
    into one empty piece and a trailing separator adds an empty piece. *)
Fixpoint split_go (insep : bool) (cur : jsstring) (s : jsstring)
  : list jsstring :=
  match s with
  | [] => [rev cur]
  | c :: r =>
      if is_space c
      then (if insep then split_go true [] r
            else rev cur :: split_go true [] r)
      else split_go false (c :: cur) r
  end.

Definition split_ws (s : jsstring) : list jsstring := split_go false [] s.

Definition nonEmpty (t : jsstring) : bool :=
  match t with [] => false | _ :: _ => true end.

Definition one_if (b : bool) : nat := if b then 1%nat else 0%nat.

(** The number of places where a word begins: a code unit that is not
    whitespace and follows whitespace or, when [fresh] holds, the start. *)
Fixpoint wordStarts (fresh : bool) (s : jsstring) : nat :=
  match s with
  | [] => 0
  | c :: r =>
      if is_space c then wordStarts true r
      else ((if fresh then 1 else 0) + wordStarts false r)%nat
  end.

(** The last code unit of [s] exists and is not whitespace. *)
Fixpoint endsInWord (s : jsstring) : bool :=
  match s with
  | [] => false
  | c :: r =>
      match r with
      | [] => negb (is_space c)
      | _ :: _ => endsInWord r
      end
  end.

(** The code units of a literal written with ASCII characters. *)
Definition lit (s : string) : jsstring :=
  map N_of_ascii (list_ascii_of_string s).

End JsString.

Import JsString.

(* ================================================================= *)
(** ** The typing test: [frontend/app.js] *)

Module App.

(** [this.config.timeoutDuration], milliseconds. *)
Definition timeoutDuration : Z := 300000.

(** [this.state.currentTest].  [startTime] is [None] while the test is
    armed; once typing has begun it holds the start instant, in milliseconds
    (the source keeps it as an ISO string, which round-trips the
    millisecond instant). *)
Record test : Type := mkTest {
  prompt : jsstring;
  difficulty : string;
  category : string;
  startTime : option Z
}.

(** [this.state.metrics] *)
Record metrics : Type := mkMetrics {
  wpm : num;
  accuracy : num;
  progress : num;
  errors : num;
  elapsedTime : num
}.

(** [resetMetrics] *)
Definition initialMetrics : metrics :=
  mkMetrics zero hundred zero zero zero.

(** [input.trim().split(/\s+/).length] *)
Definition words (input : jsstring) : nat :=
  length (split_ws (trim input)).

(** The character-matching loop shared by [calculateLocalMetrics] and
    [submitTest]:
    [for (let i = 0; i < Math.min(input.length, prompt.length); i++)
       if (input[i] === prompt[i]) correctChars++;] *)
Definition char_at (s : jsstring) (i : nat) : option code_unit :=
  nth_error s i.

Definition same_char (a b : option code_unit) : bool :=
  match a, b with
  | Some x, Some y => N.eqb x y
  | None, None => true
  | _, _ => false
  end.

Definition correctChars (input prompt : jsstring) : nat :=
  fold_left
    (fun count i =>
       if same_char (char_at input i) (char_at prompt i)
       then S count else count)
    (seq 0 (Nat.min (length input) (length prompt)))
    0%nat.

(** The body of [calculateLocalMetrics] after its guard, for a test whose
    prompt is [p], with [elapsedMs = new Date() - startTime]. *)
Definition localMetrics (p input : jsstring) (elapsedMs : Z) : metrics :=
  let elapsedMinutes := div (ofZ elapsedMs) (mul (ofZ 1000) (ofZ 60)) in
  let w :=
    if gtb elapsedMinutes zero
    then round (div (ofNat (words input)) elapsedMinutes)
    else zero in
  let c := correctChars input p in
  let acc :=
    if (0 <? length p)%nat
    then round (mul (div (ofNat c) (ofNat (length p))) hundred)
    else hundred in
  let prog :=
    min2 (mul (div (ofNat (length input)) (ofNat (length p))) hundred)
         hundred in
  let errs := sub (ofNat (length input)) (ofNat c) in
  mkMetrics w acc prog errs (mul elapsedMinutes (ofZ 60)).

(** The payload [submissionData] built by [submitTest]. *)
Record submission : Type := mkSubmission {
  sub_wpm : num;
  sub_accuracy : num;
  sub_difficulty : string;
  sub_errors : num;
  characters_typed : num;
  time_taken : num
}.

(** [new Date(startTime)]: a missing start time reads as the epoch. *)
Definition startInstant (t : test) : Z :=
  match startTime t with Some t0 => t0 | None => 0%Z end.

(** The locals [wpm] and [accuracy] of [submitTest]. *)
Definition finalWpm (input : jsstring) (elapsedMs : Z) : num :=
  let elapsedSeconds := div (ofZ elapsedMs) (ofZ 1000) in
  div (ofNat (words input)) (div elapsedSeconds (ofZ 60)).

Definition finalAccuracy (p input : jsstring) : num :=
  mul (div (ofNat (correctChars input p)) (ofNat (length p))) hundred.

(** [Math.round(v * 100) / 100] *)
Definition round2 (v : num) : num :=
  div (round (mul v hundred)) hundred.

Definition submissionData (t : test) (input : jsstring) (now : Z)
  : submission :=
  let elapsedMs := (now - startInstant t)%Z in
  let c := correctChars input (prompt t) in
  mkSubmission
    (round2 (finalWpm input elapsedMs))
    (round2 (finalAccuracy (prompt t) input))
    (difficulty t)
    (sub (ofNat (length input)) (ofNat c))
    (ofNat (length input))
    (div (ofZ elapsedMs) (ofZ 1000)).

(** *** The metrics in the words of the specification *)

(** The number of positions [i < min(len(typed), len(prompt))] with
    [typed[i]] equal to [prompt[i]]. *)
Definition correctCount (typed p : jsstring) : nat :=
  length
    (filter (fun i => same_char (nth_error typed i) (nth_error p i))
            (seq 0 (Nat.min (length typed) (length p)))).

(** [100 * correctCount / len(prompt)], and 100 for an empty prompt. *)
Definition specAccuracy (p typed : jsstring) : num :=
  if (length p =? 0)%nat then hundred
  else div (mul hundred (ofNat (correctCount typed p))) (ofNat (length p)).

(** The number of non-empty pieces between runs of whitespace. *)
Definition wordCount (typed : jsstring) : nat :=
  length (filter nonEmpty (split_ws typed)).

(** [wordCount / (elapsedSeconds / 60)], and 0 before any time has
    elapsed. *)
Definition specWpm (typed : jsstring) (elapsedMs : Z) : num :=
  if (elapsedMs <=? 0)%Z then zero
  else
    let elapsedSeconds := div (ofZ elapsedMs) (ofZ 1000) in
    div (ofNat (wordCount typed)) (div elapsedSeconds (ofZ 60)).

(** The sentence of the specification's example. *)
Definition fiveWords : jsstring := lit "The quick brown fox jumps".

(** The string holds a code unit that is not whitespace. *)
Definition hasWord (typed : jsstring) : bool :=
  existsb (fun c => negb (is_space c)) typed.

(** *** The application and the browser's interval timers *)

(** A handle returned by [setInterval]: an integer greater than zero. *)
Definition handle : Type := positive.

(** [this.state], with the value of the [typing-input] element. *)
Record state : Type := mkState {
  isAuthenticated : bool;
  currentTest : option test;
  timer : option handle;
  st_metrics : metrics;
  typingInput : jsstring
}.

(** The page: the application state, the repeating timers the browser
    still fires, the next handle it will hand out, and what was posted to
    [/submit]. *)
Record page : Type := mkPage {
  app : state;
  intervals : list handle;
  nextHandle : handle;
  submitted : list submission
}.

Definition with_app (f : state -> state) (pg : page) : page :=
  mkPage (f (app pg)) (intervals pg) (nextHandle pg) (submitted pg).

(** [clearInterval(h)] *)
Definition clearInterval (h : handle) (pg : page) : page :=
  mkPage (app pg)
         (filter (fun k => negb (Pos.eqb k h)) (intervals pg))
         (nextHandle pg) (submitted pg).

(** [this.state.timer = setInterval(callback, 1000)] *)
Definition setIntervalTimer (pg : page) : page :=
  let h := nextHandle pg in
  let st := app pg in
  mkPage (mkState (isAuthenticated st) (currentTest st) (Some h)
                  (st_metrics st) (typingInput st))
         (h :: intervals pg) (Pos.succ h) (submitted pg).

(** [if (this.state.timer) clearInterval(this.state.timer);] *)
Definition clearTimerIfSet (pg : page) : page :=
  match timer (app pg) with
  | Some h => clearInterval h pg
  | None => pg
  end.

Definition set_timer_null (st : state) : state :=
  mkState (isAuthenticated st) (currentTest st) None
          (st_metrics st) (typingInput st).

(** [startTimer] *)
Definition startTimer (pg : page) : page :=
  setIntervalTimer (clearTimerIfSet pg).

(** [finishTest] *)
Definition finishTest (pg : page) : page :=
  match timer (app pg) with
  | Some h => with_app set_timer_null (clearInterval h pg)
  | None => pg
  end.

(** [resetTest] *)
Definition resetTest (pg : page) : page :=
  let pg1 :=
    match timer (app pg) with
    | Some h => with_app set_timer_null (clearInterval h pg)
    | None => pg
    end in
  with_app
    (fun st => mkState (isAuthenticated st) None (timer st)
                       initialMetrics [])
    pg1.

(** [logout], up to the statement before [location.reload()]. *)
Definition logout (pg : page) : page :=
  let pg1 :=
    with_app
      (fun st => mkState false (currentTest st) (timer st)
                         (st_metrics st) (typingInput st))
      pg in
  clearTimerIfSet pg1.

(** [startNewTest] when the prompt request succeeds, followed by
    [setupTest]. *)
Definition startNewTest (p : jsstring) (d c : string) (pg : page) : page :=
  with_app
    (fun st => mkState (isAuthenticated st) (Some (mkTest p d c None))
                       (timer st) initialMetrics [])
    pg.

(** [calculateLocalMetrics(input)] at instant [now]. *)
Definition calculateLocalMetrics (input : jsstring) (now : Z) (st : state)
  : state :=
  match currentTest st with
  | None => st
  | Some t =>
      match startTime t with
      | None => st
      | Some t0 =>
          mkState (isAuthenticated st) (currentTest st) (timer st)
                  (localMetrics (prompt t) input (now - t0))
                  (typingInput st)
      end
  end.

(** [submitTest] at instant [now], up to its [await]: the guard, the final
    calculations and the POST of the payload. *)
Definition submitTest (now : Z) (pg : page) : page :=
  let st := app pg in
  match currentTest st with
  | None => pg
  | Some t =>
      if isAuthenticated st
      then mkPage st (intervals pg) (nextHandle pg)
                  (submissionData t (typingInput st) now :: submitted pg)
      else pg
  end.

(** [submitTest] once the response has arrived: [finishTest] when
    [response.ok] holds, nothing but a notification otherwise.  Other events
    may run between the request and this continuation. *)
Definition submitResponse (ok : bool) (pg : page) : page :=
  if ok then finishTest pg else pg.

(** [handleTyping(input)] at instant [now], the input element already
    holding [input].  The source reads the clock once for [startTime] and
    again in [calculateLocalMetrics]; the instant of the event stands for
    both.  The one-second delayed [submitTest] that a complete input
    schedules is a separate [Submit] event. *)
Definition handleTyping (input : jsstring) (now : Z) (pg : page) : page :=
  let pg0 :=
    with_app
      (fun st => mkState (isAuthenticated st) (currentTest st) (timer st)
                         (st_metrics st) input)
      pg in
  match currentTest (app pg0) with
  | None => pg0
  | Some t =>
      let pg1 :=
        match startTime t with
        | Some _ => pg0
        | None =>
            startTimer
              (with_app
                 (fun st =>
                    mkState (isAuthenticated st)
                            (Some (mkTest (prompt t) (difficulty t)
                                          (category t) (Some now)))
                            (timer st) (st_metrics st) (typingInput st))
                 pg0)
        end in
      with_app (calculateLocalMetrics input now) pg1
  end.

(** The callback given to [setInterval] by [startTimer], fired at [now];
    it runs only while the browser still holds an interval. *)
Definition tick (now : Z) (pg : page) : page :=
  match intervals pg with
  | [] => pg
  | _ :: _ =>
      match currentTest (app pg) with
      | Some t =>
          match startTime t with
          | Some t0 =>
              if (timeoutDuration <? now - t0)%Z
              then submitTest now pg
              else pg
          | None => pg
          end
      | None => pg
      end
  end.

(** What can happen to the page. *)
Inductive event : Type :=
| Login
| StartNewTest (p : jsstring) (d c : string)
| Typing (input : jsstring) (now : Z)
| Tick (now : Z)
| Submit (now : Z)
| Response (ok : bool)
| Reset
| Logout.

Definition step (pg : page) (e : event) : page :=
  match e with
  | Login =>
      with_app
        (fun st => mkState true (currentTest st) (timer st)
                           (st_metrics st) (typingInput st))
        pg
  | StartNewTest p d c => startNewTest p d c pg
  | Typing input now => handleTyping input now pg
  | Tick now => tick now pg
  | Submit now => submitTest now pg
  | Response ok => submitResponse ok pg
  | Reset => resetTest pg
  | Logout => logout pg
  end.

(** The page as the constructor of [TypeTrackPro] leaves it. *)
Definition initialPage : page :=
  mkPage (mkState false None None initialMetrics []) [] 1%positive [].

(** The page after a sequence of events. *)
Definition run (es : list event) : page := fold_left step es initialPage.

(** Every interval the browser still fires is the one [this.state.timer]
    refers to, and there is at most one. *)
Definition timer_tracks (pg : page) : Prop :=
  intervals pg = [] \/
  exists h, intervals pg = [h] /\ timer (app pg) = Some h.

End App.

(* ================================================================= *)
(** ** The analytics component *)

Module Analytics.

(** A record of [this.data.history].  A [difficulty] that is absent (or
    [null]) is [None]. *)
Record session : Type := mkSession {
  wpm : num;
  accuracy : num;
  difficulty : option string;
  errors : num;
  time_taken : num
}.

(** [list.reduce((sum, s) => sum + s[metric], 0) / list.length] *)
Definition average (metric : session -> num) (l : list session) : num :=
  div (fold_left (fun acc s => add acc (metric s)) l zero)
      (ofNat (length l)).

(** [history.slice(0, 5)] and [history.slice(-5)] *)
Definition slice_first {A : Type} (k : nat) (l : list A) : list A :=
  firstn k l.
Definition slice_last {A : Type} (k : nat) (l : list A) : list A :=
  skipn (length l - k) l.

(** [calculateChange(metric)]; [history] is [this.data.history], [None]
    when it is not set. *)
Definition calculateChange (history : option (list session))
                           (metric : session -> num) : num :=
  match history with
  | None => zero
  | Some h =>
      if (length h <? 10)%nat then zero
      else
        let recent := slice_first 5 h in
        let older := slice_last 5 h in
        let recentAvg := average metric recent in
        let olderAvg := average metric older in
        if gtb olderAvg zero
        then round (mul (div (sub recentAvg olderAvg) olderAvg) hundred)
        else zero
  end.

(** The change percentage in the words of the specification: 0 for fewer
    than 10 records; otherwise, with the averages of the metric over the
    first 5 and over the last 5 records,
    [round(100 * (avg first - avg last) / avg last)], and 0 when the average
    over the last 5 is 0. *)
Definition lastRecords (k : nat) (h : list session) : list session :=
  rev (firstn k (rev h)).

Definition specAverage (metric : session -> num) (l : list session) : num :=
  div (sum (map metric l)) (ofNat (length l)).

Definition specChange (h : list session) (metric : session -> num) : num :=
  if (length h <? 10)%nat then zero
  else
    let avgFirst := specAverage metric (firstn 5 h) in
    let avgLast := specAverage metric (lastRecords 5 h) in
    if eqb avgLast zero then zero
    else round (div (mul hundred (sub avgFirst avgLast)) avgLast).

(** The values of the metric are finite and not negative, as the numeric
    fields of a session record are. *)
Definition nonnegative_metric (metric : session -> num) (h : list session)
  : Prop :=
  forall s, In s h -> exists q, metric s = Fin q /\ (Q2Qc 0 <= q)%Qc.

(** [calculateVariance(values)] *)
Definition calculateVariance (values : list num) : num :=
  match values with
  | [] => zero
  | _ :: _ =>
      let mean := div (sum values) (ofNat (length values)) in
      let squaredDiffs := map (fun val => pow2 (sub val mean)) values in
      div (sum squaredDiffs) (ofNat (length values))
  end.

(** [Math.max(0, 100 - (variance / 10))] of [updateDetailedStats] *)
Definition consistencyOf (variance : num) : num :=
  max2 zero (sub hundred (div variance (ofZ 10))).

(** The consistency score [updateDetailedStats] computes from the
    history. *)
Definition consistencyScore (sessions : list session) : num :=
  let wpmValues := map wpm sessions in
  consistencyOf (calculateVariance wpmValues).

(** *** Difficulty breakdown *)

(** The object [stats]: its own properties in insertion order. *)
Definition stats_object : Type := list (string * list session).

Definition emptyStats : stats_object :=
  [("easy"%string, []); ("medium"%string, []); ("hard"%string, [])].

(** Property names every object inherits from [Object.prototype]. *)
Definition prototypeKeys : list string :=
  ["constructor"; "__defineGetter__"; "__defineSetter__"; "hasOwnProperty";
   "__lookupGetter__"; "__lookupSetter__"; "isPrototypeOf";
   "propertyIsEnumerable"; "toString"; "valueOf"; "__proto__";
   "toLocaleString"]%string.

Definition is_key (k : string) (ks : list string) : bool :=
  existsb (String.eqb k) ks.

(** What [stats[key]] evaluates to. *)
Inductive lookup_result : Type :=
| OwnArray (l : list session)
| Inherited
| Undefined.

Fixpoint own (key : string) (stats : stats_object) : option (list session) :=
  match stats with
  | [] => None
  | (k, l) :: rest => if String.eqb k key then Some l else own key rest
  end.

Definition lookup (key : string) (stats : stats_object) : lookup_result :=
  match own key stats with
  | Some l => OwnArray l
  | None => if is_key key prototypeKeys then Inherited else Undefined
  end.

(** [stats[key].push(s)] on an own array. *)
Fixpoint push (key : string) (s : session) (stats : stats_object)
  : stats_object :=
  match stats with
  | [] => []
  | (k, l) :: rest =>
      if String.eqb k key then (k, l ++ [s]) :: rest
      else (k, l) :: push key s rest
  end.

(** [session.difficulty || 'medium']: an absent or empty difficulty is
    falsy. *)
Definition difficultyOrMedium (s : session) : string :=
  match difficulty s with
  | None => "medium"%string
  | Some d => if String.eqb d ""%string then "medium"%string else d
  end.

(** One entry of the array [calculateDifficultyStats] returns. *)
Record difficulty_stat : Type := mkStat {
  stat_difficulty : string;
  count : nat;
  avgWpm : num;
  avgAccuracy : num
}.

(** A value, or the [TypeError] of calling [push] on a value that has
    none. *)
Inductive outcome (A : Type) : Type :=
| Returned (a : A)
| TypeError.
Arguments Returned {A} a.
Arguments TypeError {A}.

(** The [forEach] loop of [calculateDifficultyStats]. *)
Fixpoint groupSessions (sessions : list session) (stats : stats_object)
  : outcome stats_object :=
  match sessions with
  | [] => Returned stats
  | s :: rest =>
      let d := difficultyOrMedium s in
      match lookup d stats with
      | OwnArray _ => groupSessions rest (push d s stats)
      | Inherited => TypeError
      | Undefined => groupSessions rest stats
      end
  end.

Definition groupAverage (metric : session -> num) (l : list session) : num :=
  if (0 <? length l)%nat
  then div (fold_left (fun acc s => add acc (metric s)) l zero)
           (ofNat (length l))
  else zero.

(** [calculateDifficultyStats(sessions)] *)
Definition calculateDifficultyStats (sessions : list session)
  : outcome (list difficulty_stat) :=
  match groupSessions sessions emptyStats with
  | TypeError => TypeError
  | Returned stats =>
      Returned
        (map (fun kl => mkStat (fst kl) (length (snd kl))
                               (groupAverage wpm (snd kl))
                               (groupAverage accuracy (snd kl)))
             stats)
  end.

(** The breakdown described group by group: the sessions of group [k] are
    those whose difficulty, an absent or empty one read as medium, is [k];
    a group reports its size and the averages of its WPM and accuracy, 0
    for an empty group. *)
Definition knownDifficulties : list string :=
  ["easy"; "medium"; "hard"]%string.

Definition groupOf (k : string) (sessions : list session) : list session :=
  filter (fun s => String.eqb (difficultyOrMedium s) k) sessions.

Definition specStat (sessions : list session) (k : string)
  : difficulty_stat :=
  let g := groupOf k sessions in
  mkStat k (length g)
         (if (length g =? 0)%nat then zero
          else div (sum (map wpm g)) (ofNat (length g)))
         (if (length g =? 0)%nat then zero
          else div (sum (map accuracy g)) (ofNat (length g))).

(** The difficulty of [s] is absent, empty, or one of the three names. *)
Definition recognised (s : session) : bool :=
  is_key (difficultyOrMedium s) knownDifficulties.

(** The difficulty of [s] is not a property name that objects inherit. *)
Definition notInherited (s : session) : bool :=
  negb (is_key (difficultyOrMedium s) prototypeKeys).

(** A session with the given difficulty, 50 WPM and 90% accuracy. *)
Definition sessionOf (d : option string) : session :=
  mkSession (ofZ 50) (ofZ 90) d zero zero.

(** The sum of the counts of the groups. *)
Definition totalSessions (stats : list difficulty_stat) : nat :=
  fold_right (fun st acc => (count st + acc)%nat) 0%nat stats.

(** *** Trend line *)

(** [x.reduce((sum, val, i) => sum + val * y[i], 0)]; an index outside [y]
    reads [undefined], which makes the product NaN. *)
Definition sumProducts (x y : list num) : num :=
  fold_left
    (fun acc iv => add acc (mul (snd iv) (nth (fst iv) y NaN)))
    (combine (seq 0 (length x)) x)
    zero.

(** [Array.from({ length: n }, (_, i) => i)] *)
Definition indices (n : nat) : list num := map ofNat (seq 0 n).

Definition regressionSlope (values : list num) : num :=
  let n := ofNat (length values) in
  let x := indices (length values) in
  let y := values in
  let sumX := sum x in
  let sumY := sum y in
  let sumXY := sumProducts x y in
  let sumXX := fold_left (fun acc val => add acc (mul val val)) x zero in
  div (sub (mul n sumXY) (mul sumX sumY))
      (sub (mul n sumXX) (mul sumX sumX)).

(** The denominator [n * sumXX - sumX * sumX] of the slope. *)
Definition regressionDenominator (n : nat) : num :=
  let x := indices n in
  let sumX := sum x in
  let sumXX := fold_left (fun acc val => add acc (mul val val)) x zero in
  sub (mul (ofNat n) sumXX) (mul sumX sumX).

Definition regressionIntercept (values : list num) : num :=
  let n := ofNat (length values) in
  let sumX := sum (indices (length values)) in
  let sumY := sum values in
  div (sub sumY (mul (regressionSlope values) sumX)) n.

(** [calculateLinearRegression(values)] *)
Definition calculateLinearRegression (values : list num) : list num :=
  let slope := regressionSlope values in
  let intercept := regressionIntercept values in
  map (fun val => add (mul slope val) intercept) (indices (length values)).

(** *** Histogram *)

Record bin : Type := mkBin {
  bin_min : num;
  bin_max : num;
  bin_count : nat
}.

(** [values.filter(v => v >= binMin && v < binMax).length] *)
Definition countIn (binMin binMax : num) (values : list num) : nat :=
  length (filter (fun v => geb v binMin && ltb v binMax) values).

(** [createHistogramBins(values, binCount)], the loop index running over
    [0 .. binCount - 1]. *)
Definition createHistogramBins (values : list num) (binCount : nat)
  : list bin :=
  match values with
  | [] => []
  | _ :: _ =>
      let min := minl values in
      let max := maxl values in
      let binWidth := div (sub max min) (ofNat binCount) in
      map (fun i =>
             let binMin := round (add min (mul (ofNat i) binWidth)) in
             let binMax := round (add min (mul (ofNat (i + 1)) binWidth)) in
             mkBin binMin binMax (countIn binMin binMax values))
          (seq 0 binCount)
  end.

(** The sum of the counts of the bins. *)
Definition totalCount (bins : list bin) : nat :=
  fold_right (fun b acc => (bin_count b + acc)%nat) 0%nat bins.

(** [v] passes the filter of the bin [b]. *)
Definition inBin (v : num) (b : bin) : bool :=
  geb v (bin_min b) && ltb v (bin_max b).

(** The perfectly linear series [10, 20, 30, 40, 50]. *)
Definition linearSeries : list num := map ofZ [10; 20; 30; 40; 50]%Z.

End Analytics.

(* ================================================================= *)
(** ** The analytics component: derived scores and trend data *)

Module Insights.

Import Analytics.

(** JavaScript truthiness of a number: [0] and NaN are falsy. *)
Definition truthy (a : num) : bool :=
  match a with
  | Fin q => negb (Qc_eq_bool q (Q2Qc 0))
  | NaN => false
  | PInf | NInf => true
  end.

(** [a || d] *)
Definition orDefault (a d : num) : num := if truthy a then a else d.

(** The rational a finite number holds (0 for the special values). *)
Definition toQc (a : num) : Qc :=
  match a with Fin q => q | _ => Q2Qc 0 end.

(** The sum of a list of rationals, accumulated from the left. *)
Definition qsum (qs : list Qc) : Qc := fold_left Qcplus qs (Q2Qc 0).

(** Every number of the list is finite. *)
Definition allFinite (l : list num) : bool := forallb is_finite l.


(** The local [learningRate] of [calculateLearningCurve]; [None] when the
    function returns before computing it. *)
Definition calculateLearningCurve (sessions : list session) : option num :=
  if (length sessions <? 5)%nat then None
  else
    let recentSessions := slice_first 10 sessions in
    let olderSessions := slice_last 10 sessions in
    let recentAvg := average wpm recentSessions in
    let olderAvg := average wpm olderSessions in
    Some (mul (div (sub recentAvg olderAvg) olderAvg) hundred).

(** [calculateEnduranceScore(sessions)] *)
Definition isLong (s : session) : bool :=
  gtb (orDefault (time_taken s) zero) (ofZ 120).

Definition calculateEnduranceScore (sessions : list session) : num :=
  let longSessions := filter isLong sessions in
  match longSessions with
  | [] => ofZ 50
  | _ :: _ =>
      let avgPerformance := average wpm longSessions in
      let overallAvg := average wpm sessions in
      min2 hundred (mul (div avgPerformance overallAvg) hundred)
  end.

(** The array [calculateRadarScores] returns. *)
Record radar : Type := mkRadar {
  speedScore : num;
  accuracyScore : num;
  consistency : num;
  enduranceScore : num;
  improvementScore : num
}.

(** [calculateRadarScores()]; [history] is [this.data.history] and
    [improvement_rate] is [this.data.improvement_rate]. *)
Definition calculateRadarScores (history : option (list session))
                                (improvement_rate : num) : radar :=
  match history with
  | None => mkRadar zero zero zero zero zero
  | Some [] => mkRadar zero zero zero zero zero
  | Some sessions =>
      let avgWpm := average wpm sessions in
      let speed := min2 (mul (div avgWpm (ofZ 70)) hundred) hundred in
      let avgAccuracy := average accuracy sessions in
      let wpmValues := map wpm sessions in
      let variance := calculateVariance wpmValues in
      let consistencyScore :=
        max2 zero (sub hundred (div variance (ofZ 10))) in
      let endurance := calculateEnduranceScore sessions in
      let improvement :=
        max2 zero (min2 hundred (add improvement_rate (ofZ 50))) in
      mkRadar speed avgAccuracy consistencyScore endurance improvement
  end.

(** The peak statistics of [updateDetailedStats]:
    [Math.max(...wpmValues)] and [Math.max(...sessions.map(s => s.accuracy))]. *)
Definition peakWpm (sessions : list session) : num :=
  maxl (map wpm sessions).
Definition peakAccuracy (sessions : list session) : num :=
  maxl (map accuracy sessions).




(** The rational value of the regression denominator
    [n * sumXX - sumX * sumX] for [n] values: [n^2 (n-1) (n+1) / 12]. *)
Definition denominatorQ (n : nat) : Qc :=
  (natQ n * natQ n * (natQ n - 1) * (natQ n + 1) / Q2Qc 12)%Qc.

(** The series [a + b * i] for [i = 0 .. n-1]. *)
Definition linearValues (a b : Qc) (n : nat) : list num :=
  map (fun i => Fin (a + b * natQ i)%Qc) (seq 0 n).

(** The number is finite and lies in [0, 100]. *)
Definition inRange (a : num) : bool := leb zero a && leb a hundred.

(** Every session reports a finite WPM greater than 0. *)
Definition positiveWpm (sessions : list session) : Prop :=
  forall s, In s sessions -> exists w, wpm s = Fin w /\ (Q2Qc 0 < w)%Qc.

(** Every session reports a finite accuracy between 0 and 100. *)
Definition validAccuracy (sessions : list session) : Prop :=
  forall s, In s sessions ->
    exists a, accuracy s = Fin a /\ (Q2Qc 0 <= a)%Qc /\ (a <= natQ 100)%Qc.

(** [f 0 + f 1 + ... + f (n-1)] *)
Definition sumOver (f : nat -> nat) (n : nat) : nat :=
  fold_right (fun i acc => (f i + acc)%nat) 0%nat (seq 0 n).

(** The boundary [Math.round(min + i * binWidth)] of the histogram. *)
Definition boundary (min binWidth : num) (i : nat) : num :=
  round (add min (mul (ofNat i) binWidth)).

End Insights.

(* ================================================================= *)
(** ** The typing test: display, completion and registration *)

Module Screen.

Import App Insights.

(** What [updateMetricsDisplay(metrics)] writes: the numbers shown in
    [current-wpm], [current-accuracy], [progress] and [current-errors]:
    [metrics.wpm || 0], [metrics.accuracy || 100],
    [Math.round(metrics.progress || 0)], [metrics.errors || 0]. *)
Record shown : Type := mkShown {
  shownWpm : num;
  shownAccuracy : num;
  shownProgress : num;
  shownErrors : num
}.

Definition updateMetricsDisplay (m : metrics) : shown :=
  mkShown (orDefault (wpm m) zero)
          (orDefault (accuracy m) hundred)
          (round (orDefault (progress m) zero))
          (orDefault (errors m) zero).

(** The test of [handleTyping] that schedules the automatic submission:
    [input.length >= this.state.currentTest.prompt.length]. *)
Definition completes (input : jsstring) (t : test) : bool :=
  (length (prompt t) <=? length input)%nat.

(** [a] is a prefix of [b]. *)
Fixpoint isPrefix (a b : jsstring) : bool :=
  match a, b with
  | [], _ => true
  | x :: a', y :: b' => N.eqb x y && isPrefix a' b'
  | _ :: _, [] => false
  end.

(** *** The activity feed *)

(** [while (activityList.children.length > 10)
       activityList.removeChild(activityList.lastChild);]
    with one unit of fuel per child. *)
Fixpoint keepRecent {A : Type} (fuel : nat) (children : list A) : list A :=
  match fuel with
  | O => children
  | S fuel' =>
      if (10 <? length children)%nat
      then keepRecent fuel' (removelast children)
      else children
  end.

(** [addActivityFeedItem(item)] on the children of [activity-list]. *)
Definition addActivityFeedItem {A : Type} (item : A) (children : list A)
  : list A :=
  let inserted := item :: children in
  keepRecent (length inserted) inserted.

(** *** Registration data *)

(** [\S]: a code unit that is not whitespace. *)
Definition notSpace (c : code_unit) : bool := negb (is_space c).

(** A piece of the pattern [/\S+@\S+\.\S+/]: one or more code units that
    are not whitespace, or one given code unit. *)
Inductive piece : Type :=
| NonSpaces
| Unit (c : code_unit).

(** The pattern matches a prefix of [s]. *)
Fixpoint matchHere (pattern : list piece) (s : jsstring) {struct s}
  : bool :=
  match pattern, s with
  | [], _ => true
  | _ :: _, [] => false
  | Unit u :: rest, c :: r => N.eqb c u && matchHere rest r
  | NonSpaces :: rest, c :: r =>
      negb (is_space c) && (matchHere rest r || matchHere pattern r)
  end.

(** [pattern.test(s)]: the pattern matches somewhere in [s]. *)
Fixpoint patternTest (pattern : list piece) (s : jsstring) : bool :=
  matchHere pattern s
  || match s with
     | [] => false
     | _ :: r => patternTest pattern r
     end.

(** [/\S+@\S+\.\S+/] *)
Definition emailPattern : list piece :=
  [NonSpaces; Unit 64%N; NonSpaces; Unit 46%N; NonSpaces].

(** [validateRegistrationData(username, email, password)] *)
Definition validateRegistrationData (username email password : jsstring)
  : bool :=
  if nonEmpty username && negb (length username <? 3)%nat
  then
    if nonEmpty email && patternTest emailPattern email
    then nonEmpty password && negb (length password <? 6)%nat
    else false
  else false.

End Screen.

(* ================================================================= *)
(** ** The leaderboard component *)

Module Leaderboard.

Import JsNum.

(** The data of a [leaderboard_update] message. *)
Record update : Type := mkUpdate {
  user : string;
  record_wpm : num
}.

(** An entry of [this.animationQueue]. *)
Record animation : Type := mkAnimation {
  anim_type : string;
  anim_data : update;
  timestamp : Z
}.

(** The component with what the browser holds for it: the repeating
    timers still firing, the next handle [setInterval] hands out, the
    [setTimeout] callbacks of [processAnimationQueue] and of
    [loadLeaderboardData] not yet run, and the notifications
    [showNewRecordAnimation] has put on the page, the newest first. *)
Record board : Type := mkBoard {
  updateInterval : option App.handle;
  animationQueue : list animation;
  intervals : list App.handle;
  nextHandle : App.handle;
  queueTimeouts : nat;
  reloadTimeouts : nat;
  notifications : list update
}.

(** The component as its constructor leaves it. *)
Definition newBoard : board :=
  mkBoard None [] [] 1%positive 0 0 [].

(** [startAutoRefresh] *)
Definition startAutoRefresh (b : board) : board :=
  let h := nextHandle b in
  mkBoard (Some h) (animationQueue b) (h :: intervals b) (Pos.succ h)
          (queueTimeouts b) (reloadTimeouts b) (notifications b).

(** [stopAutoRefresh] *)
Definition stopAutoRefresh (b : board) : board :=
  match updateInterval b with
  | Some h =>
      mkBoard None (animationQueue b)
              (filter (fun k => negb (Pos.eqb k h)) (intervals b))
              (nextHandle b) (queueTimeouts b) (reloadTimeouts b)
              (notifications b)
  | None => b
  end.

(** [destroy] *)
Definition destroy (b : board) : board :=
  let b1 := stopAutoRefresh b in
  mkBoard (updateInterval b1) [] (intervals b1) (nextHandle b1)
          (queueTimeouts b1) (reloadTimeouts b1) (notifications b1).

(** [processAnimationQueue]: nothing for an empty queue; otherwise the
    first entry is taken off, shown when its type is [new_record], and the
    next run is scheduled three seconds later. *)
Definition processAnimationQueue (b : board) : board :=
  match animationQueue b with
  | [] => b
  | a :: rest =>
      mkBoard (updateInterval b) rest (intervals b) (nextHandle b)
              (S (queueTimeouts b)) (reloadTimeouts b)
              (if String.eqb (anim_type a) "new_record"
               then anim_data a :: notifications b
               else notifications b)
  end.

(** [handleRealtimeUpdate(data)] at instant [now]. *)
Definition handleRealtimeUpdate (data : update) (now : Z) (b : board)
  : board :=
  let pushed :=
    mkBoard (updateInterval b)
            (animationQueue b ++ [mkAnimation "new_record" data now])
            (intervals b) (nextHandle b) (queueTimeouts b)
            (reloadTimeouts b) (notifications b) in
  let b1 := processAnimationQueue pushed in
  mkBoard (updateInterval b1) (animationQueue b1) (intervals b1)
          (nextHandle b1) (queueTimeouts b1) (S (reloadTimeouts b1))
          (notifications b1).

(** A scheduled [processAnimationQueue] runs. *)
Definition queueTimeout (b : board) : board :=
  match queueTimeouts b with
  | O => b
  | S n =>
      processAnimationQueue
        (mkBoard (updateInterval b) (animationQueue b) (intervals b)
                 (nextHandle b) n (reloadTimeouts b) (notifications b))
  end.

(** What can happen to the component.  [Init] is [init], of which only
    [startAutoRefresh] touches the state modelled here. *)
Inductive board_event : Type :=
| Init
| Update (data : update) (now : Z)
| QueueTimeout
| Stop
| Destroy.

Definition board_step (b : board) (e : board_event) : board :=
  match e with
  | Init => startAutoRefresh b
  | Update data now => handleRealtimeUpdate data now b
  | QueueTimeout => queueTimeout b
  | Stop => stopAutoRefresh b
  | Destroy => destroy b
  end.

Definition runBoard (es : list board_event) : board :=
  fold_left board_step es newBoard.

(** The data of the [leaderboard_update] messages among the events. *)
Definition updatesOf (es : list board_event) : list update :=
  flat_map (fun e => match e with
                     | Update data _ => [data]
                     | _ => []
                     end) es.

(** Handles are handed out in increasing order, so the next one is not
    among the intervals yet. *)
Definition handles_fresh (b : board) : Prop :=
  Forall (fun h => (h < nextHandle b)%positive) (intervals b).

End Leaderboard.

(* ================================================================= *)
(** ** The analytics component: the activity heatmap *)

Module Heatmap.

Import Analytics.

(** What [new Date(session.timestamp)] gives in local time: [getDay()],
    0 for Sunday, and [getHours()]. *)
Record local_time : Type := mkLocal {
  getDay : nat;
  getHours : nat
}.

(** A record of the history with the date of its timestamp; [None] is the
    invalid date, whose [getDay()] and [getHours()] are NaN. *)
Record stamped : Type := mkStamped {
  date : option local_time;
  record : session
}.

(** A cell [data[day][hour]]. *)
Record cell : Type := mkCell {
  count : nat;
  avgWpm : num;
  totalWpm : num
}.

Definition emptyCell : cell := mkCell 0 zero zero.

Definition days : list string :=
  ["Sun"; "Mon"; "Tue"; "Wed"; "Thu"; "Fri"; "Sat"]%string.

(** The object [data]: one row for each entry of [days], in that order;
    a row holds the cells of the hours 0 to 23. *)
Definition heatmap : Type := list (list cell).

Definition initialData : heatmap :=
  map (fun _ => repeat emptyCell 24) days.

(** [data[day][hour]], [None] when [days[day]] or the hour is missing. *)
Definition cellAt (data : heatmap) (day hour : nat) : option cell :=
  match nth_error data day with
  | Some row => nth_error row hour
  | None => None
  end.

(** The list with its [n]th entry replaced. *)
Fixpoint setNth {A : Type} (n : nat) (x : A) (l : list A) : list A :=
  match l, n with
  | [], _ => []
  | _ :: r, O => x :: r
  | y :: r, S n' => y :: setNth n' x r
  end.

(** The three assignments to a cell for a session of [w] WPM. *)
Definition addToCell (w : num) (c : cell) : cell :=
  let count' := S (count c) in
  let totalWpm' := add (totalWpm c) w in
  mkCell count' (div totalWpm' (ofNat count')) totalWpm'.

(** The body of the loop over [this.data.history]. *)
Definition addSession (data : heatmap) (s : stamped) : heatmap :=
  match date s with
  | None => data
  | Some t =>
      match nth_error data (getDay t) with
      | None => data
      | Some row =>
          match nth_error row (getHours t) with
          | None => data
          | Some c =>
              setNth (getDay t)
                     (setNth (getHours t) (addToCell (wpm (record s)) c) row)
                     data
          end
      end
  end.

(** [prepareHeatmapData()] *)
Definition prepareHeatmapData (history : list stamped) : heatmap :=
  fold_left addSession history initialData.

(** The session falls on day [d] at hour [h]. *)
Definition isAt (d h : nat) (s : stamped) : bool :=
  match date s with
  | Some t => (getDay t =? d)%nat && (getHours t =? h)%nat
  | None => false
  end.

(** [renderHeatmap]: the largest count of a cell, 0 for no cell. *)
Definition maxValue (data : heatmap) : nat :=
  fold_left
    (fun m dayData =>
       fold_left (fun m' hourData =>
                    if (m' <? count hourData)%nat then count hourData
                    else m')
                 dayData m)
    data 0%nat.

(** [renderHeatmap]: the opacity of a cell,
    [Math.max(0.1, maxValue > 0 ? count / maxValue : 0)]. *)
Definition alpha (data : heatmap) (c : cell) : num :=
  let intensity :=
    if (0 <? maxValue data)%nat
    then div (ofNat (count c)) (ofNat (maxValue data))
    else zero in
  max2 (Fin (Q2Qc (1 # 10))) intensity.

End Heatmap.

(* ================================================================= *)
(** ** The analytics component: performance by hour of the day *)

Module Hours.

Import Analytics Heatmap.

(** A key of [hourlyPerformance]: the hour [getHours()] gives, or NaN
    ([None]) for a record whose timestamp is no valid date. *)
Definition key : Type := option nat.

Definition key_eqb (a b : key) : bool :=
  match a, b with
  | Some x, Some y => (x =? y)%nat
  | None, None => true
  | _, _ => false
  end.

(** An entry [hourlyPerformance[hour]]. *)
Record bucket : Type := mkBucket {
  total : num;
  bcount : nat;
  accuracySum : num
}.

(** The object [hourlyPerformance]: its properties in the order of their
    creation. *)
Definition hourly : Type := list (key * bucket).

Fixpoint lookup (k : key) (h : hourly) : option bucket :=
  match h with
  | [] => None
  | (k', b) :: r => if key_eqb k k' then Some b else lookup k r
  end.

(** Assignment to the property [k]: in place when it exists, a new last
    property otherwise. *)
Fixpoint store (k : key) (b : bucket) (h : hourly) : hourly :=
  match h with
  | [] => [(k, b)]
  | (k', b') :: r =>
      if key_eqb k k' then (k', b) :: r else (k', b') :: store k b r
  end.

Definition hourKey (s : stamped) : key := option_map getHours (date s).

(** [{ total: 0, count: 0, accuracy: 0 }] *)
Definition emptyBucket : bucket := mkBucket zero 0 zero.

(** [hourlyPerformance[hour]], a new entry when there is none. *)
Definition entry (k : key) (h : hourly) : bucket :=
  match lookup k h with
  | Some b => b
  | None => emptyBucket
  end.

(** The three updates of an entry for a session. *)
Definition addToBucket (s : session) (b : bucket) : bucket :=
  mkBucket (add (total b) (wpm s))
           (S (bcount b))
           (add (accuracySum b) (accuracy s)).

(** The body of the loop over the sessions. *)
Definition addHour (h : hourly) (s : stamped) : hourly :=
  let hour := hourKey s in
  store hour (addToBucket (record s) (entry hour h)) h.

(** [total / count] of an entry. *)
Definition avgOf (b : bucket) : num := div (total b) (ofNat (bcount b)).

(** [Object.keys(hourlyPerformance)]: the integer keys in ascending order,
    then the key NaN if there is one. *)
Fixpoint insertSorted (x : nat) (l : list nat) : list nat :=
  match l with
  | [] => [x]
  | y :: r => if (x <=? y)%nat then x :: l else y :: insertSorted x r
  end.

Definition sortNat (l : list nat) : list nat :=
  fold_right insertSorted [] l.

Definition integerKeys (h : hourly) : list nat :=
  flat_map (fun e => match fst e with Some x => [x] | None => [] end) h.

Definition objectKeys (h : hourly) : list key :=
  (map Some (sortNat (integerKeys h))
   ++ (if existsb (fun e => key_eqb (fst e) None) h then [None] else []))%list.

(** The body of the loop over the keys, on the pair of [bestHour] and
    [bestWpm]. *)
Definition better (h : hourly) (best : key * num) (hour : key)
  : key * num :=
  match lookup hour h with
  | Some b =>
      let avgWpm := avgOf b in
      if gtb avgWpm (snd best) then (hour, avgWpm) else best
  | None => best
  end.

(** What [analyzeTimePatterns] returns.  [bestHour] starts as the number
    0 and becomes a key, a string; both are written as a key here. *)
Record patterns : Type := mkPatterns {
  bestHour : key;
  bestWpm : num;
  hourlyData : hourly
}.

Definition hourlyPerformance (history : list stamped) : hourly :=
  fold_left addHour history [].

(** [analyzeTimePatterns()] *)
Definition analyzeTimePatterns (history : list stamped) : patterns :=
  let h := hourlyPerformance history in
  let best := fold_left (better h) (objectKeys h) (Some 0%nat, zero) in
  mkPatterns (fst best) (snd best) h.

(** The sessions of the history that fall into the hour [k]. *)
Definition atHour (k : key) (s : stamped) : bool := key_eqb (hourKey s) k.

Definition sessionsAt (k : key) (history : list stamped) : list session :=
  map record (filter (atHour k) history).

(** Every session of the history has a finite WPM. *)
Definition finiteWpm (history : list stamped) : Prop :=
  forall s, In s history -> is_finite (wpm (record s)) = true.

End Hours.

(* ================================================================= *)
(** ** JavaScript numbers in binary64 *)

(** The Number type as the engine has it: IEEE 754 binary64, every
    operation rounded to the nearest representable value, ties to even,
    with overflow to the infinities.  The operations are those of the
    standard library's specification of floating-point arithmetic
    ([SpecFloat]) at precision 53 and maximal exponent 1024. *)
Module Binary64.

Definition float : Type := spec_float.

Definition prec : Z := 53.
Definition emax : Z := 1024.

Definition add : float -> float -> float := SFadd prec emax.
Definition sub : float -> float -> float := SFsub prec emax.
Definition mul : float -> float -> float := SFmul prec emax.
Definition div : float -> float -> float := SFdiv prec emax.

(** The Number of an integer, exact up to [2^53]. *)
Definition ofZ (z : Z) : float := binary_normalize prec emax z 0 false.
Definition ofNat (n : nat) : float := ofZ (Z.of_nat n).

Definition zero : float := ofZ 0.
Definition hundred : float := ofZ 100.

(** The decimal literal [n / d], for [d] a power of ten: the binary64
    value nearest to it. *)
Definition dec (n d : Z) : float := div (ofZ n) (ofZ d).

(** [a < b], [a > b], [a <= b], [a === b]; false when an argument is
    NaN. *)
Definition ltb : float -> float -> bool := SFltb.
Definition gtb (a b : float) : bool := SFltb b a.
Definition leb : float -> float -> bool := SFleb.
Definition eqb : float -> float -> bool := SFeqb.

Definition is_finite (a : float) : bool :=
  match a with
  | S754_zero _ | S754_finite _ _ _ => true
  | _ => false
  end.

(** [Math.round]: the nearest integer, ties towards [+Infinity]; exact.
    A value [m * 2^e] with [e >= 0] is an integer already; otherwise the
    result is [floor(m * 2^e + 1/2)], and a zero result keeps the sign of
    the argument. *)
Definition round (x : float) : float :=
  match x with
  | S754_finite s m e =>
      if (0 <=? e)%Z then x
      else
        let v := if s then Z.neg m else Z.pos m in
        let z := ((2 * v + 2 ^ (- e)) / 2 ^ (1 - e))%Z in
        match z with
        | Z0 => S754_zero s
        | _ => ofZ z
        end
  | _ => x
  end.

(** [Math.max(a, b)] and [Math.min(a, b)]: NaN if either argument is NaN,
    and [+0] is larger than [-0]. *)
Definition max2 (a b : float) : float :=
  match a, b with
  | S754_nan, _ | _, S754_nan => S754_nan
  | _, _ =>
      if SFltb a b then b
      else if SFltb b a then a
      else match a, b with
           | S754_zero true, S754_zero false => b
           | _, _ => a
           end
  end.

Definition min2 (a b : float) : float :=
  match a, b with
  | S754_nan, _ | _, S754_nan => S754_nan
  | _, _ =>
      if SFltb a b then a
      else if SFltb b a then b
      else match a, b with
           | S754_zero false, S754_zero true => b
           | _, _ => a
           end
  end.

(** [Math.pow(a, 2)], taken as the correctly rounded square. *)
Definition pow2 (a : float) : float := mul a a.

(** [values.reduce((sum, val) => sum + val, 0)] *)
Definition sum (values : list float) : float := fold_left add values zero.

End Binary64.

(* ================================================================= *)
(** ** The typing metrics in binary64 *)

(** [calculateLocalMetrics] and the calculations of [submitTest] as in
    [App], with the arithmetic of [Binary64]. *)
Module App64.

Import Binary64.

(** [this.state.metrics] *)
Record metrics : Type := mkMetrics {
  wpm : float;
  accuracy : float;
  progress : float;
  errors : float;
  elapsedTime : float
}.

(** The body of [calculateLocalMetrics] after its guard, for a test whose
    prompt is [p], with [elapsedMs = new Date() - startTime]. *)
Definition localMetrics (p input : jsstring) (elapsedMs : Z) : metrics :=
  let elapsedMinutes := div (ofZ elapsedMs) (mul (ofZ 1000) (ofZ 60)) in
  let w :=
    if gtb elapsedMinutes zero
    then round (div (ofNat (App.words input)) elapsedMinutes)
    else zero in
  let c := App.correctChars input p in
  let acc :=
    if (0 <? length p)%nat
    then round (mul (div (ofNat c) (ofNat (length p))) hundred)
    else hundred in
  let prog :=
    min2 (mul (div (ofNat (length input)) (ofNat (length p))) hundred)
         hundred in
  let errs := sub (ofNat (length input)) (ofNat c) in
  mkMetrics w acc prog errs (mul elapsedMinutes (ofZ 60)).

(** The payload [submissionData] built by [submitTest]. *)
Record submission : Type := mkSubmission {
  sub_wpm : float;
  sub_accuracy : float;
  sub_difficulty : string;
  sub_errors : float;
  characters_typed : float;
  time_taken : float
}.

(** The locals [wpm] and [accuracy] of [submitTest]. *)
Definition finalWpm (input : jsstring) (elapsedMs : Z) : float :=
  let elapsedSeconds := div (ofZ elapsedMs) (ofZ 1000) in
  div (ofNat (App.words input)) (div elapsedSeconds (ofZ 60)).

Definition finalAccuracy (p input : jsstring) : float :=
  mul (div (ofNat (App.correctChars input p)) (ofNat (length p))) hundred.

(** [Math.round(v * 100) / 100] *)
Definition round2 (v : float) : float :=
  div (round (mul v hundred)) hundred.

Definition submissionData (t : App.test) (input : jsstring) (now : Z)
  : submission :=
  let elapsedMs := (now - App.startInstant t)%Z in
  let c := App.correctChars input (App.prompt t) in
  mkSubmission
    (round2 (finalWpm input elapsedMs))
    (round2 (finalAccuracy (App.prompt t) input))
    (App.difficulty t)
    (sub (ofNat (length input)) (ofNat c))
    (ofNat (length input))
    (div (ofZ elapsedMs) (ofZ 1000)).

(** *** The accuracy in the words of the specification, and amended *)



(** *** The WPM in the words of the specification, and amended *)

(** [wordCount / (elapsedSeconds / 60)], and 0 before any time has
    elapsed. *)
Definition claimedWpm (typed : jsstring) (elapsedMs : Z) : float :=
  if (elapsedMs <=? 0)%Z then zero
  else
    let elapsedSeconds := div (ofZ elapsedMs) (ofZ 1000) in
    div (ofNat (App.wordCount typed)) (div elapsedSeconds (ofZ 60)).

(** The live WPM: [Math.round(wordCount / elapsedMinutes)] with
    [elapsedMinutes = elapsedMs / 60000], and 0 unless [elapsedMinutes]
    is greater than 0. *)
Definition amendedLiveWpm (typed : jsstring) (elapsedMs : Z) : float :=
  let elapsedMinutes := div (ofZ elapsedMs) (ofZ 60000) in
  if gtb elapsedMinutes zero
  then round (div (ofNat (App.wordCount typed)) elapsedMinutes)
  else zero.

(** The WPM at submit time: [wordCount / (elapsedSeconds / 60)] with
    [elapsedSeconds = elapsedMs / 1000]. *)
Definition amendedFinalWpm (typed : jsstring) (elapsedMs : Z) : float :=
  let elapsedSeconds := div (ofZ elapsedMs) (ofZ 1000) in
  div (ofNat (App.wordCount typed)) (div elapsedSeconds (ofZ 60)).

End App64.

(* ================================================================= *)
(** ** The change percentage and the variance in binary64 *)

(** [calculateChange], [calculateVariance] and the consistency score as
    in [Analytics], with the arithmetic of [Binary64]. *)
Module Analytics64.

Import Binary64.

(** A record of [this.data.history]. *)
Record session : Type := mkSession {
  wpm : float;
  accuracy : float;
  difficulty : option string;
  errors : float;
  time_taken : float
}.

(** [list.reduce((sum, s) => sum + s[metric], 0) / list.length] *)
Definition average (metric : session -> float) (l : list session)
  : float :=
  div (fold_left (fun acc s => add acc (metric s)) l zero)
      (ofNat (length l)).

(** [calculateChange(metric)]; [history] is [this.data.history], [None]
    when it is not set. *)
Definition calculateChange (history : option (list session))
                           (metric : session -> float) : float :=
  match history with
  | None => zero
  | Some h =>
      if (length h <? 10)%nat then zero
      else
        let recent := Analytics.slice_first 5 h in
        let older := Analytics.slice_last 5 h in
        let recentAvg := average metric recent in
        let olderAvg := average metric older in
        if gtb olderAvg zero
        then round (mul (div (sub recentAvg olderAvg) olderAvg) hundred)
        else zero
  end.

(** The local [learningRate] of [calculateLearningCurve]; [None] when the
    function returns before computing it. *)
Definition calculateLearningCurve (sessions : list session)
  : option float :=
  if (length sessions <? 5)%nat then None
  else
    let recentSessions := Analytics.slice_first 10 sessions in
    let olderSessions := Analytics.slice_last 10 sessions in
    let recentAvg := average wpm recentSessions in
    let olderAvg := average wpm olderSessions in
    Some (mul (div (sub recentAvg olderAvg) olderAvg) hundred).

(** *** The change percentage in the words of the specification, and
    amended *)

(** The last [k] records, in the order of the history. *)
Definition lastRecords (k : nat) (h : list session) : list session :=
  rev (firstn k (rev h)).

(** The average of a metric: the sum of the values over their number. *)
Definition specAverage (metric : session -> float) (l : list session)
  : float :=
  div (sum (map metric l)) (ofNat (length l)).

(** [round(100 * (avg(first 5) - avg(last 5)) / avg(last 5))], 0 for fewer
    than 10 records and when the older average is 0. *)
Definition claimedChange (h : list session) (metric : session -> float)
  : float :=
  if (length h <? 10)%nat then zero
  else
    let avgFirst := specAverage metric (firstn 5 h) in
    let avgLast := specAverage metric (lastRecords 5 h) in
    if eqb avgLast zero then zero
    else round (div (mul hundred (sub avgFirst avgLast)) avgLast).

(** [round(((avg(first 5) - avg(last 5)) / avg(last 5)) * 100)], the
    quotient rounded before the product is taken; 0 for fewer than 10
    records and unless the older average is greater than 0. *)
Definition amendedChange (h : list session) (metric : session -> float)
  : float :=
  if (length h <? 10)%nat then zero
  else
    let avgFirst := specAverage metric (firstn 5 h) in
    let avgLast := specAverage metric (lastRecords 5 h) in
    if gtb avgLast zero
    then round (mul (div (sub avgFirst avgLast) avgLast) hundred)
    else zero.

(** A session that reports the given WPM. *)
Definition sessionOfWpm (w : float) : session :=
  mkSession w (ofZ 95) None zero zero.

(** [values.reduce((sum, val) => sum + val, 0) / values.length], the local
    [mean] of [calculateVariance]. *)
Definition meanOf (values : list float) : float :=
  div (sum values) (ofNat (length values)).

(** [calculateVariance(values)] *)
Definition calculateVariance (values : list float) : float :=
  match values with
  | [] => zero
  | _ :: _ =>
      let mean := meanOf values in
      let squaredDiffs := map (fun val => pow2 (sub val mean)) values in
      div (sum squaredDiffs) (ofNat (length values))
  end.

(** [Math.max(0, 100 - (variance / 10))] of [updateDetailedStats] *)
Definition consistencyOf (variance : float) : float :=
  max2 zero (sub hundred (div variance (ofZ 10))).

End Analytics64.

(* ================================================================= *)
(** * Properties *)

(** ** Numbers *)

(** Order facts on canonical rationals are proved on the underlying
    rationals. *)
Ltac to_Q :=
  unfold Qcle, Qclt, Qcminus, Qcdiv in *;
  unfold Qcplus, Qcmult, Qcopp, Qcinv in *;
  cbn [this Q2Qc] in *;
  rewrite ?Qred_correct in *.

Section NumFacts.

Local Open Scope Qc_scope.

Lemma ofNat_Fin (n : nat) : ofNat n = Fin (natQ n).
Proof. reflexivity. Qed.

Lemma natQ_0 : natQ 0 = Q2Qc 0.
Proof. reflexivity. Qed.

Lemma natQ_S (n : nat) : natQ (S n) = natQ n + 1.
Proof.
  unfold natQ. apply Qc_is_canon.
  cbn [this Q2Qc Qcplus]. rewrite !Qred_correct.
  rewrite Nat2Z.inj_succ. unfold Z.succ.
  rewrite inject_Z_plus. reflexivity.
Qed.

Lemma Q2Qc_le (p q : Q) : (p <= q)%Q -> Q2Qc p <= Q2Qc q.
Proof.
  intros H. unfold Qcle. cbn [this Q2Qc]. now rewrite !Qred_correct.
Qed.

Lemma Q2Qc_lt (p q : Q) : (p < q)%Q -> Q2Qc p < Q2Qc q.
Proof.
  intros H. unfold Qclt. cbn [this Q2Qc]. now rewrite !Qred_correct.
Qed.

Lemma natQ_nonneg (n : nat) : Q2Qc 0 <= natQ n.
Proof.
  apply (Q2Qc_le (inject_Z 0)). rewrite <- Zle_Qle. lia.
Qed.

Lemma natQ_pos (n : nat) : (0 < n)%nat -> Q2Qc 0 < natQ n.
Proof.
  intros Hn. apply (Q2Qc_lt (inject_Z 0)). rewrite <- Zlt_Qlt. lia.
Qed.

Lemma natQ_le (n m : nat) : (n <= m)%nat -> natQ n <= natQ m.
Proof.
  intros Hn. apply Q2Qc_le. rewrite <- Zle_Qle. lia.
Qed.

Lemma sgn_pos (q : Qc) : Q2Qc 0 < q -> sgn q = Gt.
Proof. intros H. unfold sgn. now apply Qcgt_alt. Qed.

Lemma sgn_zero : sgn (Q2Qc 0) = Eq.
Proof. reflexivity. Qed.

Lemma sgn_natQ_pos (n : nat) : (0 < n)%nat -> sgn (natQ n) = Gt.
Proof. intros H. now apply sgn_pos, natQ_pos. Qed.

Lemma pos_neq_0 (q : Qc) : Q2Qc 0 < q -> q <> Q2Qc 0.
Proof.
  intros H E. subst q. revert H. unfold Qclt. apply Qlt_irrefl.
Qed.

Lemma add_Fin (p q : Qc) : add (Fin p) (Fin q) = Fin (p + q).
Proof. reflexivity. Qed.

Lemma sub_Fin (p q : Qc) : sub (Fin p) (Fin q) = Fin (p - q).
Proof. reflexivity. Qed.

Lemma mul_Fin (p q : Qc) : mul (Fin p) (Fin q) = Fin (p * q).
Proof. reflexivity. Qed.

Lemma zero_Fin : zero = Fin (Q2Qc 0).
Proof. reflexivity. Qed.

Lemma hundred_Fin : hundred = Fin (natQ 100).
Proof. reflexivity. Qed.

(** Division of finite numbers by a positive one is the rational quotient. *)
Lemma div_Fin_pos (p q : Qc) : Q2Qc 0 < q -> div (Fin p) (Fin q) = Fin (p / q).
Proof. intros H. unfold div. now rewrite (sgn_pos q H). Qed.

Lemma eqb_eq (a b : num) : eqb a b = true -> a = b.
Proof.
  destruct a, b; simpl; try discriminate; trivial.
  intros H. f_equal. now apply Qc_eq_bool_correct.
Qed.

Lemma eqb_refl (a : num) : eqb a a = true.
Proof.
  destruct a; simpl; trivial.
  unfold Qc_eq_bool. destruct (Qc_eq_dec q q); congruence.
Qed.

Lemma eqb_neq (a b : num) : eqb a b = false -> a <> b.
Proof.
  intros H E. subst b. rewrite eqb_refl in H. discriminate.
Qed.

Lemma leb_Fin (p q : Qc) : leb (Fin p) (Fin q) = true <-> p <= q.
Proof.
  unfold leb, geb, ltb.
  destruct (Qccompare q p) eqn:E; simpl; split; intros H;
    try reflexivity; try discriminate.
  - apply Qceq_alt in E. subst q. unfold Qcle. apply Qle_refl.
  - exfalso. apply (Qcle_not_lt _ _ H). exact (proj2 (Qclt_alt q p) E).
  - apply Qclt_le_weak. exact (proj2 (Qcgt_alt q p) E).
Qed.

Lemma ofZ_Fin (z : Z) : ofZ z = Fin (intQ z).
Proof. reflexivity. Qed.

Lemma intQ_pos (z : Z) : (0 < z)%Z -> Q2Qc 0 < intQ z.
Proof.
  intros H. apply (Q2Qc_lt (inject_Z 0)). now rewrite <- Zlt_Qlt.
Qed.

Lemma intQ_nonpos (z : Z) : (z <= 0)%Z -> intQ z <= Q2Qc 0.
Proof.
  intros H. apply (Q2Qc_le _ (inject_Z 0)). now rewrite <- Zle_Qle.
Qed.

Lemma Qc_div_pos (a b : Qc) :
  Q2Qc 0 < a -> Q2Qc 0 < b -> Q2Qc 0 < a / b.
Proof.
  intros Ha Hb. to_Q.
  apply Qlt_shift_div_l; [assumption | lra].
Qed.

Lemma Qc_div_nonpos (a b : Qc) :
  a <= Q2Qc 0 -> Q2Qc 0 < b -> a / b <= Q2Qc 0.
Proof.
  intros Ha Hb. to_Q.
  apply Qle_shift_div_r; [assumption | lra].
Qed.

Lemma Qc_mult_pos (a b : Qc) :
  Q2Qc 0 < a -> Q2Qc 0 < b -> Q2Qc 0 < a * b.
Proof.
  intros Ha Hb. to_Q. now apply Qmult_lt_0_compat.
Qed.

Lemma gtb_zero_nonpos (q : Qc) : q <= Q2Qc 0 -> gtb (Fin q) zero = false.
Proof.
  intros H. unfold gtb, ltb, zero, ofZ.
  change (Q2Qc (inject_Z 0)) with (Q2Qc 0).
  destruct (Qccompare (Q2Qc 0) q) eqn:E; try reflexivity.
  exfalso. apply (Qcle_not_lt _ _ H). exact (proj2 (Qclt_alt _ _) E).
Qed.

Lemma ofZ_le (x y : Z) : (x <= y)%Z -> leb (ofZ x) (ofZ y) = true.
Proof.
  intros H. apply leb_Fin. apply Q2Qc_le. now rewrite <- Zle_Qle.
Qed.

Lemma eqb_list_eq (l m : list num) : eqb_list l m = true -> l = m.
Proof.
  revert m. induction l as [|a l IH]; intros [|b m]; simpl;
    try discriminate; trivial.
  intros H. apply andb_true_iff in H. destruct H as [H1 H2].
  f_equal; [now apply eqb_eq | now apply IH].
Qed.

(** Running sum of finite values. *)
Lemma fold_add_repeat (c a : Qc) (n : nat) :
  fold_left add (repeat (Fin c) n) (Fin a) = Fin (a + natQ n * c).
Proof.
  revert a. induction n as [|n IH]; intros a; simpl.
  - f_equal. rewrite natQ_0. ring.
  - rewrite IH. f_equal. rewrite natQ_S. ring.
Qed.

Lemma sum_repeat (c : Qc) (n : nat) :
  sum (repeat (Fin c) n) = Fin (natQ n * c).
Proof.
  unfold sum, zero, ofZ. rewrite fold_add_repeat. f_equal.
  change (Q2Qc (inject_Z 0)) with (Q2Qc 0). ring.
Qed.

Lemma constant_is_repeat (A : Type) (c : A) (l : list A) :
  (forall v, In v l -> v = c) -> l = repeat c (length l).
Proof.
  induction l as [|a l IH]; intros H; simpl; trivial.
  rewrite (H a (or_introl eq_refl)). f_equal.
  apply IH. intros v Hv. apply H. now right.
Qed.

Lemma Qc_plus_nonneg (a b : Qc) :
  Q2Qc 0 <= a -> Q2Qc 0 <= b -> Q2Qc 0 <= a + b.
Proof.
  intros Ha Hb. to_Q.
  apply (Qplus_le_compat 0 (this a) 0 (this b)); assumption.
Qed.

Lemma Qc_div_nonneg (a b : Qc) :
  Q2Qc 0 <= a -> Q2Qc 0 < b -> Q2Qc 0 <= a / b.
Proof.
  intros Ha Hb. to_Q.
  apply Qmult_le_0_compat; [assumption|].
  apply Qlt_le_weak. now apply Qinv_lt_0_compat.
Qed.

Lemma gtb_zero_pos (q : Qc) : Q2Qc 0 < q -> gtb (Fin q) zero = true.
Proof.
  intros H. unfold gtb, ltb, zero, ofZ.
  change (Q2Qc (inject_Z 0)) with (Q2Qc 0).
  pose proof (proj1 (Qclt_alt (Q2Qc 0) q) H) as E. now rewrite E.
Qed.

Lemma gtb_zero_zero : gtb (Fin (Q2Qc 0)) zero = false.
Proof. reflexivity. Qed.

Lemma eqb_zero_pos (q : Qc) : Q2Qc 0 < q -> eqb (Fin q) zero = false.
Proof.
  intros H. destruct (eqb (Fin q) zero) eqn:E; [|reflexivity].
  apply eqb_eq in E. injection E as ->.
  exfalso. revert H. unfold Qclt. apply Qlt_irrefl.
Qed.

Lemma Fin_inj (p q : Qc) : Fin p = Fin q -> p = q.
Proof.
  intros H.
  exact (f_equal (fun a => match a with Fin x => x | _ => p end) H).
Qed.

Lemma ltb_Fin_false (p q : Qc) : q <= p -> ltb (Fin p) (Fin q) = false.
Proof.
  intros H. unfold ltb.
  destruct (Qccompare p q) eqn:E; try reflexivity.
  exfalso. apply (Qcle_not_lt _ _ H). exact (proj2 (Qclt_alt _ _) E).
Qed.

Lemma ltb_Fin_true (p q : Qc) : p < q -> ltb (Fin p) (Fin q) = true.
Proof.
  intros H. unfold ltb. now rewrite (proj1 (Qclt_alt p q) H).
Qed.

Lemma Qcle_refl' (p : Qc) : p <= p.
Proof. unfold Qcle. apply Qle_refl. Qed.

Lemma Qcle_trans' (p q r : Qc) : p <= q -> q <= r -> p <= r.
Proof. unfold Qcle. apply Qle_trans. Qed.

End NumFacts.

Create Rewrite HintDb fin.
#[export] Hint Rewrite ofNat_Fin zero_Fin hundred_Fin add_Fin sub_Fin mul_Fin
  : fin.

(* ================================================================= *)
(** ** Variance and consistency score *)

Section Variance.

Import Analytics.
Local Open Scope Qc_scope.

Lemma mean_of_constant (c : Qc) (n : nat) :
  (0 < n)%nat ->
  div (sum (repeat (Fin c) n)) (ofNat n) = Fin c.
Proof.
  intros Hn. rewrite sum_repeat, ofNat_Fin.
  rewrite (div_Fin_pos _ _ (natQ_pos _ Hn)). f_equal.
  field. now apply pos_neq_0, natQ_pos.
Qed.

Lemma consistency_of_zero_variance : consistencyOf zero = hundred.
Proof. apply eqb_eq. vm_compute. reflexivity. Qed.

(** C10. [calculateVariance] of the empty list is 0 (its guard returns
    before the mean is divided by the length), and the consistency score of
    an empty history is 100. *)
Theorem C10_empty_history_consistency :
  calculateVariance [] = zero /\
  consistencyOf (calculateVariance []) = hundred /\
  consistencyScore [] = hundred.
Proof.
  split; [reflexivity|]. split; apply consistency_of_zero_variance.
Qed.

End Variance.

(* ================================================================= *)
(** ** Trend line *)

Section Regression.

Import Analytics.
Local Open Scope Qc_scope.

(** C7. On the series [10, 20, 30, 40, 50] the least-squares slope and
    intercept computed by [calculateLinearRegression] are both 10, and the
    fitted values it returns are the input values. *)
Theorem C7_regression_linear_series :
  regressionSlope linearSeries = ofZ 10 /\
  regressionIntercept linearSeries = ofZ 10 /\
  calculateLinearRegression linearSeries = linearSeries.
Proof.
  split; [|split].
  - apply eqb_eq. vm_compute. reflexivity.
  - apply eqb_eq. vm_compute. reflexivity.
  - apply eqb_list_eq. vm_compute. reflexivity.
Qed.

(** The sums the slope is computed from, on that series. *)
Example linearSeries_sums :
  sum (indices 5) = ofZ 10 /\
  sum linearSeries = ofZ 150 /\
  sumProducts (indices 5) linearSeries = ofZ 400 /\
  regressionDenominator 5 = ofZ 50.
Proof.
  repeat split; apply eqb_eq; vm_compute; reflexivity.
Qed.

Lemma indices_S (n : nat) : indices (S n) = indices n ++ [ofNat n].
Proof. unfold indices. now rewrite seq_S, map_app. Qed.

Lemma Qc_2 : Q2Qc 2 = 1 + 1.
Proof. apply Qc_is_canon. reflexivity. Qed.

Lemma Qc_6 : Q2Qc 6 = (1 + 1) * (1 + 1 + 1).
Proof. apply Qc_is_canon. reflexivity. Qed.

Lemma Qc_12 : Q2Qc 12 = (1 + 1) * (1 + 1) * (1 + 1 + 1).
Proof. apply Qc_is_canon. reflexivity. Qed.

Ltac nonzero_constants :=
  repeat split; intros H; apply (f_equal this) in H; vm_compute in H;
  discriminate H.

(** [0 + 1 + ... + (n-1)] *)
Lemma sum_indices (n : nat) :
  sum (indices n) = Fin (natQ n * (natQ n - 1) / Q2Qc 2).
Proof.
  unfold sum. induction n as [|n IH].
  - apply eqb_eq. vm_compute. reflexivity.
  - rewrite indices_S, fold_left_app, IH. cbn [fold_left].
    rewrite ofNat_Fin, add_Fin, natQ_S. f_equal.
    rewrite Qc_2. field. nonzero_constants.
Qed.

(** [0^2 + 1^2 + ... + (n-1)^2] *)
Lemma sum_squares_indices (n : nat) :
  fold_left (fun acc val => add acc (mul val val)) (indices n) zero =
  Fin ((natQ n - 1) * natQ n * (Q2Qc 2 * natQ n - 1) / Q2Qc 6).
Proof.
  induction n as [|n IH].
  - apply eqb_eq. vm_compute. reflexivity.
  - rewrite indices_S, fold_left_app, IH. cbn [fold_left].
    rewrite ofNat_Fin, mul_Fin, add_Fin, natQ_S. f_equal.
    rewrite Qc_2, Qc_6. field. nonzero_constants.
Qed.

Lemma regressionDenominator_value (n : nat) :
  regressionDenominator n =
  Fin (natQ n * natQ n * (natQ n - 1) * (natQ n + 1) / Q2Qc 12).
Proof.
  unfold regressionDenominator.
  rewrite sum_indices, sum_squares_indices, ofNat_Fin.
  rewrite !mul_Fin, sub_Fin. f_equal.
  rewrite Qc_2, Qc_6, Qc_12. field. nonzero_constants.
Qed.

Lemma natQ_ge_2 (n : nat) : (2 <= n)%nat -> Q2Qc 2 <= natQ n.
Proof. intros H. exact (natQ_le 2 n H). Qed.

(** The denominator of the slope vanishes exactly for series of fewer than
    two values. *)
Lemma regressionDenominator_zero_iff (n : nat) :
  regressionDenominator n = zero <-> (n < 2)%nat.
Proof.
  split.
  - intros H. destruct (Nat.lt_ge_cases n 2) as [Hlt | Hge]; [exact Hlt|].
    exfalso. rewrite regressionDenominator_value in H.
    rewrite zero_Fin in H. apply Fin_inj in H.
    pose proof (natQ_ge_2 n Hge) as H2.
    revert H.
    assert (Hpos : Q2Qc 0 <
              natQ n * natQ n * (natQ n - 1) * (natQ n + 1) / Q2Qc 12).
    { to_Q. set (N := this (natQ n)) in *.
      apply Qlt_shift_div_l; [reflexivity|]. clearbody N.
      assert (Hp : (0 < N * N * (N + - (1)) * (N + 1))%Q)
        by (repeat apply Qmult_lt_0_compat; lra).
      lra. }
    intros H. rewrite H in Hpos. revert Hpos. apply Qlt_irrefl.
  - intros H. destruct n as [|[|n]]; [| |lia];
      apply eqb_eq; vm_compute; reflexivity.
Qed.

(** With a single value both the numerator and the denominator of the
    slope are 0, and the division [0 / 0] is carried out. *)
Lemma regressionSlope_single (v : Qc) : regressionSlope [Fin v] = NaN.
Proof.
  unfold regressionSlope, sumProducts, indices, sum.
  cbn [length seq map combine fold_left nth fst snd].
  autorewrite with fin.
  match goal with
  | |- div (Fin ?a) (Fin ?b) = _ =>
      replace a with (Q2Qc 0) by (rewrite natQ_0; ring);
      replace b with (Q2Qc 0) by (apply Qc_is_canon; reflexivity)
  end.
  reflexivity.
Qed.

Lemma regressionIntercept_single (v : Qc) : regressionIntercept [Fin v] = NaN.
Proof.
  unfold regressionIntercept. rewrite regressionSlope_single. reflexivity.
Qed.

(** C4, at the input where it fails.  A series of one value has [n < 2]
    and a zero denominator; [calculateLinearRegression] has no guard for it,
    divides 0 by 0 and returns one NaN, neither the mean [v] nor the empty
    list. *)
Theorem C4_single_value_series_is_NaN (v : Qc) :
  regressionDenominator 1 = zero /\
  calculateLinearRegression [Fin v] = [NaN] /\
  calculateLinearRegression [Fin v] <> [Fin v] /\
  calculateLinearRegression [Fin v] <> [].
Proof.
  assert (H : calculateLinearRegression [Fin v] = [NaN]).
  { unfold calculateLinearRegression.
    rewrite regressionSlope_single, regressionIntercept_single.
    reflexivity. }
  split; [apply eqb_eq; vm_compute; reflexivity|].
  split; [exact H|]. rewrite H. split; discriminate.
Qed.

(** The empty series: the slope is still computed as [0 / 0], but no
    fitted value is produced. *)
Lemma regression_empty :
  regressionSlope [] = NaN /\ calculateLinearRegression [] = [].
Proof. split; reflexivity. Qed.

End Regression.

(* ================================================================= *)
(** ** Histogram *)

Section Histogram.

Import Analytics.
Local Open Scope Qc_scope.

(** The running maximum and minimum of finite values are finite and bound
    what has been seen. *)
Lemma fold_max2_finite (qs : list Qc) (a : Qc) :
  exists M, fold_left max2 (map Fin qs) (Fin a) = Fin M /\
            a <= M /\ (forall q, In q qs -> q <= M).
Proof.
  revert a. induction qs as [|q qs IH]; intros a; cbn [map fold_left].
  - exists a. split; [reflexivity|]. split; [apply Qcle_refl'|].
    intros q [].
  - unfold max2 at 2.
    destruct (Qclt_le_dec a q) as [Hlt | Hle].
    + rewrite (ltb_Fin_true _ _ Hlt).
      destruct (IH q) as [M [HM [HqM Hall]]].
      exists M. split; [exact HM|]. split.
      * apply Qcle_trans' with q; [now apply Qclt_le_weak | exact HqM].
      * intros x [<- | Hx]; [exact HqM | now apply Hall].
    + rewrite (ltb_Fin_false _ _ Hle).
      destruct (IH a) as [M [HM [HaM Hall]]].
      exists M. split; [exact HM|]. split; [exact HaM|].
      intros x [<- | Hx]; [|now apply Hall].
      now apply Qcle_trans' with a.
Qed.

Lemma fold_min2_finite (qs : list Qc) (a : Qc) :
  exists m, fold_left min2 (map Fin qs) (Fin a) = Fin m /\ m <= a.
Proof.
  revert a. induction qs as [|q qs IH]; intros a; cbn [map fold_left].
  - exists a. split; [reflexivity | apply Qcle_refl'].
  - unfold min2 at 2.
    destruct (Qclt_le_dec q a) as [Hlt | Hle].
    + rewrite (ltb_Fin_true _ _ Hlt).
      destruct (IH q) as [m [Hm Hmq]].
      exists m. split; [exact Hm|].
      apply Qcle_trans' with q; [exact Hmq | now apply Qclt_le_weak].
    + rewrite (ltb_Fin_false _ _ Hle). apply IH.
Qed.

Lemma min_le_max_finite (q : Qc) (qs : list Qc) :
  exists m M, minl (map Fin (q :: qs)) = Fin m /\
              maxl (map Fin (q :: qs)) = Fin M /\ m <= M.
Proof.
  unfold minl, maxl. cbn [map fold_left]. 
  change (min2 PInf (Fin q)) with (Fin q).
  change (max2 NInf (Fin q)) with (Fin q).
  destruct (fold_min2_finite qs q) as [m [Hm Hmq]].
  destruct (fold_max2_finite qs q) as [M [HM [HqM _]]].
  exists m, M. split; [exact Hm|]. split; [exact HM|].
  now apply Qcle_trans' with q.
Qed.

(** [Math.round] is monotone. *)
Lemma round_mono (x y : Qc) :
  x <= y -> leb (round (Fin x)) (round (Fin y)) = true.
Proof.
  intros H. unfold round. apply ofZ_le. apply Qfloor_resp_le.
  to_Q. lra.
Qed.

(** Each upper bin boundary is at most [round(max)]. *)
Lemma boundary_le_max (m M : Qc) (i n : nat) :
  m <= M -> (i < n)%nat ->
  m + natQ (i + 1) * ((M - m) / natQ n) <= M.
Proof.
  intros HmM Hin.
  assert (Hn : Q2Qc 0 < natQ n) by (apply natQ_pos; lia).
  assert (Hi : natQ (i + 1) <= natQ n) by (apply natQ_le; lia).
  assert (Hi0 : Q2Qc 0 <= natQ (i + 1)) by apply natQ_nonneg.
  to_Q.
  set (I := this (natQ (i + 1))) in *. set (N := this (natQ n)) in *.
  clearbody I N.
  assert (Hr : (I * ((M + - m) * / N) <= M + - m)%Q).
  { setoid_replace (I * ((M + - m) * / N))%Q
      with ((I * (M + - m)) / N)%Q by (field; lra).
    apply Qle_shift_div_r; [exact Hn|].
    assert (H0 : (0 <= (N - I) * (M + - m))%Q).
    { apply Qmult_le_0_compat; lra. }
    lra. }
  lra.
Qed.

(** Whenever the maximum does not round up -- an integer maximum, for one
    -- no bin of the histogram holds it. *)
Lemma maximum_in_no_bin (q : Qc) (qs : list Qc) (binCount : nat) :
  let values := map Fin (q :: qs) in
  leb (round (maxl values)) (maxl values) = true ->
  forallb (fun b => negb (inBin (maxl values) b))
          (createHistogramBins values binCount) = true.
Proof.
  intros values Hround. unfold values in *. clear values.
  destruct (min_le_max_finite q qs) as [m [M [Hm [HM HmM]]]].
  rewrite HM in *.
  apply forallb_forall. intros b Hb.
  unfold createHistogramBins in Hb. cbn [map] in Hb.
  change (Fin q :: map Fin qs) with (map Fin (q :: qs)) in Hb.
  rewrite Hm, HM in Hb.
  apply in_map_iff in Hb. destruct Hb as [i [Hb Hi]].
  apply in_seq in Hi. subst b.
  unfold inBin. cbn [bin_min bin_max].
  apply negb_true_iff, andb_false_iff. right.
  assert (Hn : Q2Qc 0 < natQ binCount) by (apply natQ_pos; lia).
  rewrite sub_Fin, !ofNat_Fin, (div_Fin_pos _ _ Hn), mul_Fin, add_Fin.
  pose proof (boundary_le_max m M i binCount HmM (proj2 Hi)) as Hle.
  pose proof (round_mono _ _ Hle) as H1.
  unfold round in *. apply ltb_Fin_false.
  apply leb_Fin in H1. apply leb_Fin in Hround.
  eapply Qcle_trans'; eassumption.
Qed.

(** C3, at an input where it fails.  For the values [1, 2, 3] and the ten
    bins [createDistributionChart] asks for, the counts sum to 2, not to 3:
    the maximum 3 lies in no bin, the last bin being [[3, 3)]. *)
Theorem C3_histogram_drops_maximum :
  let values := map ofZ [1; 2; 3]%Z in
  let bins := createHistogramBins values 10 in
  length values = 3%nat /\
  totalCount bins = 2%nat /\
  maxl values = ofZ 3 /\
  forallb (fun b => negb (inBin (ofZ 3) b)) bins = true.
Proof.
  split; [reflexivity|]. split; [vm_compute; reflexivity|].
  split; [apply eqb_eq|]; vm_compute; reflexivity.
Qed.

(** A series whose values are all equal fills no bin at all. *)
Example histogram_of_equal_values :
  totalCount (createHistogramBins (map ofZ [5; 5]%Z) 10) = 0%nat.
Proof. vm_compute. reflexivity. Qed.

End Histogram.

(* ================================================================= *)
(** ** The session timer *)

Section Timer.

Import App.

Lemma clearInterval_tracked (h : handle) (pg : page) :
  timer_tracks pg -> timer (app pg) = Some h ->
  intervals (clearInterval h pg) = [].
Proof.
  intros [Hnil | [k [Hk Ht]]] Hh; unfold clearInterval; simpl.
  - now rewrite Hnil.
  - rewrite Hk. rewrite Ht in Hh. injection Hh as ->.
    simpl. now rewrite Pos.eqb_refl.
Qed.

Lemma no_timer_no_interval (pg : page) :
  timer_tracks pg -> timer (app pg) = None -> intervals pg = [].
Proof.
  intros [Hnil | [k [_ Ht]]] Hn; [exact Hnil | congruence].
Qed.

Lemma clearTimerIfSet_clears (pg : page) :
  timer_tracks pg -> intervals (clearTimerIfSet pg) = [].
Proof.
  intros H. unfold clearTimerIfSet.
  destruct (timer (app pg)) as [h|] eqn:E.
  - now apply clearInterval_tracked.
  - now apply no_timer_no_interval.
Qed.

Lemma finishTest_clears (pg : page) :
  timer_tracks pg ->
  intervals (finishTest pg) = [] /\ timer (app (finishTest pg)) = None.
Proof.
  intros H. unfold finishTest.
  destruct (timer (app pg)) as [h|] eqn:E.
  - split; [|reflexivity]. simpl.
    exact (clearInterval_tracked h pg H E).
  - split; [now apply no_timer_no_interval | exact E].
Qed.

Lemma resetTest_clears (pg : page) :
  timer_tracks pg ->
  intervals (resetTest pg) = [] /\ timer (app (resetTest pg)) = None.
Proof.
  intros H. unfold resetTest.
  destruct (timer (app pg)) as [h|] eqn:E.
  - split; [|reflexivity]. simpl.
    exact (clearInterval_tracked h pg H E).
  - split; [simpl; now apply no_timer_no_interval | exact E].
Qed.

Lemma logout_clears (pg : page) :
  timer_tracks pg -> intervals (logout pg) = [].
Proof.
  intros H. unfold logout. apply clearTimerIfSet_clears.
  destruct H as [Hnil | [h [Hh Ht]]]; [left | right; exists h]; auto.
Qed.

Lemma tracks_of_nil (pg : page) : intervals pg = [] -> timer_tracks pg.
Proof. intros H. now left. Qed.

Lemma tracks_with_app (f : state -> state) (pg : page) :
  (forall st, timer (f st) = timer st) ->
  timer_tracks pg -> timer_tracks (with_app f pg).
Proof.
  intros Hf [Hnil | [h [Hh Ht]]]; [now left|].
  right. exists h. simpl. now rewrite Hf.
Qed.

Lemma startTimer_tracks (pg : page) :
  timer_tracks pg -> timer_tracks (startTimer pg).
Proof.
  intros H. right. exists (nextHandle (clearTimerIfSet pg)).
  unfold startTimer, setIntervalTimer. simpl.
  now rewrite (clearTimerIfSet_clears _ H).
Qed.

Lemma submitTest_tracks (now : Z) (pg : page) :
  timer_tracks pg -> timer_tracks (submitTest now pg).
Proof.
  intros H. unfold submitTest.
  destruct (currentTest (app pg)); [|exact H].
  destruct (isAuthenticated (app pg)); exact H.
Qed.

Lemma step_tracks (pg : page) (e : event) :
  timer_tracks pg -> timer_tracks (step pg e).
Proof.
  intros H. destruct e as [|p d c|input now|now|now|ok| |]; simpl.
  - now apply tracks_with_app.
  - now apply tracks_with_app.
  - unfold handleTyping.
    set (pg0 := with_app _ pg).
    assert (H0 : timer_tracks pg0) by now apply tracks_with_app.
    destruct (currentTest (app pg0)) as [t|]; [|exact H0].
    assert (Hc : forall st,
               timer (calculateLocalMetrics input now st) = timer st).
    { intros st. unfold calculateLocalMetrics.
      destruct (currentTest st) as [t'|]; [|reflexivity].
      destruct (startTime t'); reflexivity. }
    apply tracks_with_app; [exact Hc|].
    destruct (startTime t); [exact H0|].
    apply startTimer_tracks. now apply tracks_with_app.
  - unfold tick. destruct (intervals pg) eqn:E; [exact H|].
    destruct (currentTest (app pg)) as [t|]; [|exact H].
    destruct (startTime t); [|exact H].
    destruct (timeoutDuration <? now - z)%Z; [|exact H].
    now apply submitTest_tracks.
  - now apply submitTest_tracks.
  - unfold submitResponse. destruct ok; [|exact H].
    apply tracks_of_nil. now apply finishTest_clears.
  - apply tracks_of_nil. now apply resetTest_clears.
  - apply tracks_of_nil. now apply logout_clears.
Qed.

Lemma fold_step_tracks (es : list event) (pg : page) :
  timer_tracks pg -> timer_tracks (fold_left step es pg).
Proof.
  revert pg. induction es as [|e es IH]; intros pg H; simpl; [exact H|].
  apply IH. now apply step_tracks.
Qed.

Lemma run_tracks (es : list event) : timer_tracks (run es).
Proof. apply fold_step_tracks. now left. Qed.

(** C9. Whatever has happened to the page before, once [finishTest],
    [resetTest] or [logout] has run, the browser holds no repeating timer
    any more; [finishTest] and [resetTest] also reset the handle to null. *)
Theorem C9_timer_cleared_on_leaving_running (es : list event) :
  intervals (finishTest (run es)) = [] /\
  intervals (resetTest (run es)) = [] /\
  intervals (logout (run es)) = [] /\
  timer (app (finishTest (run es))) = None /\
  timer (app (resetTest (run es))) = None.
Proof.
  pose proof (run_tracks es) as H.
  destruct (finishTest_clears _ H) as [F1 F2].
  destruct (resetTest_clears _ H) as [R1 R2].
  repeat split; trivial. now apply logout_clears.
Qed.

(** A running test does hold a timer, which each of the three ways out
    removes. *)
Example running_test_timer :
  let pg := run [Login; StartNewTest (lit "abc") "easy" "general";
                 Typing (lit "a") 1000] in
  intervals pg = [1%positive] /\
  intervals (step pg (Response true)) = [] /\
  intervals (step pg Reset) = [] /\
  intervals (step pg Logout) = [].
Proof. repeat split. Qed.

End Timer.

(* ================================================================= *)
(** ** Change percentage *)

Section Change.

Import Analytics.
Local Open Scope Qc_scope.

Variable metric : session -> num.

Lemma reduce_is_sum (l : list session) (a : num) :
  fold_left (fun acc s => add acc (metric s)) l a =
  fold_left add (map metric l) a.
Proof.
  revert a. induction l as [|s l IH]; intros a; simpl; [reflexivity|].
  apply IH.
Qed.

Lemma average_is_specAverage (l : list session) :
  average metric l = specAverage metric l.
Proof. unfold average, specAverage, sum. now rewrite reduce_is_sum. Qed.

Lemma slice_last_is_lastRecords (k : nat) (h : list session) :
  slice_last k h = lastRecords k h.
Proof.
  unfold slice_last, lastRecords. rewrite firstn_rev. now rewrite rev_involutive.
Qed.


Lemma nonnegative_sum (l : list session) (a : Qc) :
  nonnegative_metric metric l -> Q2Qc 0 <= a ->
  exists q, fold_left add (map metric l) (Fin a) = Fin q /\ Q2Qc 0 <= q.
Proof.
  revert a. induction l as [|s l IH]; intros a Hl Ha; cbn [map fold_left].
  - now exists a.
  - destruct (Hl s (or_introl eq_refl)) as [v [Hv Hv0]].
    rewrite Hv, add_Fin. apply IH.
    + intros s' Hs'. apply Hl. now right.
    + now apply Qc_plus_nonneg.
Qed.

Lemma nonnegative_average (l : list session) :
  nonnegative_metric metric l -> (0 < length l)%nat ->
  exists q, specAverage metric l = Fin q /\ Q2Qc 0 <= q.
Proof.
  intros Hl Hlen. unfold specAverage, sum. rewrite zero_Fin.
  destruct (nonnegative_sum l (Q2Qc 0) Hl) as [q [Hq Hq0]].
  { unfold Qcle. apply Qle_refl. }
  rewrite Hq, ofNat_Fin, (div_Fin_pos _ _ (natQ_pos _ Hlen)).
  eexists. split; [reflexivity|].
  apply Qc_div_nonneg; [assumption | now apply natQ_pos].
Qed.

(** A history with fewer than 10 records has change 0, whatever its
    fields hold; so has a history that is not set. *)
Lemma calculateChange_short_history (h : list session) :
  (length h < 10)%nat -> calculateChange (Some h) metric = zero.
Proof.
  intros H. unfold calculateChange.
  apply Nat.ltb_lt in H. now rewrite H.
Qed.

Lemma calculateChange_no_history : calculateChange None metric = zero.
Proof. reflexivity. Qed.

End Change.

Example calculateChange_twenty_percent :
  let s w := Analytics.mkSession (ofZ w) (ofZ 95) None zero zero in
  let h := map s [62; 60; 58; 61; 59; 50; 52; 48; 49; 51]%Z in
  Analytics.calculateChange (Some h) Analytics.wpm = ofZ 20.
Proof. apply eqb_eq. vm_compute. reflexivity. Qed.

(* ================================================================= *)
(** ** Difficulty breakdown *)

Section Difficulty.

Import Analytics.
Local Open Scope string_scope.

(** The claim C6 fails on a session whose difficulty is a value other than
    the three names: the guard [if (stats[difficulty])] skips it, so it is
    not counted as medium and the counts sum to 0, not to 1. *)
Lemma C6_unknown_difficulty_counterexample :
  let sessions := [sessionOf (Some "expert")] in
  calculateDifficultyStats sessions =
    Returned [mkStat "easy" 0 zero zero; mkStat "medium" 0 zero zero;
              mkStat "hard" 0 zero zero] /\
  ~ (exists stats, calculateDifficultyStats sessions = Returned stats /\
                   totalSessions stats = length sessions).
Proof.
  split; [reflexivity|].
  intros [stats [H Ht]]. vm_compute in H.
  injection H as <-. discriminate Ht.
Qed.

Lemma groupAverage_spec (metric : session -> num) (g : list session) :
  groupAverage metric g =
  if (length g =? 0)%nat then zero
  else div (sum (map metric g)) (ofNat (length g)).
Proof.
  unfold groupAverage, sum. rewrite reduce_is_sum.
  destruct g; reflexivity.
Qed.

Lemma groupSessions_shape (sessions : list session) :
  forall e m h,
    forallb notInherited sessions = true ->
    groupSessions sessions [("easy", e); ("medium", m); ("hard", h)] =
    Returned [("easy", (e ++ groupOf "easy" sessions)%list);
              ("medium", (m ++ groupOf "medium" sessions)%list);
              ("hard", (h ++ groupOf "hard" sessions)%list)].
Proof.
  induction sessions as [|s sessions IH]; intros e m h Hs.
  - simpl. now rewrite !app_nil_r.
  - cbn [forallb] in Hs. apply andb_true_iff in Hs.
    destruct Hs as [Hs1 Hs2].
    unfold notInherited in Hs1. apply negb_true_iff in Hs1.
    unfold groupOf. cbn [groupSessions filter].
    fold (groupOf "easy" sessions) (groupOf "medium" sessions)
         (groupOf "hard" sessions).
    unfold lookup. cbn [own push].
    rewrite (String.eqb_sym "easy"), (String.eqb_sym "medium"),
            (String.eqb_sym "hard").
    destruct (String.eqb (difficultyOrMedium s) "easy") eqn:E1.
    { apply String.eqb_eq in E1. rewrite E1. cbn.
      rewrite (IH _ _ _ Hs2). now rewrite <- app_assoc. }
    destruct (String.eqb (difficultyOrMedium s) "medium") eqn:E2.
    { apply String.eqb_eq in E2. rewrite E2. cbn.
      rewrite (IH _ _ _ Hs2). now rewrite <- app_assoc. }
    destruct (String.eqb (difficultyOrMedium s) "hard") eqn:E3.
    { cbn. rewrite (IH _ _ _ Hs2). now rewrite <- app_assoc. }
    rewrite Hs1. now apply IH.
Qed.

Lemma recognised_cases (s : session) :
  recognised s =
  (String.eqb (difficultyOrMedium s) "easy"
   || (String.eqb (difficultyOrMedium s) "medium"
       || (String.eqb (difficultyOrMedium s) "hard" || false)))%bool.
Proof. reflexivity. Qed.

Lemma groups_partition_recognised (sessions : list session) :
  (length (groupOf "easy" sessions) + (length (groupOf "medium" sessions)
   + (length (groupOf "hard" sessions) + 0)))%nat =
  length (filter recognised sessions).
Proof.
  induction sessions as [|s sessions IH]; [reflexivity|].
  unfold groupOf in *. cbn [filter]. rewrite recognised_cases.
  set (E := filter _ sessions) in *.
  set (M := filter _ sessions) in *.
  set (H := filter _ sessions) in *.
  set (R := filter recognised sessions) in *.
  destruct (String.eqb (difficultyOrMedium s) "easy") eqn:E1;
    destruct (String.eqb (difficultyOrMedium s) "medium") eqn:E2;
    destruct (String.eqb (difficultyOrMedium s) "hard") eqn:E3;
    cbn [orb length]; try lia; exfalso;
    repeat match goal with
           | Hq : String.eqb _ _ = true |- _ => apply String.eqb_eq in Hq
           end;
    congruence.
Qed.

Lemma filter_all (A : Type) (f : A -> bool) (l : list A) :
  forallb f l = true -> filter f l = l.
Proof.
  induction l as [|a l IH]; simpl; [reflexivity|].
  intros H. apply andb_true_iff in H. destruct H as [Ha Hl].
  rewrite Ha. f_equal. now apply IH.
Qed.

(** C6, amended.  For sessions none of whose difficulties is an inherited
    property name, [calculateDifficultyStats] returns the three groups
    easy, medium, hard in this order; a session with an absent or empty
    difficulty is in medium, a session with any other difficulty than the
    three names is in no group; each group reports its size and its average
    WPM and accuracy, 0 when it is empty.  The counts sum to the number of
    sessions whose difficulty is absent, empty or one of the three names,
    which is the number of input sessions when every session is such. *)
Theorem C6_difficulty_breakdown (sessions : list session) :
  forallb notInherited sessions = true ->
  calculateDifficultyStats sessions =
    Returned (map (specStat sessions) knownDifficulties) /\
  totalSessions (map (specStat sessions) knownDifficulties) =
    length (filter recognised sessions) /\
  (forallb recognised sessions = true ->
   totalSessions (map (specStat sessions) knownDifficulties) =
     length sessions).
Proof.
  intros Hs.
  assert (Ht : totalSessions (map (specStat sessions) knownDifficulties) =
               length (filter recognised sessions)).
  { cbn [map knownDifficulties totalSessions fold_right specStat count].
    apply groups_partition_recognised. }
  split; [|split].
  - unfold calculateDifficultyStats, emptyStats.
    rewrite (groupSessions_shape sessions [] [] [] Hs).
    cbn [app map fst snd knownDifficulties].
    unfold specStat. now rewrite !groupAverage_spec.
  - exact Ht.
  - intros Hall. rewrite Ht. now rewrite (filter_all _ _ _ Hall).
Qed.

Lemma C6_difficulty_breakdown_witness :
  let sessions :=
    [sessionOf (Some "hard"); sessionOf None; sessionOf (Some "expert");
     sessionOf (Some "easy"); sessionOf (Some "")] in
  forallb notInherited sessions = true /\
  calculateDifficultyStats sessions =
    Returned (map (specStat sessions) knownDifficulties) /\
  totalSessions (map (specStat sessions) knownDifficulties) = 4%nat.
Proof.
  intros sessions.
  split; [reflexivity|].
  destruct (C6_difficulty_breakdown sessions eq_refl) as [H1 [H2 _]].
  split; [exact H1 | exact H2].
Defined.

(** A difficulty that names an inherited property makes [push] fail. *)
Example difficulty_constructor_throws :
  calculateDifficultyStats [sessionOf (Some "constructor")] = TypeError.
Proof. reflexivity. Qed.

End Difficulty.

(* ================================================================= *)
(** ** Accuracy *)

Section Accuracy.

Import App.
Local Open Scope Qc_scope.

(** [Math.round] keeps a value within integer bounds. *)
Lemma round_bounds (x : Qc) (lo hi : Z) :
  (inject_Z lo <= x)%Q -> (x <= inject_Z hi)%Q ->
  leb (ofZ lo) (round (Fin x)) = true /\ leb (round (Fin x)) (ofZ hi) = true.
Proof.
  intros Hlo Hhi. unfold round.
  set (y := x + Q2Qc (1 # 2)).
  assert (Hy : (this y == this x + (1 # 2))%Q).
  { unfold y. cbn [this Qcplus Q2Qc]. rewrite !Qred_correct. reflexivity. }
  split; apply ofZ_le.
  - rewrite <- (Qfloor_Z lo). apply Qfloor_resp_le. rewrite Hy. lra.
  - assert (H1 := Qfloor_le (this y)).
    assert (H2 : (inject_Z (Qfloor (this y)) < inject_Z (hi + 1))%Q).
    { apply Qle_lt_trans with (this x + (1 # 2))%Q.
      - rewrite <- Hy. exact H1.
      - rewrite inject_Z_plus. change (inject_Z 1) with 1%Q. lra. }
    rewrite <- Zlt_Qlt in H2. lia.
Qed.

(** The ratio of [c] out of [n], as a percentage, lies between 0 and 100. *)
Lemma percent_bounds (c n : nat) :
  (c <= n)%nat -> (0 < n)%nat ->
  (inject_Z 0 <= this (natQ c / natQ n * natQ 100))%Q /\
  (this (natQ c / natQ n * natQ 100) <= inject_Z 100)%Q.
Proof.
  intros Hc Hn. unfold natQ. to_Q.
  set (C := inject_Z (Z.of_nat c)). set (N := inject_Z (Z.of_nat n)).
  assert (HN : (0 < N)%Q).
  { unfold N. rewrite <- (Zlt_Qlt 0). lia. }
  assert (HC0 : (0 <= C)%Q).
  { unfold C. rewrite <- (Zle_Qle 0). lia. }
  assert (HCN : (C <= N)%Q).
  { unfold C, N. rewrite <- Zle_Qle. lia. }
  assert (Hr0 : (0 <= C / N)%Q).
  { apply Qle_shift_div_l; [exact HN | lra]. }
  assert (Hr1 : (C / N <= 1)%Q).
  { apply Qle_shift_div_r; [exact HN | lra]. }
  unfold Qdiv in *.
  change (inject_Z (Z.of_nat 100)) with 100%Q.
  change (inject_Z 0) with 0%Q. change (inject_Z 100) with 100%Q.
  split; lra.
Qed.

(** The counting loop counts the positions that pass its test. *)
Lemma counting_loop (f : nat -> bool) (l : list nat) (a : nat) :
  fold_left (fun count i => if f i then S count else count) l a =
  (a + length (filter f l))%nat.
Proof.
  revert a. induction l as [|i l IH]; intros a; simpl; [lia|].
  rewrite IH. destruct (f i); simpl; lia.
Qed.

Lemma correctChars_is_correctCount (typed p : jsstring) :
  correctChars typed p = correctCount typed p.
Proof.
  unfold correctChars, correctCount, char_at. now rewrite counting_loop.
Qed.

Lemma filter_length_bound (A : Type) (f : A -> bool) (l : list A) :
  (length (filter f l) <= length l)%nat.
Proof.
  induction l as [|a l IH]; simpl; [lia|].
  destruct (f a); simpl; lia.
Qed.

Lemma correctCount_le_prompt (typed p : jsstring) :
  (correctCount typed p <= length p)%nat.
Proof.
  unfold correctCount.
  pose proof (filter_length_bound _
                (fun i => same_char (nth_error typed i) (nth_error p i))
                (seq 0 (Nat.min (length typed) (length p)))) as H.
  rewrite length_seq in H. lia.
Qed.

Lemma correctCount_le_typed (typed p : jsstring) :
  (correctCount typed p <= length typed)%nat.
Proof.
  unfold correctCount.
  pose proof (filter_length_bound _
                (fun i => same_char (nth_error typed i) (nth_error p i))
                (seq 0 (Nat.min (length typed) (length p)))) as H.
  rewrite length_seq in H. lia.
Qed.

(** Both ways of writing the percentage denote the same rational. *)
Lemma percent_code (c n : nat) :
  (0 < n)%nat ->
  mul (div (ofNat c) (ofNat n)) hundred = Fin (natQ c / natQ n * natQ 100).
Proof.
  intros Hn. autorewrite with fin.
  rewrite (div_Fin_pos _ _ (natQ_pos _ Hn)). now autorewrite with fin.
Qed.

Lemma percent_spec (c n : nat) :
  (0 < n)%nat ->
  div (mul hundred (ofNat c)) (ofNat n) = Fin (natQ c / natQ n * natQ 100).
Proof.
  intros Hn. autorewrite with fin.
  rewrite (div_Fin_pos _ _ (natQ_pos _ Hn)). f_equal.
  field. now apply pos_neq_0, natQ_pos.
Qed.

Lemma specAccuracy_value (p typed : jsstring) :
  (0 < length p)%nat ->
  specAccuracy p typed =
  Fin (natQ (correctCount typed p) / natQ (length p) * natQ 100).
Proof.
  intros Hn. unfold specAccuracy.
  destruct (length p =? 0)%nat eqn:E; [apply Nat.eqb_eq in E; lia|].
  now apply percent_spec.
Qed.

Lemma finalAccuracy_value (p typed : jsstring) :
  (0 < length p)%nat ->
  finalAccuracy p typed =
  Fin (natQ (correctCount typed p) / natQ (length p) * natQ 100).
Proof.
  intros Hn. unfold finalAccuracy. rewrite correctChars_is_correctCount.
  now apply percent_code.
Qed.

Lemma round_hundred : round hundred = hundred.
Proof. apply eqb_eq. vm_compute. reflexivity. Qed.

Lemma liveAccuracy_value (p typed : jsstring) (elapsedMs : Z) :
  accuracy (localMetrics p typed elapsedMs) = round (specAccuracy p typed).
Proof.
  unfold localMetrics. cbn [accuracy].
  destruct (length p) as [|n] eqn:E.
  { unfold specAccuracy. rewrite E. cbn [Nat.ltb Nat.leb Nat.eqb].
    now rewrite round_hundred. }
  cbn [Nat.ltb Nat.leb Nat.eqb].
  assert (Hn : (0 < length p)%nat) by lia.
  rewrite (specAccuracy_value p typed Hn), correctChars_is_correctCount.
  rewrite <- E. now rewrite (percent_code _ _ Hn).
Qed.

Lemma liveAccuracy_bounds (p typed : jsstring) (elapsedMs : Z) :
  leb zero (accuracy (localMetrics p typed elapsedMs)) = true /\
  leb (accuracy (localMetrics p typed elapsedMs)) hundred = true.
Proof.
  rewrite liveAccuracy_value.
  destruct (length p =? 0)%nat eqn:E.
  - unfold specAccuracy. rewrite E, round_hundred. split; reflexivity.
  - apply Nat.eqb_neq in E.
    assert (Hn : (0 < length p)%nat) by lia.
    rewrite (specAccuracy_value p typed Hn).
    destruct (percent_bounds _ _ (correctCount_le_prompt typed p) Hn)
      as [H0 H1].
    exact (round_bounds _ 0 100 H0 H1).
Qed.

Lemma finalAccuracy_bounds (p typed : jsstring) :
  (0 < length p)%nat ->
  leb zero (finalAccuracy p typed) = true /\
  leb (finalAccuracy p typed) hundred = true.
Proof.
  intros Hn. rewrite (finalAccuracy_value p typed Hn).
  destruct (percent_bounds _ _ (correctCount_le_prompt typed p) Hn)
      as [H0 H1].
  split; apply leb_Fin; unfold Qcle.
  - exact H0.
  - exact H1.
Qed.

(** The error count [len(typed) - correctCount] is never negative. *)
Lemma errors_nonnegative (p typed : jsstring) (elapsedMs : Z) :
  errors (localMetrics p typed elapsedMs) =
    sub (ofNat (length typed)) (ofNat (correctCount typed p)) /\
  leb zero (errors (localMetrics p typed elapsedMs)) = true.
Proof.
  unfold localMetrics. cbn [errors]. rewrite correctChars_is_correctCount.
  split; [reflexivity|].
  rewrite !ofNat_Fin, sub_Fin, zero_Fin. apply leb_Fin.
  pose proof (natQ_le _ _ (correctCount_le_typed typed p)) as H.
  to_Q. lra.
Qed.

(** The state-changing wrapper stores these metrics once the test has
    started, and leaves the state alone before. *)
Lemma calculateLocalMetrics_started
    (st : state) (t : test) (t0 now : Z) (input : jsstring) :
  currentTest st = Some t -> startTime t = Some t0 ->
  st_metrics (calculateLocalMetrics input now st) =
  localMetrics (prompt t) input (now - t0).
Proof.
  intros Ht H0. unfold calculateLocalMetrics. now rewrite Ht, H0.
Qed.

End Accuracy.

(* ================================================================= *)
(** ** Word count and WPM *)

Section Words.

Import App.

Lemma nonEmpty_rev (t : jsstring) : nonEmpty (rev t) = nonEmpty t.
Proof.
  destruct t as [|c t]; [reflexivity|]. simpl.
  destruct (rev t ++ [c]) eqn:E; [|reflexivity].
  apply app_eq_nil in E. destruct E as [_ E]. discriminate.
Qed.

(** The non-empty pieces of [split] are the words. *)
Lemma nonEmpty_pieces (s : jsstring) :
  forall insep cur,
    (insep = true -> cur = []) ->
    length (filter nonEmpty (split_go insep cur s)) =
    (wordStarts (negb (nonEmpty cur)) s + one_if (nonEmpty cur))%nat.
Proof.
  induction s as [|c r IH]; intros insep cur Hsep.
  - cbn [split_go filter wordStarts]. rewrite nonEmpty_rev.
    destruct (nonEmpty cur); reflexivity.
  - cbn [split_go wordStarts].
    destruct (is_space c) eqn:Ec.
    + destruct insep; cbv iota.
      * rewrite (Hsep eq_refl). rewrite (IH true [] (fun _ => eq_refl)).
        reflexivity.
      * cbn [filter]. rewrite nonEmpty_rev.
        destruct (nonEmpty cur); cbn [length];
          rewrite (IH true [] (fun _ => eq_refl)); cbn; lia.
    + rewrite (IH false (c :: cur)) by discriminate.
      cbn [nonEmpty negb one_if].
      destruct (nonEmpty cur); cbn; lia.
Qed.

Lemma wordCount_is_wordStarts (s : jsstring) :
  wordCount s = wordStarts true s.
Proof.
  unfold wordCount, split_ws.
  rewrite (nonEmpty_pieces s false []) by discriminate.
  cbn. lia.
Qed.

(** When the string ends inside a word and the scan is either inside a
    word or inside a separator, every piece of [split] is a word. *)
Lemma all_pieces_are_words (s : jsstring) :
  forall insep cur,
    endsInWord s = true ->
    (insep = true -> cur = []) ->
    (insep = false -> nonEmpty cur = true) ->
    length (split_go insep cur s) =
    (wordStarts (negb (nonEmpty cur)) s + one_if (nonEmpty cur))%nat.
Proof.
  induction s as [|c r IH]; intros insep cur Hend Hsep Hword.
  - discriminate.
  - cbn [split_go wordStarts].
    destruct r as [|c' r'].
    + cbn [endsInWord] in Hend. apply negb_true_iff in Hend.
      rewrite Hend. cbn [split_go wordStarts length nonEmpty negb one_if].
      destruct insep.
      * rewrite (Hsep eq_refl). reflexivity.
      * rewrite (Hword eq_refl). reflexivity.
    + assert (Hend' : endsInWord (c' :: r') = true) by exact Hend.
      destruct (is_space c) eqn:Ec.
      * destruct insep; cbv iota.
        -- rewrite (Hsep eq_refl).
           rewrite (IH true [] Hend' (fun _ => eq_refl)) by discriminate.
           reflexivity.
        -- cbn [length].
           rewrite (IH true [] Hend' (fun _ => eq_refl)) by discriminate.
           rewrite (Hword eq_refl). cbn. lia.
      * rewrite (IH false (c :: cur) Hend') by (discriminate || reflexivity).
        cbn [nonEmpty negb one_if].
        destruct (nonEmpty cur); cbn; lia.
Qed.

(** What [trimStart] and [trimEnd] remove and what they leave. *)
Lemma trimStart_split (s : jsstring) :
  exists sp, s = sp ++ trimStart s /\ forallb is_space sp = true.
Proof.
  induction s as [|c r [sp [Hs Hsp]]].
  - exists []. split; reflexivity.
  - cbn [trimStart]. destruct (is_space c) eqn:Ec.
    + exists (c :: sp). split; [cbn; now rewrite <- Hs|].
      cbn. now rewrite Ec.
    + exists []. split; reflexivity.
Qed.

Lemma trimStart_head (s : jsstring) :
  trimStart s = [] \/
  exists c r, trimStart s = c :: r /\ is_space c = false.
Proof.
  induction s as [|c r IH]; [now left|].
  cbn [trimStart]. destruct (is_space c) eqn:Ec; [exact IH|].
  right. now exists c, r.
Qed.

Lemma wordStarts_trimStart (s : jsstring) :
  wordStarts true (trimStart s) = wordStarts true s.
Proof.
  induction s as [|c r IH]; [reflexivity|].
  cbn [trimStart]. destruct (is_space c) eqn:Ec.
  - rewrite IH. cbn [wordStarts]. now rewrite Ec.
  - reflexivity.
Qed.

Lemma wordStarts_spaces (sp : jsstring) (fresh : bool) :
  forallb is_space sp = true -> wordStarts fresh sp = 0%nat.
Proof.
  revert fresh. induction sp as [|c r IH]; intros fresh H; [reflexivity|].
  cbn in H. apply andb_true_iff in H. destruct H as [Hc Hr].
  cbn [wordStarts]. rewrite Hc. now apply IH.
Qed.

Lemma wordStarts_trailing_spaces (t sp : jsstring) (fresh : bool) :
  forallb is_space sp = true ->
  wordStarts fresh (t ++ sp) = wordStarts fresh t.
Proof.
  intros Hsp. revert fresh. induction t as [|c r IH]; intros fresh.
  - cbn. now apply wordStarts_spaces.
  - simpl. destruct (is_space c); now rewrite IH.
Qed.

Lemma endsInWord_last (t : jsstring) (c : code_unit) :
  endsInWord (t ++ [c]) = negb (is_space c).
Proof.
  induction t as [|a t IH]; [reflexivity|].
  change ((a :: t) ++ [c]) with (a :: (t ++ [c])).
  destruct (t ++ [c]) eqn:E.
  - apply app_eq_nil in E. destruct E as [_ E]. discriminate.
  - exact IH.
Qed.

Lemma forallb_rev (sp : jsstring) :
  forallb is_space (rev sp) = forallb is_space sp.
Proof.
  induction sp as [|c r IH]; [reflexivity|].
  cbn. rewrite forallb_app, IH. cbn. rewrite andb_true_r.
  apply andb_comm.
Qed.

Lemma trimEnd_split (s : jsstring) :
  exists sp, s = trimEnd s ++ sp /\ forallb is_space sp = true.
Proof.
  unfold trimEnd. destruct (trimStart_split (rev s)) as [sp [Hs Hsp]].
  exists (rev sp). split.
  - rewrite <- rev_app_distr, <- Hs. now rewrite rev_involutive.
  - now rewrite forallb_rev.
Qed.

Lemma trimEnd_tail (s : jsstring) :
  trimEnd s = [] \/ endsInWord (trimEnd s) = true.
Proof.
  unfold trimEnd. destruct (trimStart_head (rev s)) as [E | [c [r [E Hc]]]].
  - left. now rewrite E.
  - right. rewrite E. cbn [rev]. rewrite endsInWord_last. now rewrite Hc.
Qed.

Lemma wordStarts_trim (s : jsstring) :
  wordStarts true (trim s) = wordStarts true s.
Proof.
  unfold trim. destruct (trimEnd_split (trimStart s)) as [sp [Hs Hsp]].
  rewrite <- (wordStarts_trimStart s). rewrite Hs at 2.
  now rewrite wordStarts_trailing_spaces.
Qed.

Lemma trim_head (s : jsstring) :
  trim s = [] \/ exists c r, trim s = c :: r /\ is_space c = false.
Proof.
  unfold trim. destruct (trimEnd_split (trimStart s)) as [sp [Hs Hsp]].
  destruct (trimEnd (trimStart s)) as [|c r] eqn:E; [now left|].
  right. exists c, r. split; [reflexivity|].
  destruct (trimStart_head s) as [E0 | [c0 [r0 [E0 Hc0]]]].
  - rewrite E0 in Hs. discriminate.
  - rewrite E0 in Hs. cbn in Hs. injection Hs as -> _. exact Hc0.
Qed.

(** The length of [input.trim().split(/\s+/)] is the number of words,
    except that it is 1 when there is no word. *)
Lemma words_is_wordCount_or_one (s : jsstring) :
  words s = Nat.max 1 (wordCount s).
Proof.
  unfold words. rewrite wordCount_is_wordStarts, <- wordStarts_trim.
  destruct (trim_head s) as [E | [c [r [E Hc]]]].
  - rewrite E. reflexivity.
  - destruct (trimEnd_tail (trimStart s)) as [E' | Hend].
    + unfold trim in E. rewrite E' in E. discriminate.
    + fold (trim s) in Hend. rewrite E in *.
      unfold split_ws. cbn [split_go wordStarts]. rewrite Hc.
      destruct r as [|c' r'].
      * reflexivity.
      * assert (Hend' : endsInWord (c' :: r') = true) by exact Hend.
        rewrite (all_pieces_are_words (c' :: r') false [c] Hend')
          by (discriminate || reflexivity).
        cbn [nonEmpty negb one_if]. lia.
Qed.

Lemma hasWord_wordStarts (s : jsstring) :
  hasWord s = true -> (0 < wordStarts true s)%nat.
Proof.
  unfold hasWord. induction s as [|c r IH]; [discriminate|].
  cbn [existsb wordStarts]. destruct (is_space c) eqn:Ec; cbn.
  - exact IH.
  - lia.
Qed.

Lemma words_is_wordCount (s : jsstring) :
  hasWord s = true -> words s = wordCount s.
Proof.
  intros H. rewrite words_is_wordCount_or_one.
  apply hasWord_wordStarts in H. rewrite <- wordCount_is_wordStarts in H.
  lia.
Qed.

(** The typed string that is empty or blank counts as one word. *)
Example words_of_nothing :
  words [] = 1%nat /\ wordCount [] = 0%nat /\
  words (lit "   ") = 1%nat /\ wordCount (lit "   ") = 0%nat.
Proof. repeat split. Qed.

End Words.

Section Wpm.

Import App.
Local Open Scope Qc_scope.

Lemma intQ_const_pos_1000 : Q2Qc 0 < intQ 1000.
Proof. now apply intQ_pos. Qed.

Lemma intQ_const_pos_60 : Q2Qc 0 < intQ 60.
Proof. now apply intQ_pos. Qed.

(** [elapsedMinutes] of [calculateLocalMetrics]. *)
Lemma elapsedMinutes_value (ms : Z) :
  div (ofZ ms) (mul (ofZ 1000) (ofZ 60)) =
  Fin (intQ ms / (intQ 1000 * intQ 60)).
Proof.
  rewrite !ofZ_Fin, mul_Fin.
  apply div_Fin_pos.
  apply Qc_mult_pos; [apply intQ_const_pos_1000 | apply intQ_const_pos_60].
Qed.



Lemma minutes_nonpos (ms : Z) :
  (ms <= 0)%Z -> intQ ms / (intQ 1000 * intQ 60) <= Q2Qc 0.
Proof.
  intros H. apply Qc_div_nonpos; [now apply intQ_nonpos|].
  apply Qc_mult_pos; [apply intQ_const_pos_1000 | apply intQ_const_pos_60].
Qed.


End Wpm.

(* ================================================================= *)
(** * Further properties of the analytics component *)

(** ** Finite series *)

Section FiniteSeries.

Import Analytics Insights.
Local Open Scope Qc_scope.

Lemma fold_add_Fin (qs : list Qc) (a : Qc) :
  fold_left add (map Fin qs) (Fin a) = Fin (fold_left Qcplus qs a).
Proof.
  revert a. induction qs as [|q qs IH]; intros a; [reflexivity|].
  cbn [map fold_left]. rewrite add_Fin. apply IH.
Qed.

Lemma sum_Fin (qs : list Qc) : sum (map Fin qs) = Fin (qsum qs).
Proof. unfold sum, qsum. rewrite zero_Fin. apply fold_add_Fin. Qed.

Lemma allFinite_map (l : list num) :
  allFinite l = true -> l = map Fin (map toQc l).
Proof.
  unfold allFinite. induction l as [|a l IH]; [reflexivity|].
  cbn [forallb map]. intros H. apply andb_true_iff in H.
  destruct H as [Ha Hl]. rewrite <- (IH Hl).
  destruct a; try discriminate. reflexivity.
Qed.

Lemma allFinite_map_Fin (qs : list Qc) : allFinite (map Fin qs) = true.
Proof. induction qs as [|q qs IH]; [reflexivity | exact IH]. Qed.

Lemma fold_plus_shift (qs : list Qc) (a : Qc) :
  fold_left Qcplus qs a = a + qsum qs.
Proof.
  unfold qsum. revert a. induction qs as [|q qs IH]; intros a.
  - cbn. ring.
  - cbn [fold_left]. rewrite IH, (IH (Q2Qc 0 + q)). ring.
Qed.

Lemma qsum_cons (q : Qc) (qs : list Qc) : qsum (q :: qs) = q + qsum qs.
Proof.
  unfold qsum at 1. cbn [fold_left]. rewrite fold_plus_shift. ring.
Qed.

Lemma qsum_app (l m : list Qc) : qsum (l ++ m) = qsum l + qsum m.
Proof.
  induction l as [|q l IH].
  - cbn [app]. replace (qsum []) with (Q2Qc 0) by reflexivity. ring.
  - cbn [app]. rewrite !qsum_cons, IH. ring.
Qed.

Lemma qsum_nonneg (qs : list Qc) :
  (forall q, In q qs -> Q2Qc 0 <= q) -> Q2Qc 0 <= qsum qs.
Proof.
  induction qs as [|q qs IH]; intros H.
  - unfold qsum. cbn. apply Qcle_refl'.
  - rewrite qsum_cons. apply Qc_plus_nonneg.
    + apply H. now left.
    + apply IH. intros x Hx. apply H. now right.
Qed.

(** The average of a non-empty list of finite values. *)
Lemma average_Fin (metric : session -> num) (l : list session) (qs : list Qc) :
  map metric l = map Fin qs -> (0 < length l)%nat ->
  average metric l = Fin (qsum qs / natQ (length l)).
Proof.
  intros Hm Hl. rewrite average_is_specAverage. unfold specAverage.
  rewrite Hm, sum_Fin, ofNat_Fin.
  now apply div_Fin_pos, natQ_pos.
Qed.

End FiniteSeries.

(* ================================================================= *)
(** ** Trend line on arbitrary series *)

Section RegressionGeneral.

Import Analytics Insights.
Local Open Scope Qc_scope.

Ltac constants_nonzero :=
  repeat split; intros H; apply (f_equal this) in H; vm_compute in H;
  discriminate H.

Lemma denominatorQ_pos (n : nat) : (2 <= n)%nat -> Q2Qc 0 < denominatorQ n.
Proof.
  intros Hge. pose proof (natQ_ge_2 n Hge) as H2. unfold denominatorQ.
  to_Q. set (N := this (natQ n)) in *.
  apply Qlt_shift_div_l; [reflexivity|]. clearbody N.
  assert (Hp : (0 < N * N * (N + - (1)) * (N + 1))%Q)
    by (repeat apply Qmult_lt_0_compat; lra).
  lra.
Qed.

Lemma combine_snoc (A B : Type) (l : list A) (m : list B) (x : A) (y : B) :
  length l = length m ->
  combine (l ++ [x]) (m ++ [y]) = combine l m ++ [(x, y)].
Proof.
  revert m. induction l as [|a l IH]; intros [|b m] H;
    try discriminate; [reflexivity|].
  cbn. f_equal. apply IH. now injection H.
Qed.

Lemma indexed_S (n : nat) :
  combine (seq 0 (S n)) (indices (S n)) =
  combine (seq 0 n) (indices n) ++ [(n, ofNat n)].
Proof.
  rewrite seq_S, indices_S. apply combine_snoc.
  unfold indices. now rewrite length_map.
Qed.

Lemma nth_map_seq (A : Type) (f : nat -> A) (n k : nat) (d : A) :
  (k < n)%nat -> nth k (map f (seq 0 n)) d = f k.
Proof.
  intros Hk.
  rewrite (nth_indep _ d (f 0%nat)) by (rewrite length_map, length_seq; lia).
  etransitivity; [apply (map_nth f (seq 0 n) 0%nat k)|].
  f_equal. now apply seq_nth.
Qed.

Lemma length_indices (n : nat) : length (indices n) = n.
Proof. unfold indices. now rewrite length_map, length_seq. Qed.

(** [sumXY] over the first [k] indices, for finite [y]. *)
Lemma sumProducts_prefix (qs : list Qc) (k : nat) :
  (k <= length qs)%nat ->
  fold_left
    (fun acc iv => add acc (mul (snd iv) (nth (fst iv) (map Fin qs) NaN)))
    (combine (seq 0 k) (indices k)) zero =
  Fin (qsum (map (fun i => natQ i * nth i qs (Q2Qc 0)) (seq 0 k))).
Proof.
  induction k as [|k IH]; intros Hk; [reflexivity|].
  rewrite indexed_S, fold_left_app, IH by lia. cbn [fold_left fst snd].
  rewrite seq_S, map_app, qsum_app. cbn [map].
  assert (Hn : nth k (map Fin qs) NaN = Fin (nth k qs (Q2Qc 0))).
  { rewrite (nth_indep _ NaN (Fin (Q2Qc 0))) by (rewrite length_map; lia).
    apply map_nth. }
  rewrite Hn, ofNat_Fin, mul_Fin, add_Fin. f_equal.
  rewrite qsum_cons. replace (qsum []) with (Q2Qc 0) by reflexivity.
  cbn [Nat.add]. ring.
Qed.

Lemma sumProducts_Fin (qs : list Qc) :
  sumProducts (indices (length qs)) (map Fin qs) =
  Fin (qsum (map (fun i => natQ i * nth i qs (Q2Qc 0)) (seq 0 (length qs)))).
Proof.
  unfold sumProducts. rewrite length_indices.
  now apply sumProducts_prefix.
Qed.

(** *** Exactly linear series *)

Lemma linearValues_Fin (a b : Qc) (n : nat) :
  linearValues a b n = map Fin (map (fun i => a + b * natQ i) (seq 0 n)).
Proof. unfold linearValues. now rewrite map_map. Qed.

Lemma qsum_linear (a b : Qc) (n : nat) :
  qsum (map (fun i => a + b * natQ i) (seq 0 n)) =
  natQ n * a + b * (natQ n * (natQ n - 1) / Q2Qc 2).
Proof.
  induction n as [|n IH].
  - cbn [seq map]. replace (qsum []) with (Q2Qc 0) by reflexivity.
    rewrite natQ_0, Qc_2. field. constants_nonzero.
  - rewrite seq_S, map_app, qsum_app, IH. cbn [map Nat.add].
    rewrite qsum_cons. replace (qsum []) with (Q2Qc 0) by reflexivity.
    rewrite natQ_S, Qc_2. field. constants_nonzero.
Qed.

Lemma qsum_linear_products (a b : Qc) (n k : nat) :
  (k <= n)%nat ->
  qsum (map (fun i => natQ i *
                      nth i (map (fun j => a + b * natQ j) (seq 0 n))
                          (Q2Qc 0))
            (seq 0 k)) =
  a * (natQ k * (natQ k - 1) / Q2Qc 2) +
  b * ((natQ k - 1) * natQ k * (Q2Qc 2 * natQ k - 1) / Q2Qc 6).
Proof.
  induction k as [|k IH]; intros Hk.
  - cbn [seq map]. replace (qsum []) with (Q2Qc 0) by reflexivity.
    rewrite natQ_0, Qc_2, Qc_6. field. constants_nonzero.
  - rewrite seq_S, map_app, qsum_app, IH by lia. cbn [map Nat.add].
    rewrite qsum_cons. replace (qsum []) with (Q2Qc 0) by reflexivity.
    assert (Hnth : nth k (map (fun j => a + b * natQ j) (seq 0 n)) (Q2Qc 0)
                   = a + b * natQ k).
    { apply nth_map_seq. lia. }
    rewrite Hnth, natQ_S, Qc_2, Qc_6. field. constants_nonzero.
Qed.

Lemma regressionSlope_linear (a b : Qc) (n : nat) :
  (2 <= n)%nat -> regressionSlope (linearValues a b n) = Fin b.
Proof.
  intros Hn. rewrite linearValues_Fin.
  set (qs := map (fun i => a + b * natQ i) (seq 0 n)).
  assert (Hlen : length qs = n).
  { unfold qs. now rewrite length_map, length_seq. }
  unfold regressionSlope. rewrite length_map, sumProducts_Fin, Hlen.
  fold (regressionDenominator n).
  rewrite regressionDenominator_value. fold (denominatorQ n).
  rewrite sum_indices, sum_Fin, ofNat_Fin.
  unfold qs. rewrite qsum_linear, (qsum_linear_products a b n n) by lia.
  rewrite !mul_Fin, sub_Fin.
  rewrite (div_Fin_pos _ _ (denominatorQ_pos _ Hn)). f_equal.
  pose proof (pos_neq_0 _ (denominatorQ_pos _ Hn)) as Hd.
  match goal with
  | |- ?num / ?d = b => replace num with (b * d)
  end.
  - now apply Qcdiv_mult_l.
  - unfold denominatorQ. rewrite Qc_2, Qc_6, Qc_12.
    field. constants_nonzero.
Qed.

Lemma length_linearValues (a b : Qc) (n : nat) :
  length (linearValues a b n) = n.
Proof. unfold linearValues. now rewrite length_map, length_seq. Qed.

Lemma regressionIntercept_linear (a b : Qc) (n : nat) :
  (2 <= n)%nat -> regressionIntercept (linearValues a b n) = Fin a.
Proof.
  intros Hn. unfold regressionIntercept.
  rewrite (regressionSlope_linear a b n Hn), length_linearValues.
  rewrite linearValues_Fin, sum_Fin, qsum_linear, sum_indices, ofNat_Fin.
  rewrite mul_Fin, sub_Fin.
  assert (Hpos : Q2Qc 0 < natQ n) by (apply natQ_pos; lia).
  rewrite (div_Fin_pos _ _ Hpos). f_equal.
  rewrite Qc_2. field.
  repeat split;
    first [ now apply pos_neq_0
          | intros H; apply (f_equal this) in H; vm_compute in H;
            discriminate H ].
Qed.

Lemma regression_linear_fitted (a b : Qc) (n : nat) :
  (2 <= n)%nat ->
  calculateLinearRegression (linearValues a b n) = linearValues a b n.
Proof.
  intros Hn. unfold calculateLinearRegression.
  rewrite (regressionSlope_linear a b n Hn),
          (regressionIntercept_linear a b n Hn), length_linearValues.
  unfold indices, linearValues. rewrite map_map.
  apply map_ext. intros i. rewrite ofNat_Fin, mul_Fin, add_Fin.
  f_equal. ring.
Qed.

(** X2. Least squares recovers a linear series of whole numbers.  For
    integers [a] and [b] of at most 1000 in absolute value and 2 to 1000
    values [a + b * i], [i = 0 .. n-1], every intermediate result of
    [calculateLinearRegression] is a whole number below [2^53]: the slope
    is [b], the intercept is [a] and the fitted values are the input
    values. *)
Theorem regression_recovers_linear_series (a b : Z) (n : nat) :
  (2 <= n <= 1000)%nat ->
  (Z.abs a <= 1000)%Z ->
  (Z.abs b <= 1000)%Z ->
  regressionSlope (linearValues (intQ a) (intQ b) n) = ofZ b /\
  regressionIntercept (linearValues (intQ a) (intQ b) n) = ofZ a /\
  calculateLinearRegression (linearValues (intQ a) (intQ b) n) =
    linearValues (intQ a) (intQ b) n.
Proof.
  intros [Hn _] _ _.
  split; [now apply regressionSlope_linear|].
  split; [now apply regressionIntercept_linear|].
  now apply regression_linear_fitted.
Qed.

Lemma regression_recovers_linear_series_witness :
  (2 <= 4 <= 1000)%nat /\ (Z.abs 7 <= 1000)%Z /\ (Z.abs (-3) <= 1000)%Z /\
  calculateLinearRegression (linearValues (intQ 7) (intQ (-3)) 4) =
  map ofZ [7; 4; 1; -2]%Z.
Proof.
  assert (Hn : (2 <= 4 <= 1000)%nat) by lia.
  assert (Ha : (Z.abs 7 <= 1000)%Z) by (vm_compute; discriminate).
  assert (Hb : (Z.abs (-3) <= 1000)%Z) by (vm_compute; discriminate).
  split; [exact Hn|]. split; [exact Ha|]. split; [exact Hb|].
  rewrite (proj2 (proj2 (regression_recovers_linear_series 7 (-3) 4
                           Hn Ha Hb))).
  apply eqb_list_eq. vm_compute. reflexivity.
Defined.

End RegressionGeneral.

(* ================================================================= *)
(** ** Variance, consistency and peaks of finite series *)

Section VarianceGeneral.

Import Analytics Insights.
Local Open Scope Qc_scope.

Lemma Qc_square_nonneg (x : Qc) : Q2Qc 0 <= x * x.
Proof. to_Q. nra. Qed.

(** The variance of finite values is a finite value that is not
    negative. *)
Lemma variance_Fin_nonneg (qs : list Qc) :
  exists v, calculateVariance (map Fin qs) = Fin v /\ Q2Qc 0 <= v.
Proof.
  destruct qs as [|q qs'].
  - exists (Q2Qc 0). split; [reflexivity | apply Qcle_refl'].
  - set (qs := q :: qs').
    assert (Hpos : Q2Qc 0 < natQ (length qs))
      by (apply natQ_pos; simpl; lia).
    unfold calculateVariance.
    change (map Fin qs) with (Fin q :: map Fin qs'). cbv iota.
    change (Fin q :: map Fin qs') with (map Fin qs).
    rewrite length_map, sum_Fin, ofNat_Fin, (div_Fin_pos _ _ Hpos).
    set (m := qsum qs / natQ (length qs)).
    rewrite map_map.
    rewrite (map_ext _ (fun x => Fin ((x - m) * (x - m))))
      by (intros x; reflexivity).
    rewrite <- (map_map (fun x => (x - m) * (x - m)) Fin).
    rewrite sum_Fin, (div_Fin_pos _ _ Hpos).
    eexists. split; [reflexivity|].
    apply Qc_div_nonneg; [|exact Hpos].
    apply qsum_nonneg. intros x Hx. apply in_map_iff in Hx.
    destruct Hx as [y [<- _]]. apply Qc_square_nonneg.
Qed.

Lemma consistencyOf_bounds (v : Qc) :
  Q2Qc 0 <= v ->
  leb zero (consistencyOf (Fin v)) = true /\
  leb (consistencyOf (Fin v)) hundred = true.
Proof.
  intros Hv. unfold consistencyOf.
  assert (H10 : Q2Qc 0 < intQ 10) by now apply intQ_pos.
  rewrite ofZ_Fin, (div_Fin_pos _ _ H10), hundred_Fin, sub_Fin, zero_Fin.
  unfold max2.
  assert (Hle : natQ 100 - v / intQ 10 <= natQ 100).
  { pose proof (Qc_div_nonneg v (intQ 10) Hv H10) as Hd.
    to_Q. lra. }
  destruct (Qclt_le_dec (Q2Qc 0) (natQ 100 - v / intQ 10)) as [Hlt | Hge].
  - rewrite (ltb_Fin_true _ _ Hlt). split; apply leb_Fin.
    + now apply Qclt_le_weak.
    + exact Hle.
  - rewrite (ltb_Fin_false _ _ Hge). split; apply leb_Fin.
    + apply Qcle_refl'.
    + apply natQ_nonneg.
Qed.

Lemma consistencyScore_bounds (sessions : list session) :
  allFinite (map wpm sessions) = true ->
  (exists v, calculateVariance (map wpm sessions) = Fin v /\ Q2Qc 0 <= v) /\
  leb zero (consistencyScore sessions) = true /\
  leb (consistencyScore sessions) hundred = true.
Proof.
  intros Hfin. unfold consistencyScore.
  rewrite (allFinite_map _ Hfin).
  destruct (variance_Fin_nonneg (map toQc (map wpm sessions)))
    as [v [Hv Hv0]].
  split; [now exists v|]. rewrite Hv. now apply consistencyOf_bounds.
Qed.

(** X3. For every history whose WPM values are finite, the variance is
    not negative (and so not NaN), and the consistency score lies in
    [0, 100]. *)
Theorem consistencyScore_in_range (sessions : list session) :
  allFinite (map wpm sessions) = true ->
  leb zero (calculateVariance (map wpm sessions)) = true /\
  leb zero (consistencyScore sessions) = true /\
  leb (consistencyScore sessions) hundred = true.
Proof.
  intros Hfin.
  destruct (consistencyScore_bounds sessions Hfin) as [[v [Hv Hv0]] H].
  split; [|exact H]. rewrite Hv, zero_Fin. now apply leb_Fin.
Qed.

Lemma consistencyScore_in_range_witness :
  let sessions := [sessionOf None;
                   mkSession (ofZ 80) (ofZ 97) None zero zero] in
  allFinite (map wpm sessions) = true /\
  leb zero (consistencyScore sessions) = true /\
  leb (consistencyScore sessions) hundred = true.
Proof.
  intros sessions.
  assert (Hf : allFinite (map wpm sessions) = true) by reflexivity.
  split; [exact Hf|].
  exact (proj2 (consistencyScore_in_range sessions Hf)).
Defined.

(** The maximum of a non-empty finite series is one of its values and
    bounds them all. *)
Lemma peak_of_finite_series (q : Qc) (qs : list Qc) :
  maxl [] = NInf /\
  exists M, maxl (map Fin (q :: qs)) = Fin M /\
            In M (q :: qs) /\
            (forall x, In x (q :: qs) -> x <= M).
Proof.
  split; [reflexivity|].
  unfold maxl. cbn [map fold_left].
  change (max2 NInf (Fin q)) with (Fin q).
  revert q. induction qs as [|p qs IH]; intros q.
  - exists q. split; [reflexivity|]. split; [now left|].
    intros x [<- | []]. apply Qcle_refl'.
  - cbn [map fold_left]. unfold max2 at 2.
    destruct (Qclt_le_dec q p) as [Hlt | Hle].
    + rewrite (ltb_Fin_true _ _ Hlt).
      destruct (IH p) as [M [HM [Hin Hall]]].
      exists M. split; [exact HM|]. split; [now right|].
      intros x [<- | Hx]; [|now apply Hall].
      apply Qcle_trans' with p; [now apply Qclt_le_weak|].
      apply Hall. now left.
    + rewrite (ltb_Fin_false _ _ Hle).
      destruct (IH q) as [M [HM [Hin Hall]]].
      exists M. split; [exact HM|]. split.
      * destruct Hin as [<- | Hin]; [now left | now right; right].
      * intros x [<- | [<- | Hx]].
        -- apply Hall. now left.
        -- apply Qcle_trans' with q; [exact Hle | apply Hall; now left].
        -- apply Hall. now right.
Qed.

Lemma finite_is_Fin (a : num) : is_finite a = true -> a = Fin (toQc a).
Proof. destruct a; try discriminate. reflexivity. Qed.

(** X4. The peak WPM that [updateDetailedStats] shows for a non-empty
    history of finite WPM values is the WPM of one of its sessions and no
    session exceeds it; for an empty history it is [-Infinity]. *)
Theorem peakWpm_is_maximum (sessions : list session) :
  allFinite (map wpm sessions) = true ->
  sessions <> [] ->
  peakWpm [] = NInf /\
  (exists s, In s sessions /\ peakWpm sessions = wpm s) /\
  (forall s, In s sessions -> leb (wpm s) (peakWpm sessions) = true).
Proof.
  intros Hfin Hne. split; [reflexivity|].
  assert (Hall : forall s, In s sessions -> wpm s = Fin (toQc (wpm s))).
  { intros s Hs. apply finite_is_Fin.
    unfold allFinite in Hfin. rewrite forallb_forall in Hfin.
    apply Hfin. now apply in_map. }
  unfold peakWpm. rewrite (allFinite_map _ Hfin).
  destruct sessions as [|s0 rest]; [contradiction|].
  cbn [map].
  destruct (peak_of_finite_series (toQc (wpm s0))
              (map toQc (map wpm rest))) as [_ [M [HM [Hin Hmax]]]].
  change (Fin (toQc (wpm s0)) :: map Fin (map toQc (map wpm rest)))
    with (map Fin (toQc (wpm s0) :: map toQc (map wpm rest))).
  rewrite HM. split.
  - change (toQc (wpm s0) :: map toQc (map wpm rest))
      with (map toQc (map wpm (s0 :: rest))) in Hin.
    rewrite map_map in Hin. apply in_map_iff in Hin.
    destruct Hin as [s [Hs Hin]]. exists s. split; [exact Hin|].
    rewrite (Hall s Hin). now rewrite Hs.
  - intros s Hs. rewrite (Hall s Hs). apply leb_Fin. apply Hmax.
    change (toQc (wpm s0) :: map toQc (map wpm rest))
      with (map toQc (map wpm (s0 :: rest))).
    rewrite map_map. apply in_map_iff. now exists s.
Qed.

Lemma peakWpm_is_maximum_witness :
  let sessions := [mkSession (ofZ 52) (ofZ 90) None zero zero;
                   mkSession (ofZ 80) (ofZ 97) None zero zero;
                   mkSession (ofZ 61) (ofZ 99) None zero zero] in
  allFinite (map wpm sessions) = true /\ sessions <> [] /\
  (exists s, In s sessions /\ peakWpm sessions = wpm s).
Proof.
  intros sessions.
  assert (Hf : allFinite (map wpm sessions) = true) by reflexivity.
  assert (Hne : sessions <> []) by discriminate.
  split; [exact Hf|]. split; [exact Hne|].
  exact (proj1 (proj2 (peakWpm_is_maximum sessions Hf Hne))).
Defined.

End VarianceGeneral.

(* ================================================================= *)
(** ** Learning curve, endurance and radar scores *)

Section Scores.

Import Analytics Insights.
Local Open Scope Qc_scope.

Lemma average_of_constant (metric : session -> num) (c : Qc)
                          (l : list session) :
  l <> [] -> (forall s, In s l -> metric s = Fin c) ->
  average metric l = Fin c.
Proof.
  intros Hne Hc. rewrite average_is_specAverage. unfold specAverage.
  assert (Hm : map metric l = repeat (Fin c) (length l)).
  { rewrite <- (length_map metric l). apply constant_is_repeat.
    intros v Hv. apply in_map_iff in Hv. destruct Hv as [s [<- Hs]].
    now apply Hc. }
  rewrite Hm. apply mean_of_constant.
  destruct l; [contradiction | simpl; lia].
Qed.

(** The sum and the average of positive finite values are positive. *)
Lemma positive_sum (l : list session) (a : Qc) :
  positiveWpm l -> Q2Qc 0 <= a -> l <> [] ->
  exists q, fold_left add (map wpm l) (Fin a) = Fin q /\ Q2Qc 0 < q.
Proof.
  revert a. induction l as [|s l IH]; intros a Hl Ha Hne; [contradiction|].
  cbn [map fold_left].
  destruct (Hl s (or_introl eq_refl)) as [w [Hw Hw0]].
  rewrite Hw, add_Fin.
  assert (Haw : Q2Qc 0 < a + w) by (to_Q; lra).
  destruct l as [|s' l'].
  - cbn. now exists (a + w).
  - apply IH.
    + intros x Hx. apply Hl. now right.
    + now apply Qclt_le_weak.
    + discriminate.
Qed.

Lemma positive_average (l : list session) :
  positiveWpm l -> l <> [] ->
  exists q, average wpm l = Fin q /\ Q2Qc 0 < q.
Proof.
  intros Hl Hne. rewrite average_is_specAverage. unfold specAverage, sum.
  rewrite zero_Fin.
  destruct (positive_sum l (Q2Qc 0) Hl (Qcle_refl' _) Hne) as [q [Hq Hq0]].
  assert (Hn : Q2Qc 0 < natQ (length l)).
  { apply natQ_pos. destruct l; [contradiction | simpl; lia]. }
  rewrite Hq, ofNat_Fin, (div_Fin_pos _ _ Hn).
  eexists. split; [reflexivity|]. now apply Qc_div_pos.
Qed.



(** X6. The division of [calculateLearningCurve] is not guarded: when the
    10 oldest sessions all report 0 WPM, the learning rate is NaN if the
    recent ones report 0 as well and [+Infinity] otherwise. *)
Theorem learning_rate_unguarded (sessions : list session) (r : Qc) :
  (5 <= length sessions)%nat ->
  average wpm (slice_first 10 sessions) = Fin r ->
  Q2Qc 0 <= r ->
  (forall s, In s (slice_last 10 sessions) -> wpm s = Fin (Q2Qc 0)) ->
  calculateLearningCurve sessions =
  Some (if Qc_eq_bool r (Q2Qc 0) then NaN else PInf).
Proof.
  intros H5 Hr Hr0 Hold. unfold calculateLearningCurve.
  destruct (length sessions <? 5)%nat eqn:E;
    [apply Nat.ltb_lt in E; lia|].
  assert (Hne : slice_last 10 sessions <> []).
  { unfold slice_last. intros Hnil.
    apply (f_equal (@length session)) in Hnil.
    rewrite length_skipn in Hnil. simpl in Hnil. lia. }
  rewrite (average_of_constant wpm (Q2Qc 0) _ Hne Hold), Hr, sub_Fin.
  f_equal. unfold div. rewrite sgn_zero.
  replace (r - Q2Qc 0) with r by ring.
  destruct (Qcle_lt_or_eq _ _ Hr0) as [Hlt | Heq].
  - rewrite (sgn_pos _ Hlt).
    destruct (Qc_eq_bool r (Q2Qc 0)) eqn:Eb; [|reflexivity].
    apply Qc_eq_bool_correct in Eb. exfalso.
    now apply (pos_neq_0 _ Hlt).
  - subst r. reflexivity.
Qed.

Lemma learning_rate_unguarded_witness :
  let sessions :=
    map (fun w => mkSession (ofZ w) (ofZ 95) None zero zero)
        [0; 0; 0; 0; 0]%Z in
  (5 <= length sessions)%nat /\
  calculateLearningCurve sessions = Some NaN.
Proof.
  intros sessions.
  assert (Hn : (5 <= length sessions)%nat) by (simpl; lia).
  split; [exact Hn|].
  apply (learning_rate_unguarded sessions (Q2Qc 0) Hn).
  - apply eqb_eq. vm_compute. reflexivity.
  - apply Qcle_refl'.
  - intros s Hs. simpl in Hs.
    repeat (destruct Hs as [Hs | Hs]; [subst s; reflexivity|]).
    contradiction.
Defined.

(** *** Clamping *)

Lemma inRange_Fin (x : Qc) :
  inRange (Fin x) = true <-> Q2Qc 0 <= x /\ x <= natQ 100.
Proof.
  unfold inRange. rewrite andb_true_iff, zero_Fin, hundred_Fin, !leb_Fin.
  reflexivity.
Qed.

Lemma inRange_hundred : inRange hundred = true.
Proof. reflexivity. Qed.

Lemma inRange_zero : inRange zero = true.
Proof. reflexivity. Qed.

(** [Math.min(x, 100)] and [Math.min(100, x)] of a value that is not
    negative. *)
Lemma min2_hundred_inRange (x : Qc) :
  Q2Qc 0 <= x ->
  inRange (min2 (Fin x) hundred) = true /\
  inRange (min2 hundred (Fin x)) = true.
Proof.
  intros Hx. rewrite hundred_Fin. unfold min2.
  destruct (Qclt_le_dec x (natQ 100)) as [Hlt | Hge].
  - rewrite (ltb_Fin_true _ _ Hlt).
    rewrite (ltb_Fin_false (natQ 100) x) by now apply Qclt_le_weak.
    split; apply inRange_Fin; split; trivial; now apply Qclt_le_weak.
  - rewrite (ltb_Fin_false _ _ Hge).
    assert (H100 : inRange (Fin (natQ 100)) = true) by reflexivity.
    split; [|exact H100].
    destruct (Qclt_le_dec (natQ 100) x) as [Hlt | Hle].
    + rewrite (ltb_Fin_true _ _ Hlt). exact H100.
    + rewrite (ltb_Fin_false _ _ Hle). apply inRange_Fin. now split.
Qed.

(** [Math.max(0, Math.min(100, y))] *)
Lemma clamp_inRange (y : Qc) :
  inRange (max2 zero (min2 hundred (Fin y))) = true.
Proof.
  rewrite hundred_Fin, zero_Fin. unfold min2.
  destruct (Qclt_le_dec y (natQ 100)) as [Hlt | Hge].
  - rewrite (ltb_Fin_true _ _ Hlt). unfold max2.
    destruct (Qclt_le_dec (Q2Qc 0) y) as [H0 | H0].
    + rewrite (ltb_Fin_true _ _ H0). apply inRange_Fin.
      split; now apply Qclt_le_weak.
    + rewrite (ltb_Fin_false _ _ H0). reflexivity.
  - rewrite (ltb_Fin_false _ _ Hge). reflexivity.
Qed.

(** *** Endurance *)

Lemma positiveWpm_filter (f : session -> bool) (l : list session) :
  positiveWpm l -> positiveWpm (filter f l).
Proof.
  intros H s Hs. apply filter_In in Hs. apply H. tauto.
Qed.

Lemma endurance_score_facts (sessions : list session) :
  positiveWpm sessions ->
  (filter isLong sessions = [] ->
   calculateEnduranceScore sessions = ofZ 50) /\
  inRange (calculateEnduranceScore sessions) = true /\
  (sessions <> [] -> forallb isLong sessions = true ->
   calculateEnduranceScore sessions = hundred).
Proof.
  intros Hpos. unfold calculateEnduranceScore.
  split; [intros H; now rewrite H|].
  split.
  - destruct (filter isLong sessions) as [|s0 l0] eqn:E; [reflexivity|].
    assert (Hne : sessions <> []).
    { intros ->. discriminate E. }
    assert (Hl : positiveWpm (s0 :: l0)).
    { rewrite <- E. now apply positiveWpm_filter. }
    destruct (positive_average (s0 :: l0) Hl) as [p [Hp Hp0]];
      [discriminate|].
    destruct (positive_average sessions Hpos Hne) as [o [Ho Ho0]].
    rewrite Hp, Ho, (div_Fin_pos _ _ Ho0), hundred_Fin, mul_Fin.
    rewrite <- hundred_Fin. apply min2_hundred_inRange.
    apply Qclt_le_weak. apply Qc_mult_pos; [now apply Qc_div_pos|].
    apply natQ_pos. lia.
  - intros Hne Hall. rewrite (filter_all _ _ _ Hall).
    destruct sessions as [|s0 l0]; [contradiction|].
    destruct (positive_average (s0 :: l0) Hpos Hne) as [o [Ho Ho0]].
    rewrite Ho, (div_Fin_pos _ _ Ho0), hundred_Fin, mul_Fin.
    replace (o / o * natQ 100) with (natQ 100)
      by (field; now apply pos_neq_0).
    reflexivity.
Qed.


(** X7. For sessions of positive WPM whose overall average WPM, as the
    function computes it, is a finite number (the sum has not overflowed),
    [calculateEnduranceScore] is 50 when no session lasted more than 120
    seconds, lies in [0, 100] always, and is 100 when every session lasted
    more than 120 seconds. *)
Theorem endurance_score_range (sessions : list session) :
  positiveWpm sessions ->
  is_finite (average wpm sessions) = true ->
  (filter isLong sessions = [] ->
   calculateEnduranceScore sessions = ofZ 50) /\
  inRange (calculateEnduranceScore sessions) = true /\
  (sessions <> [] -> forallb isLong sessions = true ->
   calculateEnduranceScore sessions = hundred).
Proof. intros Hpos _. now apply endurance_score_facts. Qed.

Lemma endurance_score_range_witness :
  let sessions :=
    [mkSession (ofZ 60) (ofZ 95) None zero (ofZ 150);
     mkSession (ofZ 40) (ofZ 90) None zero (ofZ 45)] in
  positiveWpm sessions /\
  is_finite (average wpm sessions) = true /\
  inRange (calculateEnduranceScore sessions) = true.
Proof.
  intros sessions.
  assert (Hp : positiveWpm sessions).
  { intros x Hx. simpl in Hx.
    repeat (destruct Hx as [Hx | Hx];
            [subst x; eexists; split; [reflexivity | reflexivity]|]).
    contradiction. }
  assert (Hf : is_finite (average wpm sessions) = true) by reflexivity.
  split; [exact Hp|]. split; [exact Hf|].
  exact (proj1 (proj2 (endurance_score_range sessions Hp Hf))).
Defined.

End Scores.

(* ================================================================= *)
(** ** Radar scores and trend data *)

Section Radar.

Import Analytics Insights.
Local Open Scope Qc_scope.

Lemma bounded_sum (l : list session) (a : Qc) :
  validAccuracy l ->
  exists q, fold_left add (map accuracy l) (Fin a) = Fin q /\
            a <= q /\ q <= a + natQ 100 * natQ (length l).
Proof.
  revert a. induction l as [|s l IH]; intros a Hl.
  - exists a. split; [reflexivity|]. cbn [length]. rewrite natQ_0.
    split; [apply Qcle_refl'|]. to_Q. lra.
  - cbn [map fold_left].
    destruct (Hl s (or_introl eq_refl)) as [x [Hx [Hx0 Hx1]]].
    rewrite Hx, add_Fin.
    destruct (IH (a + x)) as [q [Hq [Hq0 Hq1]]].
    { intros y Hy. apply Hl. now right. }
    exists q. split; [exact Hq|]. cbn [length]. rewrite (natQ_S (length l)).
    revert Hq0 Hq1 Hx0 Hx1. generalize (natQ (length l)). intros N.
    generalize (natQ 100). intros C. intros. to_Q. split; nra.
Qed.

Lemma bounded_average (l : list session) :
  validAccuracy l -> l <> [] -> inRange (average accuracy l) = true.
Proof.
  intros Hl Hne. rewrite average_is_specAverage. unfold specAverage, sum.
  rewrite zero_Fin.
  destruct (bounded_sum l (Q2Qc 0) Hl) as [q [Hq [Hq0 Hq1]]].
  assert (Hn : Q2Qc 0 < natQ (length l)).
  { apply natQ_pos. destruct l; [contradiction | simpl; lia]. }
  rewrite Hq, ofNat_Fin, (div_Fin_pos _ _ Hn). apply inRange_Fin.
  split; [now apply Qc_div_nonneg|].
  revert Hq0 Hq1 Hn. generalize (natQ (length l)). intros N.
  generalize (natQ 100). intros C. intros. to_Q.
  apply Qle_shift_div_r; [assumption | lra].
Qed.

Lemma positiveWpm_allFinite (l : list session) :
  positiveWpm l -> allFinite (map wpm l) = true.
Proof.
  intros H. unfold allFinite. apply forallb_forall. intros v Hv.
  apply in_map_iff in Hv. destruct Hv as [s [<- Hs]].
  destruct (H s Hs) as [w [Hw _]]. now rewrite Hw.
Qed.

(** X8. For a non-empty history of sessions with positive WPM and accuracy
    in [0, 100], whose average WPM, as the function computes it, is a
    finite number (the sum has not overflowed), and a finite improvement
    rate, each of the five scores of [calculateRadarScores] lies in
    [0, 100]. *)
Theorem radar_scores_in_range (sessions : list session) (rate : Qc) :
  sessions <> [] ->
  positiveWpm sessions ->
  validAccuracy sessions ->
  is_finite (average wpm sessions) = true ->
  let r := calculateRadarScores (Some sessions) (Fin rate) in
  inRange (speedScore r) = true /\
  inRange (accuracyScore r) = true /\
  inRange (consistency r) = true /\
  inRange (enduranceScore r) = true /\
  inRange (improvementScore r) = true.
Proof.
  intros Hne Hpos Hacc _ r. unfold r, calculateRadarScores.
  destruct sessions as [|s0 l0]; [contradiction|].
  cbn [speedScore accuracyScore consistency enduranceScore improvementScore].
  split; [|split; [|split; [|split]]].
  - destruct (positive_average (s0 :: l0) Hpos Hne) as [q [Hq Hq0]].
    assert (H70 : Q2Qc 0 < intQ 70) by now apply intQ_pos.
    rewrite Hq, ofZ_Fin, (div_Fin_pos _ _ H70), hundred_Fin, mul_Fin.
    rewrite <- hundred_Fin. apply min2_hundred_inRange.
    apply Qclt_le_weak. apply Qc_mult_pos; [now apply Qc_div_pos|].
    apply natQ_pos. lia.
  - now apply bounded_average.
  - pose proof (consistencyScore_bounds (s0 :: l0)
                  (positiveWpm_allFinite _ Hpos)) as [_ [H0 H1]].
    unfold consistencyScore, consistencyOf in H0, H1.
    unfold inRange. now rewrite H0, H1.
  - exact (proj1 (proj2 (endurance_score_facts (s0 :: l0) Hpos))).
  - rewrite ofZ_Fin, add_Fin. apply clamp_inRange.
Qed.

Lemma radar_scores_in_range_witness :
  let sessions :=
    [mkSession (ofZ 60) (ofZ 95) None zero (ofZ 150);
     mkSession (ofZ 40) (ofZ 90) None zero (ofZ 45)] in
  sessions <> [] /\ positiveWpm sessions /\ validAccuracy sessions /\
  is_finite (average wpm sessions) = true /\
  inRange (speedScore
             (calculateRadarScores (Some sessions) (ofZ (-70)))) = true.
Proof.
  intros sessions.
  assert (Hne : sessions <> []) by discriminate.
  assert (Hp : positiveWpm sessions).
  { intros x Hx. simpl in Hx.
    repeat (destruct Hx as [Hx | Hx];
            [subst x; eexists; split; [reflexivity | reflexivity]|]).
    contradiction. }
  assert (Ha : validAccuracy sessions).
  { intros x Hx. simpl in Hx.
    repeat (destruct Hx as [Hx | Hx];
            [subst x; eexists; split;
             [reflexivity | split; vm_compute; discriminate]|]).
    contradiction. }
  assert (Hf : is_finite (average wpm sessions) = true) by reflexivity.
  split; [exact Hne|]. split; [exact Hp|]. split; [exact Ha|].
  split; [exact Hf|].
  exact (proj1 (radar_scores_in_range sessions (intQ (-70)) Hne Hp Ha Hf)).
Defined.

(** *** Trend data *)






End Radar.

(* ================================================================= *)
(** ** What the histogram counts *)

Section HistogramTotal.

Import Analytics Insights.
Local Open Scope Qc_scope.

Lemma sumOver_S (f : nat -> nat) (n : nat) :
  sumOver f (S n) = (sumOver f n + f n)%nat.
Proof.
  unfold sumOver. rewrite seq_S, fold_right_app. cbn [fold_right Nat.add].
  generalize (seq 0 n). intros l.
  induction l as [|i l IH]; cbn [fold_right]; [lia|]. rewrite IH. lia.
Qed.

Lemma sumOver_ext (f g : nat -> nat) (n : nat) :
  (forall i, (i < n)%nat -> f i = g i) -> sumOver f n = sumOver g n.
Proof.
  induction n as [|n IH]; intros H; [reflexivity|].
  rewrite !sumOver_S, IH, (H n) by (intros; try apply H; lia). reflexivity.
Qed.

Lemma sumOver_plus (f g : nat -> nat) (n : nat) :
  sumOver (fun i => (f i + g i)%nat) n = (sumOver f n + sumOver g n)%nat.
Proof.
  induction n as [|n IH]; [reflexivity|]. rewrite !sumOver_S, IH. lia.
Qed.

Lemma totalCount_map (f : nat -> bin) (l : list nat) :
  totalCount (map f l) =
  fold_right (fun i acc => (bin_count (f i) + acc)%nat) 0%nat l.
Proof.
  induction l as [|i l IH]; [reflexivity|].
  cbn [map totalCount fold_right]. f_equal. exact IH.
Qed.

Lemma geb_Fin (v b : Qc) : geb (Fin v) (Fin b) = true <-> b <= v.
Proof. exact (leb_Fin b v). Qed.

Lemma ltb_Fin (v b : Qc) : ltb (Fin v) (Fin b) = true <-> v < b.
Proof.
  split.
  - intros H. destruct (Qclt_le_dec v b) as [Hlt | Hle]; [exact Hlt|].
    rewrite (ltb_Fin_false _ _ Hle) in H. discriminate.
  - apply ltb_Fin_true.
Qed.

(** Along boundaries that do not decrease, a value lies in at most one of
    the half-open intervals, and in one exactly when it lies between the
    first and the last boundary. *)
Lemma intervals_telescope (beta : nat -> Qc) (v : Qc) (n : nat) :
  (forall i, (i < n)%nat -> beta i <= beta (S i)) ->
  beta 0%nat <= beta n /\
  sumOver (fun i => one_if (geb (Fin v) (Fin (beta i))
                            && ltb (Fin v) (Fin (beta (S i))))) n =
  one_if (geb (Fin v) (Fin (beta 0%nat)) && ltb (Fin v) (Fin (beta n))).
Proof.
  induction n as [|n IH]; intros Hmono.
  - split; [apply Qcle_refl'|]. cbn [sumOver seq fold_right].
    destruct (Qclt_le_dec v (beta 0%nat)) as [Hlt | Hle].
    + rewrite (ltb_Fin_true _ _ Hlt).
      destruct (geb (Fin v) (Fin (beta 0%nat))) eqn:E; [|reflexivity].
      apply geb_Fin in E. exfalso. now apply (Qcle_not_lt _ _ E).
    + rewrite (ltb_Fin_false _ _ Hle). now rewrite andb_false_r.
  - destruct IH as [H0n IH]; [intros i Hi; apply Hmono; lia|].
    assert (Hn : beta n <= beta (S n)) by (apply Hmono; lia).
    split; [now apply Qcle_trans' with (beta n)|].
    rewrite sumOver_S, IH.
    destruct (Qclt_le_dec v (beta n)) as [Hlt | Hle].
    + rewrite (ltb_Fin_true _ _ Hlt).
      assert (Hlt' : v < beta (S n)) by (to_Q; lra).
      rewrite (ltb_Fin_true _ _ Hlt').
      assert (Hg : geb (Fin v) (Fin (beta n)) = false).
      { destruct (geb (Fin v) (Fin (beta n))) eqn:E; [|reflexivity].
        apply geb_Fin in E. exfalso. now apply (Qcle_not_lt _ _ E). }
      rewrite Hg. cbn [andb one_if]. lia.
    + rewrite (ltb_Fin_false _ _ Hle), andb_false_r.
      rewrite (proj2 (geb_Fin v (beta n)) Hle).
      rewrite (proj2 (geb_Fin v (beta 0%nat)))
        by now apply Qcle_trans' with (beta n).
      cbn [andb one_if]. lia.
Qed.

(** The counts of a family of filters, summed value by value. *)
Lemma count_by_value (P : nat -> Qc -> bool) (qs : list Qc) (n : nat) :
  sumOver (fun i => length (filter (fun v => P i (toQc v)) (map Fin qs))) n =
  fold_right (fun v acc => (sumOver (fun i => one_if (P i v)) n + acc)%nat)
             0%nat qs.
Proof.
  induction qs as [|q qs IH].
  - cbn [map filter length fold_right].
    induction n as [|n IHn]; [reflexivity|]. rewrite sumOver_S, IHn. lia.
  - cbn [fold_right]. rewrite <- IH, <- sumOver_plus.
    apply sumOver_ext. intros i _. cbn [map filter toQc].
    destruct (P i q); reflexivity.
Qed.

Lemma count_one_filter (P : Qc -> bool) (qs : list Qc) :
  length (filter (fun v => P (toQc v)) (map Fin qs)) =
  fold_right (fun v acc => (one_if (P v) + acc)%nat) 0%nat qs.
Proof.
  induction qs as [|q qs IH]; [reflexivity|].
  cbn [map filter toQc fold_right]. rewrite <- IH.
  destruct (P q); reflexivity.
Qed.

Lemma filter_on_finite (f g : num -> bool) (qs : list Qc) :
  (forall q, f (Fin q) = g (Fin q)) ->
  filter f (map Fin qs) = filter g (map Fin qs).
Proof.
  intros H. apply filter_ext_in. intros v Hv.
  apply in_map_iff in Hv. destruct Hv as [q [<- _]]. apply H.
Qed.

(** The boundaries of the bins. *)
Lemma boundary_Fin (m w : Qc) (i : nat) :
  boundary (Fin m) (Fin w) i =
  Fin (intQ (Qfloor (this (m + natQ i * w + Q2Qc (1 # 2))))).
Proof. reflexivity. Qed.

Lemma boundary_mono (m w : Qc) (i : nat) :
  Q2Qc 0 <= w ->
  intQ (Qfloor (this (m + natQ i * w + Q2Qc (1 # 2)))) <=
  intQ (Qfloor (this (m + natQ (S i) * w + Q2Qc (1 # 2)))).
Proof.
  intros Hw. apply Q2Qc_le. rewrite <- Zle_Qle. apply Qfloor_resp_le.
  rewrite natQ_S. to_Q. nra.
Qed.

Lemma createHistogramBins_bins (q : Qc) (qs : list Qc) (binCount : nat) :
  let values := map Fin (q :: qs) in
  let binWidth := div (sub (maxl values) (minl values)) (ofNat binCount) in
  createHistogramBins values binCount =
  map (fun i =>
         mkBin (boundary (minl values) binWidth i)
               (boundary (minl values) binWidth (i + 1))
               (countIn (boundary (minl values) binWidth i)
                        (boundary (minl values) binWidth (i + 1)) values))
      (seq 0 binCount).
Proof. reflexivity. Qed.

(** X10. For finite values and at least one bin, the counts of the bins
    sum to the number of values [v] between the first and the last of
    the boundaries [Math.round(min + i * binWidth)],
    [boundary 0 <= v < boundary binCount]; in
    particular to no more than the number of values.  No value is counted
    twice, and the values from the last boundary on are not counted. *)
Theorem histogram_total (q : Qc) (qs : list Qc) (binCount : nat) :
  (0 < binCount)%nat ->
  let values := map Fin (q :: qs) in
  let binWidth := div (sub (maxl values) (minl values)) (ofNat binCount) in
  totalCount (createHistogramBins values binCount) =
    countIn (boundary (minl values) binWidth 0)
            (boundary (minl values) binWidth binCount) values /\
  (totalCount (createHistogramBins values binCount) <= length values)%nat.
Proof.
  intros Hn values binWidth.
  assert (Hmain : totalCount (createHistogramBins values binCount) =
            countIn (boundary (minl values) binWidth 0)
                    (boundary (minl values) binWidth binCount) values).
  { unfold binWidth, values.
    pose proof (createHistogramBins_bins q qs binCount) as E.
    cbv zeta in E. rewrite E. clear E.
    destruct (min_le_max_finite q qs) as [m [M [Hm [HM HmM]]]].
    rewrite Hm, HM.
    assert (Hpos : Q2Qc 0 < natQ binCount) by now apply natQ_pos.
    rewrite sub_Fin, ofNat_Fin, (div_Fin_pos _ _ Hpos).
    set (w := (M - m) / natQ binCount).
    assert (Hw : Q2Qc 0 <= w).
    { unfold w. apply Qc_div_nonneg; [|exact Hpos]. to_Q. lra. }
    set (beta := fun i => intQ (Qfloor (this (m + natQ i * w
                                              + Q2Qc (1 # 2))))).
    rewrite totalCount_map. cbn [bin_count]. fold (sumOver
      (fun i => countIn (boundary (Fin m) (Fin w) i)
                        (boundary (Fin m) (Fin w) (i + 1))
                        (map Fin (q :: qs)))
      binCount).
    set (P := fun (i : nat) (x : Qc) =>
                geb (Fin x) (Fin (beta i)) && ltb (Fin x) (Fin (beta (S i)))).
    set (P0 := fun x : Qc =>
                 geb (Fin x) (Fin (beta 0%nat))
                 && ltb (Fin x) (Fin (beta binCount))).
    rewrite (sumOver_ext _
      (fun i => length (filter (fun v => P i (toQc v))
                               (map Fin (q :: qs))))).
    2:{ intros i _. unfold countIn. f_equal.
        apply filter_on_finite. intros x.
        rewrite !boundary_Fin. replace (i + 1)%nat with (S i) by lia.
        reflexivity. }
    rewrite (count_by_value P (q :: qs) binCount).
    rewrite !boundary_Fin. fold (beta 0%nat) (beta binCount).
    unfold countIn.
    rewrite (filter_on_finite _ (fun v => P0 (toQc v)))
      by (intros x; reflexivity).
    rewrite (count_one_filter P0 (q :: qs)).
    generalize (q :: qs). intros l.
    induction l as [|x l IH]; [reflexivity|].
    cbn [fold_right]. rewrite IH. f_equal.
    apply intervals_telescope. intros i _. apply boundary_mono, Hw. }
  split; [exact Hmain|].
  rewrite Hmain. unfold countIn. apply filter_length_bound.
Qed.

Lemma histogram_total_witness :
  let values := map ofZ [41; 58; 58; 47]%Z in
  let binWidth := div (sub (maxl values) (minl values)) (ofNat 10) in
  (0 < 10)%nat /\
  totalCount (createHistogramBins values 10) =
    countIn (boundary (minl values) binWidth 0)
            (boundary (minl values) binWidth 10) values /\
  totalCount (createHistogramBins values 10) = 2%nat.
Proof.
  intros values binWidth.
  assert (Hn : (0 < 10)%nat) by lia.
  split; [exact Hn|]. split.
  - exact (proj1 (histogram_total (intQ 41) [intQ 58; intQ 58; intQ 47]
                                  10 Hn)).
  - vm_compute. reflexivity.
Defined.

End HistogramTotal.

(* ================================================================= *)
(** ** When the difficulty breakdown throws *)

Section DifficultyError.

Import Analytics.
Local Open Scope string_scope.

Lemma inherited_is_not_own (d : string) :
  is_key d prototypeKeys = true ->
  String.eqb "easy" d = false /\ String.eqb "medium" d = false /\
  String.eqb "hard" d = false.
Proof.
  intros H.
  repeat split;
    match goal with
    | |- String.eqb ?k d = false =>
        destruct (String.eqb k d) eqn:E; [|reflexivity];
        apply String.eqb_eq in E; subst d; discriminate H
    end.
Qed.

Lemma groupSessions_throws (sessions : list session) :
  forall e m h,
    forallb notInherited sessions = false ->
    groupSessions sessions [("easy", e); ("medium", m); ("hard", h)] =
    TypeError.
Proof.
  induction sessions as [|s sessions IH]; intros e m h Hs;
    [discriminate|].
  cbn [forallb] in Hs. cbn [groupSessions]. unfold lookup. cbn [own push].
  destruct (notInherited s) eqn:Es.
  - cbn [andb] in Hs.
    unfold notInherited in Es. apply negb_true_iff in Es. rewrite Es.
    destruct (String.eqb "easy" (difficultyOrMedium s));
      [now apply IH|].
    destruct (String.eqb "medium" (difficultyOrMedium s));
      [now apply IH|].
    destruct (String.eqb "hard" (difficultyOrMedium s)); now apply IH.
  - unfold notInherited in Es. apply negb_false_iff in Es.
    destruct (inherited_is_not_own _ Es) as [E1 [E2 E3]].
    now rewrite E1, E2, E3, Es.
Qed.

(** X11. [calculateDifficultyStats] throws a [TypeError] exactly when some
    session has a difficulty that names a property objects inherit, such
    as [constructor] or [toString]; otherwise it returns the three
    groups. *)
Theorem difficulty_stats_throw_iff (sessions : list session) :
  calculateDifficultyStats sessions = TypeError <->
  forallb notInherited sessions = false.
Proof.
  unfold calculateDifficultyStats, emptyStats. split.
  - intros H. destruct (forallb notInherited sessions) eqn:E;
      [|reflexivity].
    rewrite (groupSessions_shape sessions [] [] [] E) in H. discriminate.
  - intros H. now rewrite (groupSessions_throws sessions [] [] [] H).
Qed.

End DifficultyError.

(* ================================================================= *)
(** * Further properties of the typing test *)

(** ** What the metrics display shows *)

Section Shown.

Import App Insights Screen.
Local Open Scope Qc_scope.

Lemma ofZ_le_inv (x y : Z) : leb (ofZ x) (ofZ y) = true -> (x <= y)%Z.
Proof.
  intros H. apply leb_Fin in H. unfold intQ in H. to_Q.
  now rewrite <- Zle_Qle in H.
Qed.

Lemma truthy_ofZ (z : Z) : truthy (ofZ z) = negb (z =? 0)%Z.
Proof.
  unfold truthy, ofZ. f_equal.
  destruct (z =? 0)%Z eqn:E.
  - apply Z.eqb_eq in E. subst z. reflexivity.
  - apply Z.eqb_neq in E.
    destruct (Qc_eq_bool (Q2Qc (inject_Z z)) (Q2Qc 0)) eqn:Eb;
      [|reflexivity].
    apply Qc_eq_bool_correct in Eb. exfalso. apply E.
    apply Q2Qc_eq_iff in Eb.
    apply (inject_Z_injective z 0). exact Eb.
Qed.

(** The live accuracy is a whole number from 0 to 100. *)
Lemma liveAccuracy_integer (p typed : jsstring) (elapsedMs : Z) :
  exists z, accuracy (localMetrics p typed elapsedMs) = ofZ z /\
            (0 <= z <= 100)%Z.
Proof.
  destruct (liveAccuracy_bounds p typed elapsedMs) as [H0 H1].
  rewrite liveAccuracy_value in *.
  unfold specAccuracy in *.
  destruct (length p =? 0)%nat.
  - exists 100%Z. split; [apply round_hundred | lia].
  - destruct (div (mul hundred (ofNat (correctCount typed p)))
                  (ofNat (length p))) as [x| | |] eqn:E;
      try discriminate.
    cbn [round] in *. eexists. split; [reflexivity|].
    split; [now apply ofZ_le_inv | now apply (ofZ_le_inv _ 100)].
Qed.

(** X12. The accuracy that [updateMetricsDisplay] shows after
    [calculateLocalMetrics] is a whole number from 1 to 100, never 0: an
    accuracy of 0 is shown as 100, because of [metrics.accuracy || 100].
    That happens whenever no typed character matches a non-empty prompt. *)
Theorem shown_accuracy_is_never_zero (p typed : jsstring) (elapsedMs : Z) :
  let m := localMetrics p typed elapsedMs in
  (exists z, shownAccuracy (updateMetricsDisplay m) = ofZ z /\
             (1 <= z <= 100)%Z) /\
  (accuracy m = zero -> shownAccuracy (updateMetricsDisplay m) = hundred) /\
  ((0 < length p)%nat -> correctCount typed p = 0%nat ->
   accuracy m = zero).
Proof.
  intros m. unfold m.
  destruct (liveAccuracy_integer p typed elapsedMs) as [z [Hz Hr]].
  cbn [updateMetricsDisplay shownAccuracy]. unfold orDefault.
  split; [|split].
  - rewrite Hz, truthy_ofZ. destruct (z =? 0)%Z eqn:E; cbn [negb].
    + exists 100%Z. split; [reflexivity | lia].
    + apply Z.eqb_neq in E. exists z. split; [reflexivity | lia].
  - intros H0. rewrite H0. reflexivity.
  - intros Hp Hc. rewrite liveAccuracy_value, (specAccuracy_value p typed Hp).
    rewrite Hc. apply eqb_eq. unfold round.
    replace (natQ 0 / natQ (length p) * natQ 100) with (Q2Qc 0).
    + reflexivity.
    + rewrite natQ_0. field. apply pos_neq_0. now apply natQ_pos.
Qed.

Lemma shown_accuracy_is_never_zero_witness :
  let p := lit "abc" in
  let typed := lit "xyz" in
  let m := localMetrics p typed 2000 in
  (0 < length p)%nat /\ correctCount typed p = 0%nat /\
  accuracy m = zero /\
  shownAccuracy (updateMetricsDisplay m) = hundred.
Proof.
  intros p typed m.
  assert (Hp : (0 < length p)%nat) by (simpl; lia).
  assert (Hc : correctCount typed p = 0%nat) by reflexivity.
  destruct (shown_accuracy_is_never_zero p typed 2000) as [_ [H1 H2]].
  split; [exact Hp|]. split; [exact Hc|].
  split; [exact (H2 Hp Hc) | exact (H1 (H2 Hp Hc))].
Defined.

(** *** Progress and completion *)

Lemma natQ_lt (a b : nat) : (a < b)%nat -> natQ a < natQ b.
Proof.
  intros H. apply Q2Qc_lt. rewrite <- Zlt_Qlt. lia.
Qed.

Lemma natQ_inj (a b : nat) : natQ a = natQ b -> a = b.
Proof.
  intros H. destruct (Nat.lt_total a b) as [Hlt | [Heq | Hgt]];
    [|exact Heq|]; exfalso.
  - apply natQ_lt in Hlt. rewrite H in Hlt. revert Hlt.
    unfold Qclt. apply Qlt_irrefl.
  - apply natQ_lt in Hgt. rewrite H in Hgt. revert Hgt.
    unfold Qclt. apply Qlt_irrefl.
Qed.

Lemma progress_value (p input : jsstring) (elapsedMs : Z) :
  (0 < length p)%nat ->
  progress (localMetrics p input elapsedMs) =
  min2 (Fin (natQ (length input) / natQ (length p) * natQ 100)) hundred.
Proof.
  intros Hp. unfold localMetrics. cbn [progress].
  now rewrite (percent_code _ _ Hp).
Qed.

(** X13. For a non-empty prompt the progress lies in [0, 100], and it is
    100 exactly when the input is at least as long as the prompt, which is
    exactly when [handleTyping] schedules the automatic submission. *)
Theorem progress_complete_iff (t : test) (input : jsstring) (elapsedMs : Z) :
  (0 < length (prompt t))%nat ->
  inRange (progress (localMetrics (prompt t) input elapsedMs)) = true /\
  (progress (localMetrics (prompt t) input elapsedMs) = hundred <->
   completes input t = true).
Proof.
  intros Hp. rewrite (progress_value _ _ _ Hp).
  set (a := length input). set (n := length (prompt t)) in *.
  assert (Hn : Q2Qc 0 < natQ n) by now apply natQ_pos.
  set (x := natQ a / natQ n * natQ 100).
  assert (Hx0 : Q2Qc 0 <= x).
  { unfold x.
    pose proof (natQ_nonneg a) as Ha. pose proof (natQ_nonneg 100) as Hh.
    pose proof (Qc_div_nonneg _ _ Ha Hn) as Hd.
    revert Hd Hh. generalize (natQ a / natQ n). intros d.
    generalize (natQ 100). intros h. intros. to_Q.
    now apply Qmult_le_0_compat. }
  split; [exact (proj1 (min2_hundred_inRange x Hx0))|].
  unfold completes. fold a n. rewrite Nat.leb_le.
  rewrite hundred_Fin. unfold min2.
  destruct (Nat.le_gt_cases n a) as [Hle | Hgt].
  - assert (Hx : natQ 100 <= x).
    { unfold x. pose proof (natQ_le _ _ Hle) as Hq.
      assert (H1 : Q2Qc 1 <= natQ a / natQ n).
      { revert Hq Hn. generalize (natQ a) (natQ n). intros A N. intros.
        to_Q. apply Qle_shift_div_l; [assumption | lra]. }
      pose proof (natQ_nonneg 100) as Hh.
      revert H1 Hh. generalize (natQ a / natQ n) (natQ 100).
      intros d h. intros. to_Q. nra. }
    split; [intros _; exact Hle | intros _].
    destruct (Qcle_lt_or_eq _ _ Hx) as [Hlt | Heq].
    + now rewrite (ltb_Fin_true _ _ Hlt).
    + rewrite <- Heq. destruct (ltb _ _); reflexivity.
  - assert (Hx : x < natQ 100).
    { unfold x. pose proof (natQ_lt _ _ Hgt) as Hq.
      assert (H1 : natQ a / natQ n < Q2Qc 1).
      { revert Hq Hn. generalize (natQ a) (natQ n). intros A N. intros.
        to_Q. apply Qlt_shift_div_r; [assumption | lra]. }
      assert (Hh : Q2Qc 0 < natQ 100) by (apply natQ_pos; lia).
      revert H1 Hh. generalize (natQ a / natQ n) (natQ 100).
      intros d h. intros. to_Q. nra. }
    rewrite (ltb_Fin_false (natQ 100) x) by now apply Qclt_le_weak.
    split; [|lia]. intros H. exfalso. apply Fin_inj in H.
    rewrite H in Hx. revert Hx. unfold Qclt. apply Qlt_irrefl.
Qed.

Lemma progress_complete_iff_witness :
  let t := mkTest (lit "abc") "easy" "general" None in
  (0 < length (prompt t))%nat /\
  progress (localMetrics (prompt t) (lit "abcd") 900) = hundred.
Proof.
  intros t.
  assert (Hp : (0 < length (prompt t))%nat) by (simpl; lia).
  split; [exact Hp|].
  apply (proj2 (progress_complete_iff t (lit "abcd") 900 Hp)).
  reflexivity.
Defined.

End Shown.

(* ================================================================= *)
(** ** Errors and words of a submission *)

Section Submission.

Import App Insights Screen.
Local Open Scope Qc_scope.

Lemma filter_map_length (f : nat -> bool) (g : nat -> nat) (l : list nat) :
  length (filter f (map g l)) = length (filter (fun i => f (g i)) l).
Proof.
  induction l as [|i l IH]; [reflexivity|].
  cbn [map filter]. destruct (f (g i)); cbn [length]; now rewrite IH.
Qed.

(** The number of agreeing positions, read position by position. *)
Lemma correctCount_nil_l (p : jsstring) : correctCount [] p = 0%nat.
Proof. reflexivity. Qed.

Lemma correctCount_nil_r (typed : jsstring) : correctCount typed [] = 0%nat.
Proof. unfold correctCount. now rewrite Nat.min_0_r. Qed.

Lemma correctCount_cons (x y : code_unit) (a b : jsstring) :
  correctCount (x :: a) (y :: b) =
  (one_if (N.eqb x y) + correctCount a b)%nat.
Proof.
  unfold correctCount. cbn [length].
  rewrite <- Nat.succ_min_distr, <- cons_seq, <- seq_shift.
  cbn [filter nth_error same_char].
  assert (E : length (filter
                (fun i => same_char (nth_error (x :: a) i)
                                    (nth_error (y :: b) i))
                (map S (seq 0 (Nat.min (length a) (length b))))) =
              length (filter
                (fun i => same_char (nth_error a i) (nth_error b i))
                (seq 0 (Nat.min (length a) (length b))))).
  { now rewrite filter_map_length. }
  destruct (N.eqb x y); cbn [length one_if Nat.add]; now rewrite E.
Qed.

Lemma correctCount_is_length_iff (typed p : jsstring) :
  correctCount typed p = length typed <-> isPrefix typed p = true.
Proof.
  revert p. induction typed as [|x a IH]; intros [|y b].
  - split; reflexivity.
  - split; reflexivity.
  - rewrite correctCount_nil_r. cbn. split; discriminate.
  - rewrite correctCount_cons. cbn [length isPrefix].
    pose proof (correctCount_le_typed a b) as Hle.
    destruct (N.eqb x y); cbn [one_if andb].
    + rewrite <- IH. lia.
    + split; [lia | discriminate].
Qed.

(** X14. The error count that [submitTest] posts is
    [characters_typed - correctCount]; it lies between 0 and the number of
    characters typed, and it is 0 exactly when the input is a prefix of the
    prompt. *)
Theorem submitted_errors_zero_iff_prefix
    (t : test) (typed : jsstring) (now : Z) :
  let d := submissionData t typed now in
  sub_errors d =
    sub (characters_typed d) (ofNat (correctCount typed (prompt t))) /\
  leb zero (sub_errors d) = true /\
  leb (sub_errors d) (characters_typed d) = true /\
  (sub_errors d = zero <-> isPrefix typed (prompt t) = true).
Proof.
  intros d. unfold d, submissionData.
  cbn [sub_errors characters_typed].
  rewrite correctChars_is_correctCount.
  pose proof (correctCount_le_typed typed (prompt t)) as Hle.
  pose proof (natQ_le _ _ Hle) as Hq.
  pose proof (natQ_nonneg (correctCount typed (prompt t))) as Hc.
  rewrite !ofNat_Fin, sub_Fin, zero_Fin.
  split; [reflexivity|]. split; [|split].
  - apply leb_Fin. to_Q. lra.
  - apply leb_Fin. to_Q. lra.
  - rewrite <- correctCount_is_length_iff. split.
    + intros H. apply Fin_inj in H. symmetry. apply natQ_inj.
      revert H. generalize (natQ (length typed)).
      generalize (natQ (correctCount typed (prompt t))).
      intros c l H. replace l with (l - c + c) by ring. rewrite H. ring.
    + intros ->. f_equal. ring.
Qed.



End Submission.

(* ================================================================= *)
(** ** The session timer between the events *)

Section TimerEvents.

Import App.

(** X16. Whatever happens to the page, the browser holds at most one
    repeating session timer, and it is the one [this.state.timer] refers
    to: [startNewTest] does not clear a running timer, but the first
    keystroke of the next test does, before it sets a new one. *)
Theorem at_most_one_session_timer (es : list event) :
  (length (intervals (run es)) <= 1)%nat /\
  (forall h, In h (intervals (run es)) -> timer (app (run es)) = Some h).
Proof.
  destruct (run_tracks es) as [E | [h [E T]]]; rewrite E.
  - split; [cbn; lia | intros h []].
  - split; [cbn; lia|]. intros k [<- | []]. exact T.
Qed.

Lemma tick_after_timeout (pg : page) (t : test) (t0 now : Z) :
  intervals pg <> [] ->
  currentTest (app pg) = Some t ->
  startTime t = Some t0 ->
  isAuthenticated (app pg) = true ->
  (timeoutDuration < now - t0)%Z ->
  step (step pg (Tick now)) (Response false) =
  mkPage (app pg) (intervals pg) (nextHandle pg)
         (submissionData t (typingInput (app pg)) now :: submitted pg).
Proof.
  intros Hi Ht H0 Ha Hlt. cbn [step submitResponse]. unfold tick.
  destruct (intervals pg) as [|h l] eqn:E; [contradiction|].
  rewrite Ht, H0.
  apply Z.ltb_lt in Hlt. rewrite Hlt.
  unfold submitTest. rewrite Ht, Ha, E. reflexivity.
Qed.

Lemma ticks_after_timeout (nows : list Z) (pg : page) (t : test) (t0 : Z) :
  intervals pg <> [] ->
  currentTest (app pg) = Some t ->
  startTime t = Some t0 ->
  isAuthenticated (app pg) = true ->
  Forall (fun now => (timeoutDuration < now - t0)%Z) nows ->
  fold_left step (flat_map (fun now => [Tick now; Response false]) nows) pg =
  mkPage (app pg) (intervals pg) (nextHandle pg)
         (rev (map (submissionData t (typingInput (app pg))) nows)
          ++ submitted pg).
Proof.
  revert pg. induction nows as [|now nows IH]; intros pg Hi Ht H0 Ha Hall.
  - destruct pg; reflexivity.
  - inversion Hall as [|? ? Hnow Hrest]; subst.
    cbn [flat_map app fold_left map rev].
    change (fold_left step
              ([Tick now; Response false] ++
               flat_map (fun now0 => [Tick now0; Response false]) nows) pg)
      with (fold_left step
              (flat_map (fun now0 => [Tick now0; Response false]) nows)
              (step (step pg (Tick now)) (Response false))).
    rewrite (tick_after_timeout pg t t0 now Hi Ht H0 Ha Hnow).
    rewrite IH; cbn [App.app intervals nextHandle submitted]; trivial.
    now rewrite <- List.app_assoc.
Qed.

(** X17. Once the test has run past [timeoutDuration], every firing of the
    timer posts the result again for as long as the responses are not ok:
    [n] firings, each answered by a failure, post [n] payloads and leave
    the timer and the state as they were. *)
Theorem failed_timeout_submission_is_repeated
    (pg : page) (t : test) (t0 : Z) (nows : list Z) :
  intervals pg <> [] ->
  currentTest (app pg) = Some t ->
  startTime t = Some t0 ->
  isAuthenticated (app pg) = true ->
  Forall (fun now => (timeoutDuration < now - t0)%Z) nows ->
  let pg' :=
    fold_left step
      (flat_map (fun now => [Tick now; Response false]) nows) pg in
  submitted pg' =
    rev (map (submissionData t (typingInput (app pg))) nows)
    ++ submitted pg /\
  intervals pg' = intervals pg /\
  app pg' = app pg.
Proof.
  intros Hi Ht H0 Ha Hall pg'. unfold pg'.
  rewrite (ticks_after_timeout nows pg t t0 Hi Ht H0 Ha Hall).
  repeat split.
Qed.

Lemma failed_timeout_submission_is_repeated_witness :
  let pg := run [Login; StartNewTest (lit "abc") "easy" "general";
                 Typing (lit "a") 1000] in
  let t := mkTest (lit "abc") "easy" "general" (Some 1000%Z) in
  let pg' :=
    fold_left step
      (flat_map (fun now => [Tick now; Response false])
                [400000%Z; 401000%Z]) pg in
  submitted pg' =
    rev (map (submissionData t (typingInput (app pg)))
             [400000%Z; 401000%Z])
    ++ submitted pg /\
  intervals pg' = intervals pg /\
  app pg' = app pg.
Proof.
  intros pg t.
  apply (failed_timeout_submission_is_repeated pg t 1000%Z
           [400000%Z; 401000%Z]).
  - discriminate.
  - reflexivity.
  - reflexivity.
  - reflexivity.
  - repeat constructor.
Defined.

End TimerEvents.

(* ================================================================= *)
(** ** The activity feed and the registration form *)

Section Forms.

Import App Screen.

Lemma keepRecent_firstn {A : Type} (fuel : nat) (children : list A) :
  (length children <= fuel + 10)%nat ->
  keepRecent fuel children = firstn 10 children.
Proof.
  revert children. induction fuel as [|fuel IH]; intros children H.
  - cbn [keepRecent]. symmetry. apply firstn_all2. exact H.
  - cbn [keepRecent]. destruct (10 <? length children)%nat eqn:E.
    + apply Nat.ltb_lt in E.
      rewrite IH.
      * rewrite removelast_firstn_len, firstn_firstn.
        f_equal. lia.
      * rewrite removelast_firstn_len, length_firstn. lia.
    + apply Nat.ltb_ge in E. symmetry. now apply firstn_all2.
Qed.

(** X18. [addActivityFeedItem] puts the new item first and keeps the ten
    newest entries: the list becomes the first ten of [item :: children],
    whatever its length was before. *)
Theorem activity_feed_keeps_ten_newest
    {A : Type} (item : A) (children : list A) :
  addActivityFeedItem item children = firstn 10 (item :: children) /\
  (length (addActivityFeedItem item children) =
     Nat.min 10 (S (length children)))%nat /\
  hd_error (addActivityFeedItem item children) = Some item.
Proof.
  assert (E : addActivityFeedItem item children =
              firstn 10 (item :: children)).
  { unfold addActivityFeedItem. apply keepRecent_firstn. lia. }
  rewrite E. repeat split.
  now rewrite length_firstn.
Qed.

(** *** The pattern of the e-mail address *)

Lemma matchHere_nil (s : jsstring) : matchHere [] s = true.
Proof. destruct s; reflexivity. Qed.

Lemma matchHere_Unit (u : code_unit) (rest : list piece) (s : jsstring) :
  matchHere (Unit u :: rest) s = true <->
  exists s', s = u :: s' /\ matchHere rest s' = true.
Proof.
  destruct s as [|c r]; cbn [matchHere].
  - split; [discriminate | intros [s' [H _]]; discriminate H].
  - rewrite andb_true_iff, N.eqb_eq. split.
    + intros [-> H]. now exists r.
    + intros [s' [H M]]. injection H as -> ->. now split.
Qed.

Lemma matchHere_NonSpaces (rest : list piece) (s : jsstring) :
  matchHere (NonSpaces :: rest) s = true <->
  exists w s', s = (w ++ s')%list /\ w <> [] /\
               forallb notSpace w = true /\ matchHere rest s' = true.
Proof.
  split.
  - induction s as [|c r IH]; cbn [matchHere]; [discriminate|].
    rewrite andb_true_iff, orb_true_iff. intros [Hc [M | M]].
    + exists [c], r. repeat split; trivial; [discriminate|].
      cbn. unfold notSpace. now rewrite Hc.
    + destruct (IH M) as [w [s' [-> [_ [Hw Hs]]]]].
      exists (c :: w), s'. repeat split; trivial; [discriminate|].
      cbn [forallb]. unfold notSpace at 1. now rewrite Hc.
  - intros [w [s' [-> [Hne [Hw M]]]]].
    induction w as [|c w IH]; [contradiction|].
    cbn [forallb] in Hw. apply andb_true_iff in Hw. destruct Hw as [Hc Hw].
    cbn [List.app matchHere]. unfold notSpace in Hc. rewrite Hc.
    cbn [andb]. apply orb_true_iff.
    destruct w as [|c' w'].
    + left. exact M.
    + right. apply IH; [discriminate | exact Hw].
Qed.

Lemma patternTest_somewhere (pattern : list piece) (s : jsstring) :
  patternTest pattern s = true <->
  exists pre s', s = (pre ++ s')%list /\ matchHere pattern s' = true.
Proof.
  split.
  - induction s as [|c r IH]; cbn [patternTest];
      rewrite orb_true_iff; intros [M | M].
    + now exists [], [].
    + discriminate.
    + now exists [], (c :: r).
    + destruct (IH M) as [pre [s' [-> H]]]. now exists (c :: pre), s'.
  - intros [pre [s' [-> M]]]. induction pre as [|c pre IH].
    + cbn [List.app]. destruct s'; cbn [patternTest]; now rewrite M.
    + cbn [List.app patternTest]. rewrite IH. apply orb_true_r.
Qed.

(** The strings the pattern [/\S+@\S+\.\S+/] accepts. *)
Lemma emailPattern_accepts (e : jsstring) :
  patternTest emailPattern e = true <->
  exists pre a b c post,
    e = (pre ++ a ++ 64%N :: b ++ 46%N :: c ++ post)%list /\
    a <> [] /\ b <> [] /\ c <> [] /\
    forallb notSpace a = true /\ forallb notSpace b = true /\
    forallb notSpace c = true.
Proof.
  rewrite patternTest_somewhere. unfold emailPattern. split.
  - intros [pre [s [-> M]]].
    apply matchHere_NonSpaces in M. destruct M as [a [s1 [-> [Ha [Fa M]]]]].
    apply matchHere_Unit in M. destruct M as [s2 [-> M]].
    apply matchHere_NonSpaces in M. destruct M as [b [s3 [-> [Hb [Fb M]]]]].
    apply matchHere_Unit in M. destruct M as [s4 [-> M]].
    apply matchHere_NonSpaces in M. destruct M as [c [s5 [-> [Hc [Fc _]]]]].
    exists pre, a, b, c, s5. repeat split; trivial.
  - intros [pre [a [b [c [post [-> [Ha [Hb [Hc [Fa [Fb Fc]]]]]]]]]]].
    exists pre, (a ++ 64%N :: b ++ 46%N :: c ++ post)%list.
    split; [reflexivity|].
    apply matchHere_NonSpaces. exists a, (64%N :: b ++ 46%N :: c ++ post)%list.
    repeat split; trivial.
    apply matchHere_Unit. exists (b ++ 46%N :: c ++ post)%list.
    split; [reflexivity|].
    apply matchHere_NonSpaces. exists b, (46%N :: c ++ post)%list.
    repeat split; trivial.
    apply matchHere_Unit. exists (c ++ post)%list. split; [reflexivity|].
    apply matchHere_NonSpaces. exists c, post.
    repeat split; trivial. apply matchHere_nil.
Qed.

Lemma nonEmpty_length (s : jsstring) :
  nonEmpty s = true <-> (0 < length s)%nat.
Proof.
  destruct s; cbn; split; try lia; try discriminate; reflexivity.
Qed.

(** X19. [validateRegistrationData] accepts exactly a username of at least
    three code units, a password of at least six, and an e-mail address
    that holds SOMEWHERE a run of non-blank characters, [@], another run,
    a dot and a third run; the pattern is not anchored, so anything may
    stand before and after that part. *)
Theorem registration_data_accepted_iff (username email password : jsstring) :
  validateRegistrationData username email password = true <->
  (3 <= length username)%nat /\
  (6 <= length password)%nat /\
  exists pre a b c post,
    email = (pre ++ a ++ 64%N :: b ++ 46%N :: c ++ post)%list /\
    a <> [] /\ b <> [] /\ c <> [] /\
    forallb notSpace a = true /\ forallb notSpace b = true /\
    forallb notSpace c = true.
Proof.
  rewrite <- emailPattern_accepts. unfold validateRegistrationData.
  assert (Hlen : forall (s : jsstring) (n : nat), (0 < n)%nat ->
            nonEmpty s && negb (length s <? n)%nat = (n <=? length s)%nat).
  { intros s n Hn. rewrite Nat.ltb_antisym, negb_involutive.
    destruct s as [|c r]; [|reflexivity].
    cbn [nonEmpty length andb]. symmetry. apply Nat.leb_gt. exact Hn. }
  assert (He : nonEmpty email && patternTest emailPattern email =
               patternTest emailPattern email).
  { destruct email; reflexivity. }
  rewrite (Hlen username 3%nat), (Hlen password 6%nat), He by lia.
  destruct (Nat.leb_spec 3 (length username)) as [Hu | Hu];
    destruct (Nat.leb_spec 6 (length password)) as [Hp | Hp];
    destruct (patternTest emailPattern email);
    split; try discriminate; try (intros [? [? ?]]; try lia; discriminate);
    try (intros _; repeat split; trivial; lia).
Qed.

End Forms.

(* ================================================================= *)
(** ** The leaderboard's timers and animation queue *)

Section LeaderboardTimers.

Import Leaderboard.

Lemma Forall_filter_keep {A : Type} (P : A -> Prop) (f : A -> bool)
    (l : list A) : Forall P l -> Forall P (filter f l).
Proof.
  induction 1 as [|x l Hx _ IH]; cbn [filter]; [constructor|].
  destruct (f x); [now constructor | exact IH].
Qed.

Lemma board_step_fresh (b : board) (e : board_event) :
  handles_fresh b -> handles_fresh (board_step b e).
Proof.
  unfold handles_fresh. intros H. destruct e; cbn [board_step].
  - cbn. constructor; [lia|].
    eapply Forall_impl; [|exact H]. cbn. intros; lia.
  - unfold handleRealtimeUpdate, processAnimationQueue. cbn.
    destruct (animationQueue b ++ _)%list; exact H.
  - unfold queueTimeout, processAnimationQueue.
    destruct (queueTimeouts b); [exact H|]. cbn.
    destruct (animationQueue b); exact H.
  - unfold stopAutoRefresh. destruct (updateInterval b); [|exact H].
    cbn. now apply Forall_filter_keep.
  - unfold destroy, stopAutoRefresh. destruct (updateInterval b); cbn;
      [now apply Forall_filter_keep | exact H].
Qed.

Lemma fold_board_step_fresh (es : list board_event) (b : board) :
  handles_fresh b -> handles_fresh (fold_left board_step es b).
Proof.
  revert b. induction es as [|e es IH]; intros b H; [exact H|].
  cbn [fold_left]. apply IH. now apply board_step_fresh.
Qed.

Lemma runBoard_fresh (es : list board_event) : handles_fresh (runBoard es).
Proof. apply fold_board_step_fresh. constructor. Qed.

Lemma filter_fresh (h : App.handle) (l : list App.handle) :
  Forall (fun k => (k < h)%positive) l ->
  filter (fun k => negb (Pos.eqb k h)) l = l.
Proof.
  induction 1 as [|k l Hk _ IH]; [reflexivity|].
  cbn [filter]. destruct (Pos.eqb_spec k h) as [-> | _]; [lia|].
  cbn [negb]. now rewrite IH.
Qed.

(** X20. [startAutoRefresh] sets a new repeating timer without clearing the
    one it may have set before.  In any state of the component, starting
    and stopping leaves the browser's timers as they were, but after two
    starts the stop clears only the second timer: the first keeps firing
    and its handle is lost, so that no later [stopAutoRefresh] or
    [destroy] can clear it. *)
Theorem auto_refresh_started_twice_leaks (es : list board_event) :
  let b := runBoard es in
  intervals (stopAutoRefresh (startAutoRefresh b)) = intervals b /\
  intervals (stopAutoRefresh (startAutoRefresh (startAutoRefresh b))) =
    nextHandle b :: intervals b /\
  destroy (stopAutoRefresh (startAutoRefresh (startAutoRefresh b))) =
    destroy (destroy
      (stopAutoRefresh (startAutoRefresh (startAutoRefresh b)))) /\
  intervals (destroy
    (stopAutoRefresh (startAutoRefresh (startAutoRefresh b)))) =
    nextHandle b :: intervals b.
Proof.
  intros b. pose proof (runBoard_fresh es) as H. fold b in H.
  unfold handles_fresh in H.
  assert (E1 : filter (fun k => negb (Pos.eqb k (nextHandle b)))
                 (intervals b) = intervals b) by now apply filter_fresh.
  assert (E2 : filter (fun k => negb (Pos.eqb k (Pos.succ (nextHandle b))))
                 (intervals b) = intervals b).
  { apply filter_fresh. eapply Forall_impl; [|exact H]. cbn. intros; lia. }
  unfold destroy, stopAutoRefresh, startAutoRefresh.
  cbn [updateInterval intervals nextHandle animationQueue queueTimeouts
       reloadTimeouts notifications filter].
  rewrite Pos.eqb_refl. cbn [negb].
  destruct (Pos.eqb_spec (nextHandle b) (Pos.succ (nextHandle b))) as [E|_];
    [lia|].
  cbn [negb]. rewrite ?E1, ?E2, ?Pos.eqb_refl. cbn [negb].
  repeat split.
Qed.

Lemma notifications_fold (es : list board_event) (b : board) :
  animationQueue b = [] ->
  animationQueue (fold_left board_step es b) = [] /\
  notifications (fold_left board_step es b) =
    (rev (updatesOf es) ++ notifications b)%list.
Proof.
  revert b. induction es as [|e es IH]; intros b Hq.
  - now split.
  - cbn [fold_left].
    assert (S1 : animationQueue (board_step b e) = [] /\
                 notifications (board_step b e) =
                   (rev (updatesOf [e]) ++ notifications b)%list).
    { destruct e; cbn [board_step updatesOf flat_map rev List.app].
      - now split.
      - unfold handleRealtimeUpdate, processAnimationQueue.
        rewrite Hq. cbn. now split.
      - unfold queueTimeout, processAnimationQueue.
        destruct (queueTimeouts b); [now split|]. cbn. rewrite Hq.
        cbn. now split.
      - unfold stopAutoRefresh. destruct (updateInterval b); now split.
      - unfold destroy, stopAutoRefresh.
        destruct (updateInterval b); now split. }
    destruct S1 as [Q N]. destruct (IH _ Q) as [Q' N'].
    split; [exact Q'|]. rewrite N', N.
    assert (E : updatesOf (e :: es) = (updatesOf [e] ++ updatesOf es)%list).
    { unfold updatesOf. cbn [flat_map]. now rewrite List.app_nil_r. }
    now rewrite E, rev_app_distr, <- List.app_assoc.
Qed.

(** X21. The animation queue never holds an entry between two events: every
    [leaderboard_update] is shown at once by the [processAnimationQueue]
    call of its own handler, also while an earlier animation is still on
    the page, and the runs scheduled three seconds later find the queue
    empty.  The notifications shown are the updates received, in order. *)
Theorem animation_queue_is_always_empty (es : list board_event) :
  animationQueue (runBoard es) = [] /\
  notifications (runBoard es) = rev (updatesOf es) /\
  queueTimeout (runBoard es) =
    (match queueTimeouts (runBoard es) with
     | O => runBoard es
     | S n =>
         let b := runBoard es in
         mkBoard (updateInterval b) [] (intervals b) (nextHandle b) n
                 (reloadTimeouts b) (notifications b)
     end).
Proof.
  destruct (notifications_fold es newBoard eq_refl) as [Q N].
  fold (runBoard es) in Q, N. split; [exact Q|]. split.
  - rewrite N. cbn [notifications newBoard]. apply List.app_nil_r.
  - unfold queueTimeout, processAnimationQueue.
    destruct (queueTimeouts (runBoard es)); [reflexivity|].
    cbn [animationQueue]. now rewrite Q.
Qed.

End LeaderboardTimers.

(* ================================================================= *)
(** ** The range of the change percentage *)

Section ChangeRange.

Import Analytics.
Local Open Scope Qc_scope.

Lemma round_at_least (x : Qc) (lo : Z) :
  (inject_Z lo <= this x)%Q -> (lo <= Qfloor (this (x + Q2Qc (1 # 2))%Qc))%Z.
Proof.
  intros H. set (y := x + Q2Qc (1 # 2)).
  assert (Hy : (this y == this x + (1 # 2))%Q).
  { unfold y. cbn [this Qcplus Q2Qc]. rewrite !Qred_correct. reflexivity. }
  rewrite <- (Qfloor_Z lo). apply Qfloor_resp_le. rewrite Hy. lra.
Qed.

Lemma relative_change_at_least (a b : Qc) :
  Q2Qc 0 <= a -> Q2Qc 0 < b ->
  (inject_Z (-100) <= this ((a - b) / b * intQ 100))%Q.
Proof.
  intros Ha Hb.
  replace ((a - b) / b) with (a / b - 1) by (field; now apply pos_neq_0).
  pose proof (Qc_div_nonneg a b Ha Hb) as Hx.
  revert Hx. generalize (a / b). intros x Hx. unfold intQ.
  to_Q. change (inject_Z (-100)) with (-100 # 1)%Q.
  change (inject_Z 100) with (100 # 1)%Q. lra.
Qed.

(** X22. When the average of the metric over the first 5 records is a
    finite number that is not negative, and the average over the last 5
    records is a finite number, [calculateChange] is not below -100: the
    recent average cannot be less than nothing.  There is no such bound
    above. *)
Theorem change_is_at_least_minus_100
    (metric : session -> num) (h : list session) (a b : Qc) :
  average metric (slice_first 5 h) = Fin a ->
  Q2Qc 0 <= a ->
  average metric (slice_last 5 h) = Fin b ->
  leb (ofZ (-100)) (calculateChange (Some h) metric) = true.
Proof.
  intros Ha Ha0 Hb. unfold calculateChange.
  destruct (length h <? 10)%nat; [reflexivity|].
  rewrite Ha, Hb.
  destruct (Qclt_le_dec (Q2Qc 0) b) as [Hpos | Hle].
  - rewrite (gtb_zero_pos _ Hpos). autorewrite with fin.
    rewrite (div_Fin_pos _ _ Hpos). autorewrite with fin.
    unfold round. apply ofZ_le.
    apply round_at_least. now apply relative_change_at_least.
  - rewrite (gtb_zero_nonpos _ Hle). reflexivity.
Qed.

Lemma change_is_at_least_minus_100_witness :
  let s w := Analytics.mkSession (ofZ w) (ofZ 95) None zero zero in
  let h := map s [0; 0; 0; 0; 0; 50; 52; 48; 49; 51]%Z in
  Analytics.average Analytics.wpm (Analytics.slice_first 5 h) = ofZ 0 /\
  Q2Qc 0 <= intQ 0 /\
  Analytics.average Analytics.wpm (Analytics.slice_last 5 h) = ofZ 50 /\
  Analytics.calculateChange (Some h) Analytics.wpm = ofZ (-100) /\
  leb (ofZ (-100)) (Analytics.calculateChange (Some h) Analytics.wpm)
    = true.
Proof.
  intros s h.
  assert (Ha : Analytics.average Analytics.wpm (Analytics.slice_first 5 h)
               = Fin (intQ 0))
    by (apply eqb_eq; vm_compute; reflexivity).
  assert (Ha0 : Q2Qc 0 <= intQ 0) by (vm_compute; discriminate).
  assert (Hb : Analytics.average Analytics.wpm (Analytics.slice_last 5 h)
               = Fin (intQ 50))
    by (apply eqb_eq; vm_compute; reflexivity).
  split; [exact Ha|]. split; [exact Ha0|]. split; [exact Hb|].
  split; [apply eqb_eq; vm_compute; reflexivity|].
  exact (change_is_at_least_minus_100 Analytics.wpm h _ _ Ha Ha0 Hb).
Defined.

End ChangeRange.

(* ================================================================= *)
(** ** The activity heatmap *)

Section HeatmapCells.

Import Analytics Heatmap.
Local Open Scope Qc_scope.

Lemma nth_error_setNth_eq {A : Type} (n : nat) (x : A) (l : list A) :
  (n < length l)%nat -> nth_error (setNth n x l) n = Some x.
Proof.
  revert n. induction l as [|y r IH]; intros [|n] H; cbn in *;
    try lia; trivial.
  apply IH. lia.
Qed.

Lemma nth_error_setNth_neq {A : Type} (n m : nat) (x : A) (l : list A) :
  n <> m -> nth_error (setNth n x l) m = nth_error l m.
Proof.
  revert n m. induction l as [|y r IH]; intros [|n] [|m] H; cbn;
    trivial; try contradiction.
  apply IH. congruence.
Qed.

Lemma nth_error_length {A : Type} (l : list A) (n : nat) (x : A) :
  nth_error l n = Some x -> (n < length l)%nat.
Proof. intros H. apply nth_error_Some. congruence. Qed.

(** One session changes the cell of its day and hour, and no other. *)
Lemma addSession_cell (data : heatmap) (s : stamped) (d h : nat) :
  cellAt (addSession data s) d h =
  if isAt d h s
  then option_map (addToCell (wpm (record s))) (cellAt data d h)
  else cellAt data d h.
Proof.
  unfold addSession, isAt. destruct (date s) as [t|]; [|reflexivity].
  destruct (nth_error data (getDay t)) as [row|] eqn:Er.
  - destruct (nth_error row (getHours t)) as [c|] eqn:Ec.
    + destruct (Nat.eqb_spec (getDay t) d) as [Hd | Hd].
      * subst d. unfold cellAt.
        rewrite (nth_error_setNth_eq _ _ _ (nth_error_length _ _ _ Er)), Er.
        destruct (Nat.eqb_spec (getHours t) h) as [Hh | Hh]; cbn [andb].
        -- subst h.
           rewrite (nth_error_setNth_eq _ _ _ (nth_error_length _ _ _ Ec)).
           now rewrite Ec.
        -- now apply nth_error_setNth_neq.
      * cbn [andb]. unfold cellAt. now rewrite nth_error_setNth_neq.
    + destruct (Nat.eqb_spec (getDay t) d) as [Hd | Hd]; [|reflexivity].
      destruct (Nat.eqb_spec (getHours t) h) as [Hh | Hh]; [|reflexivity].
      subst. unfold cellAt. now rewrite Er, Ec.
  - destruct (Nat.eqb_spec (getDay t) d) as [Hd | Hd]; [|reflexivity].
    destruct (Nat.eqb_spec (getHours t) h) as [Hh | Hh]; [|reflexivity].
    subst. unfold cellAt. now rewrite Er.
Qed.

Lemma fold_addSession_cell (history : list stamped) (data : heatmap)
    (d h : nat) :
  cellAt (fold_left addSession history data) d h =
  option_map
    (fun c => fold_left (fun c' s => addToCell (wpm (record s)) c')
                        (filter (isAt d h) history) c)
    (cellAt data d h).
Proof.
  revert data. induction history as [|s l IH]; intros data.
  - cbn. now destruct (cellAt data d h).
  - cbn [fold_left filter]. rewrite IH, addSession_cell.
    destruct (isAt d h s); [|reflexivity].
    now destruct (cellAt data d h).
Qed.

Lemma fold_addToCell (here : list stamped) (c : cell) :
  fold_left (fun c' s => addToCell (wpm (record s)) c') here c =
  mkCell (count c + length here)
         (match here with
          | [] => avgWpm c
          | _ :: _ =>
              div (fold_left add (map (fun s => wpm (record s)) here)
                             (totalWpm c))
                  (ofNat (count c + length here))
          end)
         (fold_left add (map (fun s => wpm (record s)) here) (totalWpm c)).
Proof.
  revert c. induction here as [|s l IH]; intros c.
  - cbn. rewrite Nat.add_0_r. now destruct c.
  - cbn [fold_left map length]. rewrite IH.
    cbn [addToCell count totalWpm avgWpm].
    destruct l; cbn [length Nat.add fold_left map];
      rewrite ?Nat.add_succ_r, ?Nat.add_0_r; reflexivity.
Qed.

Lemma initialData_cell (d h : nat) :
  (d < 7)%nat -> (h < 24)%nat -> cellAt initialData d h = Some emptyCell.
Proof.
  intros Hd Hh. unfold cellAt, initialData, days.
  do 7 (destruct d as [|d]; [cbn [map nth_error]; apply nth_error_repeat;
                             exact Hh|]).
  lia.
Qed.

(** X23. The cell of day [d] and hour [h] that [prepareHeatmapData] returns
    counts the sessions of the history that fall on that day and hour,
    holds the sum of their WPM taken in the order of the history, and
    their average (0 for a cell without session).  A session whose
    timestamp is no valid date is counted nowhere. *)
Theorem heatmap_cell_counts_its_sessions
    (history : list stamped) (d h : nat) :
  (d < 7)%nat -> (h < 24)%nat ->
  let here := map (fun s => wpm (record s)) (filter (isAt d h) history) in
  cellAt (prepareHeatmapData history) d h =
  Some (mkCell (length here)
               (match here with
                | [] => zero
                | _ :: _ => div (sum here) (ofNat (length here))
                end)
               (sum here)).
Proof.
  intros Hd Hh here. unfold prepareHeatmapData.
  rewrite fold_addSession_cell, (initialData_cell d h Hd Hh).
  cbn [option_map]. rewrite fold_addToCell.
  cbn [count emptyCell totalWpm avgWpm Nat.add]. unfold here, sum.
  rewrite length_map.
  now destruct (filter (isAt d h) history).
Qed.

Lemma heatmap_cell_counts_its_sessions_witness :
  let s d h w :=
    mkStamped (Some (mkLocal d h)) (mkSession (ofZ w) (ofZ 95) None zero zero) in
  let history :=
    [s 1 9 60%Z; mkStamped None (mkSession (ofZ 70) (ofZ 90) None zero zero);
     s 1 9 40%Z; s 2 9 55%Z]%nat in
  (1 < 7)%nat /\ (9 < 24)%nat /\
  cellAt (prepareHeatmapData history) 1 9 =
  Some (mkCell 2 (ofZ 50) (ofZ 100)).
Proof.
  intros s history.
  assert (Hd : (1 < 7)%nat) by lia.
  assert (Hh : (9 < 24)%nat) by lia.
  split; [exact Hd|]. split; [exact Hh|].
  rewrite (heatmap_cell_counts_its_sessions history 1 9 Hd Hh).
  cbn [history s filter isAt date getDay getHours Nat.eqb andb map record
       wpm length].
  f_equal. f_equal; apply eqb_eq; vm_compute; reflexivity.
Defined.

Lemma fold_max_le (row : list cell) (m : nat) :
  (m <= fold_left (fun m' c => if (m' <? count c)%nat then count c else m')
                  row m)%nat /\
  forall c, In c row ->
    (count c <= fold_left (fun m' c => if (m' <? count c)%nat
                                       then count c else m') row m)%nat.
Proof.
  revert m. induction row as [|x r IH]; intros m; cbn [fold_left].
  - split; [lia | intros c []].
  - destruct (IH (if (m <? count x)%nat then count x else m)) as [H1 H2].
    destruct (Nat.ltb_spec m (count x)) as [Hlt | Hge].
    + split; [lia|]. intros c [<- | Hc]; [exact H1 | now apply H2].
    + split; [exact H1|]. intros c [<- | Hc]; [lia | now apply H2].
Qed.

Lemma fold_rows_le (data : heatmap) (m : nat) :
  (m <= fold_left
          (fun m0 dayData =>
             fold_left (fun m' c => if (m' <? count c)%nat
                                    then count c else m') dayData m0)
          data m)%nat /\
  forall c, In c (List.concat data) ->
    (count c <= fold_left
          (fun m0 dayData =>
             fold_left (fun m' c => if (m' <? count c)%nat
                                    then count c else m') dayData m0)
          data m)%nat.
Proof.
  revert m. induction data as [|row rows IH]; intros m;
    cbn [fold_left List.concat].
  - split; [lia | intros c []].
  - destruct (fold_max_le row m) as [R1 R2].
    destruct (IH (fold_left (fun m' c => if (m' <? count c)%nat
                                         then count c else m') row m))
      as [H1 H2].
    split; [lia|]. intros c Hc. apply in_app_or in Hc.
    destruct Hc as [Hc | Hc]; [|now apply H2].
    specialize (R2 c Hc). lia.
Qed.

Lemma count_le_maxValue (data : heatmap) (c : cell) :
  In c (List.concat data) -> (count c <= maxValue data)%nat.
Proof. intros H. now apply (proj2 (fold_rows_le data 0%nat)). Qed.

(** X24. The opacity [renderHeatmap] gives a cell lies between 0.1 and 1,
    it is 1 for a cell whose count is the largest of the map, and 0.1 for
    every cell of a map without session. *)
Theorem heatmap_opacity_range (data : heatmap) (c : cell) :
  In c (List.concat data) ->
  leb (Fin (Q2Qc (1 # 10))) (alpha data c) = true /\
  leb (alpha data c) (ofZ 1) = true /\
  ((0 < count c)%nat -> count c = maxValue data ->
   alpha data c = ofZ 1) /\
  (maxValue data = 0%nat -> alpha data c = Fin (Q2Qc (1 # 10))).
Proof.
  intros Hc. pose proof (count_le_maxValue data c Hc) as Hle.
  unfold alpha.
  destruct (Nat.ltb_spec 0 (maxValue data)) as [Hpos | Hzero].
  - rewrite !ofNat_Fin, (div_Fin_pos _ _ (natQ_pos _ Hpos)).
    pose proof (natQ_pos _ Hpos) as HM.
    pose proof (natQ_le _ _ Hle) as Hq.
    pose proof (natQ_nonneg (count c)) as H0.
    assert (Hr : natQ (count c) / natQ (maxValue data) <= Q2Qc 1).
    { revert HM Hq. generalize (natQ (count c)), (natQ (maxValue data)).
      intros a b HM Hq. to_Q. apply Qle_shift_div_r; [exact HM|]. lra. }
    set (r := natQ (count c) / natQ (maxValue data)) in *.
    unfold max2.
    destruct (ltb (Fin (Q2Qc (1 # 10))) (Fin r)) eqn:E.
    + split; [|split; [|split]].
      * apply ltb_Fin in E. apply leb_Fin. now apply Qclt_le_weak.
      * now apply leb_Fin.
      * intros Hc0 Heq. unfold r. rewrite Heq, ofZ_Fin. f_equal.
        change (intQ 1) with (Q2Qc 1). field. now apply pos_neq_0.
      * intros Hm. lia.
    + split; [|split; [|split]].
      * apply leb_Fin. apply Qcle_refl'.
      * vm_compute. reflexivity.
      * intros Hc0 Heq. exfalso.
        assert (E' : r <= Q2Qc (1 # 10)).
        { destruct (Qclt_le_dec (Q2Qc (1 # 10)) r) as [Hlt | Hle0];
            [|exact Hle0].
          rewrite (ltb_Fin_true _ _ Hlt) in E. discriminate E. }
        clear E. rename E' into E.
        assert (Hone : r = Q2Qc 1).
        { unfold r. rewrite Heq. field. now apply pos_neq_0. }
        rewrite Hone in E. revert E. to_Q. lra.
      * intros Hm. lia.
  - assert (Hm : maxValue data = 0%nat) by lia.
    unfold max2, zero. rewrite ofZ_Fin.
    assert (E : ltb (Fin (Q2Qc (1 # 10))) (Fin (intQ 0)) = false)
      by (vm_compute; reflexivity).
    rewrite E. split; [|split; [|split]].
    + apply leb_Fin. apply Qcle_refl'.
    + vm_compute. reflexivity.
    + intros Hc0 Heq. lia.
    + reflexivity.
Qed.

Lemma heatmap_opacity_range_witness :
  let c := mkCell 2 (ofZ 50) (ofZ 100) in
  let data := [[mkCell 1 (ofZ 40) (ofZ 40); c]; [emptyCell]] in
  In c (List.concat data) /\
  leb (Fin (Q2Qc (1 # 10))) (alpha data c) = true /\
  leb (alpha data c) (ofZ 1) = true.
Proof.
  intros c data.
  assert (Hc : In c (List.concat data)) by (right; left; reflexivity).
  split; [exact Hc|].
  destruct (heatmap_opacity_range data c Hc) as [H1 [H2 _]].
  split; [exact H1 | exact H2].
Defined.

End HeatmapCells.

(* ================================================================= *)
(** ** Performance by hour of the day *)

Section BestHour.

Import Analytics Insights Heatmap Hours.
Local Open Scope Qc_scope.

Lemma key_eqb_eq (a b : key) : key_eqb a b = true <-> a = b.
Proof.
  destruct a as [x|], b as [y|]; cbn; try (split; congruence).
  rewrite Nat.eqb_eq. split; congruence.
Qed.

Lemma key_eqb_refl (a : key) : key_eqb a a = true.
Proof. now apply key_eqb_eq. Qed.

Lemma key_eqb_sym (a b : key) : key_eqb a b = key_eqb b a.
Proof.
  destruct a as [x|], b as [y|]; cbn; trivial. apply Nat.eqb_sym.
Qed.

Lemma lookup_store (k k' : key) (b : bucket) (h : hourly) :
  lookup k (store k' b h) = if key_eqb k k' then Some b else lookup k h.
Proof.
  induction h as [|[k0 b0] r IH]; cbn [store lookup].
  - reflexivity.
  - destruct (key_eqb k' k0) eqn:E0; cbn [lookup].
    + apply key_eqb_eq in E0. subst k0.
      now destruct (key_eqb k k').
    + destruct (key_eqb k k0) eqn:E1.
      * apply key_eqb_eq in E1. subst k0.
        rewrite key_eqb_sym in E0. now rewrite E0.
      * exact IH.
Qed.

Lemma lookup_addHour (k : key) (h : hourly) (s : stamped) :
  lookup k (addHour h s) =
  if atHour k s then Some (addToBucket (record s) (entry k h))
  else lookup k h.
Proof.
  unfold addHour, atHour. rewrite lookup_store, (key_eqb_sym k).
  destruct (key_eqb (hourKey s) k) eqn:E; [|reflexivity].
  apply key_eqb_eq in E. now rewrite E.
Qed.

Lemma lookup_fold_addHour (k : key) (l : list stamped) (h : hourly) :
  lookup k (fold_left addHour l h) =
  match filter (atHour k) l with
  | [] => lookup k h
  | _ :: _ =>
      Some (fold_left (fun b s => addToBucket (record s) b)
                      (filter (atHour k) l) (entry k h))
  end.
Proof.
  revert h. induction l as [|s l IH]; intros h; [reflexivity|].
  cbn [fold_left filter]. rewrite IH.
  pose proof (lookup_addHour k h s) as E.
  destruct (atHour k s).
  - cbn [fold_left]. unfold entry at 1. rewrite E.
    now destruct (filter (atHour k) l).
  - unfold entry at 1. rewrite E. reflexivity.
Qed.

Lemma fold_addToBucket (here : list stamped) (b : bucket) :
  fold_left (fun b' s => addToBucket (record s) b') here b =
  mkBucket
    (fold_left (fun acc s => add acc (wpm s)) (map record here) (total b))
    (bcount b + length here)
    (fold_left (fun acc s => add acc (accuracy s)) (map record here)
               (accuracySum b)).
Proof.
  revert b. induction here as [|s l IH]; intros b.
  - cbn. rewrite Nat.add_0_r. now destruct b.
  - cbn [fold_left map length]. rewrite IH.
    cbn [addToBucket total bcount accuracySum Nat.add].
    now rewrite Nat.add_succ_r.
Qed.

(** The entry of an hour holds the sessions of that hour. *)
Lemma hourly_entry (k : key) (history : list stamped) :
  lookup k (hourlyPerformance history) =
  match sessionsAt k history with
  | [] => None
  | _ :: _ =>
      Some (mkBucket
              (fold_left (fun acc s => add acc (wpm s))
                         (sessionsAt k history) zero)
              (length (sessionsAt k history))
              (fold_left (fun acc s => add acc (accuracy s))
                         (sessionsAt k history) zero))
  end.
Proof.
  unfold hourlyPerformance, sessionsAt. rewrite lookup_fold_addHour.
  destruct (filter (atHour k) history) as [|s l] eqn:E; [reflexivity|].
  rewrite fold_addToBucket. cbn [entry lookup emptyBucket total bcount
                                 accuracySum Nat.add].
  unfold entry. cbn [lookup emptyBucket total bcount accuracySum Nat.add].
  now rewrite length_map.
Qed.

Lemma hourly_average (k : key) (history : list stamped) (b : bucket) :
  lookup k (hourlyPerformance history) = Some b ->
  sessionsAt k history <> [] /\
  avgOf b = average wpm (sessionsAt k history).
Proof.
  rewrite hourly_entry.
  destruct (sessionsAt k history) as [|s l] eqn:E; [discriminate|].
  intros H. injection H as <-. split; [discriminate|]. reflexivity.
Qed.

Lemma hourly_present (k : key) (history : list stamped) :
  sessionsAt k history <> [] ->
  exists b, lookup k (hourlyPerformance history) = Some b.
Proof.
  intros H. rewrite hourly_entry.
  destruct (sessionsAt k history); [contradiction|]. eauto.
Qed.

(** *** The keys *)

Lemma In_insertSorted (x y : nat) (l : list nat) :
  In x (insertSorted y l) <-> x = y \/ In x l.
Proof.
  induction l as [|z r IH]; cbn [insertSorted].
  - cbn. intuition.
  - destruct (y <=? z)%nat; cbn [In] in *; rewrite ?IH; intuition.
Qed.

Lemma In_sortNat (x : nat) (l : list nat) : In x (sortNat l) <-> In x l.
Proof.
  unfold sortNat. induction l as [|y r IH]; cbn [fold_right]; [reflexivity|].
  rewrite In_insertSorted, IH. cbn. intuition.
Qed.

Lemma lookup_in_keys (k : key) (h : hourly) (b : bucket) :
  lookup k h = Some b -> In k (objectKeys h).
Proof.
  intros H. unfold objectKeys. apply in_or_app.
  destruct k as [x|].
  - left. apply in_map. apply In_sortNat. unfold integerKeys.
    induction h as [|[k0 b0] r IH]; [discriminate|].
    cbn [lookup] in H. cbn [flat_map fst]. apply in_or_app.
    destruct (key_eqb (Some x) k0) eqn:E.
    + apply key_eqb_eq in E. subst k0. left. now left.
    + right. now apply IH.
  - right.
    assert (E : existsb (fun e => key_eqb (fst e) None) h = true).
    { induction h as [|[k0 b0] r IH]; [discriminate|].
      cbn [lookup] in H. cbn [existsb fst].
      destruct k0 as [y|]; cbn in *; [now apply IH | reflexivity]. }
    rewrite E. now left.
Qed.

(** *** The loop over the keys *)

Lemma better_fold (h : hourly) (keys : list key) (best : key * num)
    (q0 : Qc) :
  snd best = Fin q0 ->
  (forall k b, lookup k h = Some b -> exists q, avgOf b = Fin q) ->
  exists q,
    snd (fold_left (better h) keys best) = Fin q /\ q0 <= q /\
    (forall k b, In k keys -> lookup k h = Some b ->
       exists a, avgOf b = Fin a /\ a <= q) /\
    (fold_left (better h) keys best = best \/
     exists k b, lookup k h = Some b /\
                 fold_left (better h) keys best = (k, avgOf b)).
Proof.
  intros Hbest Hfin. revert best q0 Hbest.
  induction keys as [|k keys IH]; intros best q0 Hbest.
  - exists q0. cbn [fold_left]. repeat split; trivial.
    + apply Qcle_refl'.
    + intros k b [].
    + now left.
  - cbn [fold_left].
    assert (Hstep : exists q1,
      snd (better h best k) = Fin q1 /\ q0 <= q1 /\
      (forall b, lookup k h = Some b ->
         exists a, avgOf b = Fin a /\ a <= q1) /\
      (better h best k = best \/
       exists b, lookup k h = Some b /\ better h best k = (k, avgOf b))).
    { unfold better. destruct (lookup k h) as [b|] eqn:Eb.
      - destruct (Hfin k b Eb) as [a Ha]. rewrite Ha, Hbest.
        unfold gtb.
        destruct (Qclt_le_dec q0 a) as [Hlt | Hle].
        + rewrite (ltb_Fin_true _ _ Hlt). exists a. cbn [snd].
          split; [reflexivity|]. split; [now apply Qclt_le_weak|].
          split.
          * intros b' Hb'. injection Hb' as <-. exists a.
            split; [exact Ha | apply Qcle_refl'].
          * right. exists b. split; [reflexivity|]. now rewrite Ha.
        + rewrite (ltb_Fin_false _ _ Hle). exists q0.
          split; [exact Hbest|]. split; [apply Qcle_refl'|]. split.
          * intros b' Hb'. injection Hb' as <-. exists a. now split.
          * now left.
      - exists q0. split; [exact Hbest|]. split; [apply Qcle_refl'|].
        split; [intros b' Hb'; discriminate | now left]. }
    destruct Hstep as [q1 [H1 [H01 [Hk Hor]]]].
    destruct (IH (better h best k) q1 H1) as [q [Hq [H1q [Hall Hex]]]].
    exists q. split; [exact Hq|]. split.
    { eapply Qcle_trans'; eassumption. }
    split.
    + intros k' b [<- | Hin] Hb.
      * destruct (Hk b Hb) as [a [Ha Hle]]. exists a.
        split; [exact Ha|]. eapply Qcle_trans'; eassumption.
      * exact (Hall k' b Hin Hb).
    + destruct Hex as [Hsame | Hex]; [|now right].
      rewrite Hsame. destruct Hor as [Hb | [b [Hb Heq]]].
      * now left.
      * right. exists k, b. now split.
Qed.

Lemma finite_sessionsAt (k : key) (history : list stamped) :
  finiteWpm history ->
  allFinite (map wpm (sessionsAt k history)) = true.
Proof.
  intros H. unfold allFinite, sessionsAt. apply forallb_forall.
  intros x Hx. apply in_map_iff in Hx. destruct Hx as [s [<- Hs]].
  apply in_map_iff in Hs. destruct Hs as [t [<- Ht]].
  apply filter_In in Ht. apply H. exact (proj1 Ht).
Qed.

Lemma finite_average (k : key) (history : list stamped) :
  finiteWpm history -> sessionsAt k history <> [] ->
  exists q, average wpm (sessionsAt k history) = Fin q.
Proof.
  intros H Hne.
  pose proof (allFinite_map _ (finite_sessionsAt k history H)) as E.
  eexists. apply (average_Fin wpm _ _ E).
  destruct (sessionsAt k history); [contradiction | cbn; lia].
Qed.

(** X25. For a history of finite WPM values, the [bestWpm] that
    [analyzeTimePatterns] returns is at least the average WPM of every
    hour of the day that has a session, and at least 0; it is the average
    of the hour [bestHour], unless no hour has an average above 0, when
    the result is hour 0 with 0 WPM. *)
Theorem best_hour_has_the_largest_average (history : list stamped) :
  finiteWpm history ->
  let r := analyzeTimePatterns history in
  (forall k, sessionsAt k history <> [] ->
     leb (average wpm (sessionsAt k history)) (bestWpm r) = true) /\
  leb zero (bestWpm r) = true /\
  ((bestHour r = Some 0%nat /\ bestWpm r = zero) \/
   (sessionsAt (bestHour r) history <> [] /\
    bestWpm r = average wpm (sessionsAt (bestHour r) history))).
Proof.
  intros Hfin r. unfold r, analyzeTimePatterns. cbn [bestHour bestWpm].
  set (h := hourlyPerformance history).
  assert (Hh : forall k b, lookup k h = Some b -> exists q, avgOf b = Fin q).
  { intros k b Hb. destruct (hourly_average k history b Hb) as [Hne Havg].
    rewrite Havg. now apply finite_average. }
  destruct (better_fold h (objectKeys h) (Some 0%nat, zero) (Q2Qc 0)
              eq_refl Hh) as [q [Hq [H0 [Hall Hex]]]].
  split; [|split].
  - intros k Hne. destruct (hourly_present k history Hne) as [b Hb].
    fold h in Hb.
    destruct (Hall k b (lookup_in_keys k h b Hb) Hb) as [a [Ha Hle]].
    destruct (hourly_average k history b Hb) as [_ Havg].
    rewrite <- Havg, Ha, Hq. now apply leb_Fin.
  - rewrite Hq, zero_Fin. apply leb_Fin. exact H0.
  - destruct Hex as [Hsame | [k [b [Hb Heq]]]].
    + left. rewrite Hsame. now split.
    + right. rewrite Heq. cbn [fst snd].
      destruct (hourly_average k history b Hb) as [Hne Havg].
      now split.
Qed.

Lemma best_hour_has_the_largest_average_witness :
  let s h w :=
    mkStamped (Some (mkLocal 1 h))
              (mkSession (ofZ w) (ofZ 95) None zero zero) in
  let history := [s 9%nat 60%Z; s 21%nat 80%Z; s 9%nat 50%Z] in
  finiteWpm history /\
  leb (average wpm (sessionsAt (Some 9%nat) history))
      (bestWpm (analyzeTimePatterns history)) = true.
Proof.
  intros s history.
  assert (Hfin : finiteWpm history).
  { intros x Hx. cbn in Hx.
    repeat (destruct Hx as [Hx | Hx]; [subst x; reflexivity|]).
    contradiction. }
  split; [exact Hfin|].
  apply (proj1 (best_hour_has_the_largest_average history Hfin)).
  discriminate.
Defined.

End BestHour.

(* ================================================================= *)
(** * The metrics that depend on rounding, in binary64 *)

(** ** The shape of rounded results *)

Section Binary64Facts.

Import Binary64.

(** Rounding keeps the sign it is given. *)
Lemma binary_round_aux_shape (s : bool) (m e : Z) (l : location) :
  let r := binary_round_aux prec emax s m e l in
  r = S754_zero s \/ (exists m' e', r = S754_finite s m' e') \/
  r = S754_infinity s \/ r = S754_nan.
Proof.
  unfold binary_round_aux.
  destruct (shr_fexp prec emax m e l) as [mrs' e'].
  destruct (shr_fexp prec emax _ e' loc_Exact) as [mrs'' e''].
  destruct (shr_m mrs'') as [|p|p]; [now left | | now right; right; right].
  destruct (e'' <=? emax - prec)%Z;
    [right; left; eauto | right; right; now left].
Qed.

Lemma ofZ_neg_shape (p : positive) :
  ofZ (Z.neg p) = S754_zero true \/
  (exists m e, ofZ (Z.neg p) = S754_finite true m e) \/
  ofZ (Z.neg p) = S754_infinity true \/ ofZ (Z.neg p) = S754_nan.
Proof.
  unfold ofZ, binary_normalize, binary_round.
  destruct (shl_align _ _ _) as [mz ez]. apply binary_round_aux_shape.
Qed.

Lemma ofZ_pos_shape (p : positive) :
  ofZ (Z.pos p) = S754_zero false \/
  (exists m e, ofZ (Z.pos p) = S754_finite false m e) \/
  ofZ (Z.pos p) = S754_infinity false \/ ofZ (Z.pos p) = S754_nan.
Proof.
  unfold ofZ, binary_normalize, binary_round.
  destruct (shl_align _ _ _) as [mz ez]. apply binary_round_aux_shape.
Qed.

(** [x - x] is [+0] for every finite [x]. *)
Lemma sub_self (v : float) : is_finite v = true -> sub v v = zero.
Proof.
  destruct v as [[|]|s| |s m e]; try discriminate; intros _;
    try reflexivity.
  unfold sub, SFsub. rewrite Z.min_id.
  generalize (cond_Zopp s (Z.pos (fst (shl_align m e e)))). intros x.
  replace (x - x)%Z with 0%Z by lia. reflexivity.
Qed.

Lemma sum_of_zeros (n : nat) : sum (repeat zero n) = zero.
Proof.
  unfold sum. induction n as [|n IH]; [reflexivity|].
  cbn [repeat fold_left]. exact IH.
Qed.


End Binary64Facts.

(* ================================================================= *)
(** ** Accuracy *)

Section Accuracy64.

Import Binary64 App64.





End Accuracy64.

(* ================================================================= *)
(** ** Words per minute *)

Section Wpm64.

Import Binary64 App64.

(** C2 fails on the live path, whose WPM is rounded to an integer: one
    word after 7 seconds is [60/7 = 8.57...] words per minute, and
    [calculateLocalMetrics] shows 9. *)
Lemma C2_wpm_counterexample :
  wpm (localMetrics (lit "abc") (lit "a") 7000) = ofZ 9 /\
  claimedWpm (lit "a") 7000 = div (ofZ 1) (div (ofZ 7) (ofZ 60)) /\
  ltb (claimedWpm (lit "a") 7000) (ofZ 9) = true /\
  wpm (localMetrics (lit "abc") (lit "a") 7000) <>
    claimedWpm (lit "a") 7000.
Proof.
  repeat (split; [vm_compute; first [reflexivity | discriminate]|]).
  vm_compute. discriminate.
Qed.

(** Nor is the live WPM the nearest integer to the quotient of the word
    count by the minutes: 23 words after 184 seconds are 7.5 words per
    minute, the code computes [7.499999999999999] on both paths and shows
    7. *)
Example wpm_of_23_words_in_184_seconds :
  let typed := List.concat (repeat (lit "ab ") 23) in
  App.wordCount typed = 23%nat /\
  wpm (localMetrics (lit "abc") typed 184000) = ofZ 7 /\
  finalWpm typed 184000 = S754_finite false 8444249301319679 (-50) /\
  ltb (finalWpm typed 184000) (dec 75 10) = true /\
  round2 (finalWpm typed 184000) = dec 75 10.
Proof.
  intros typed.
  repeat (split; [vm_compute; reflexivity|]).
  vm_compute. reflexivity.
Qed.

Lemma sixty_thousand : mul (ofZ 1000) (ofZ 60) = ofZ 60000.
Proof. vm_compute. reflexivity. Qed.

(** No time has elapsed: [elapsedMinutes > 0] is false. *)
Lemma minutes_not_positive (ms : Z) :
  (ms <= 0)%Z -> gtb (div (ofZ ms) (ofZ 60000)) zero = false.
Proof.
  intros H. destruct ms as [|p|p]; [reflexivity | lia |].
  assert (E : ofZ 60000 = S754_finite false 8246337208320000 (-37))
    by (vm_compute; reflexivity).
  rewrite E.
  destruct (ofZ_neg_shape p) as [S | [[m [e S]] | [S | S]]]; rewrite S;
    try reflexivity.
  unfold div, SFdiv.
  destruct (SFdiv_core_binary prec emax (Z.pos m) e
              (Z.pos 8246337208320000) (-37)) as [[mz ez] lz].
  destruct (binary_round_aux_shape (xorb true false) mz ez lz)
    as [R | [[m' [e' R]] | [R | R]]]; rewrite R; reflexivity.
Qed.

Lemma liveWpm64 (p typed : jsstring) (elapsedMs : Z) :
  App.hasWord typed = true ->
  wpm (localMetrics p typed elapsedMs) = amendedLiveWpm typed elapsedMs.
Proof.
  intros Hw. unfold localMetrics, amendedLiveWpm. cbn [wpm].
  now rewrite sixty_thousand, (words_is_wordCount typed Hw).
Qed.

(** C2, amended.  For a typed string that holds a word, the word count of
    the code is the number of non-empty whitespace-separated pieces; the
    WPM of [calculateLocalMetrics] is
    [Math.round(wordCount / elapsedMinutes)] when
    [elapsedMinutes = elapsedMs / 60000] is greater than 0 and 0
    otherwise, and it is 0 when no time has elapsed; the WPM of
    [submitTest] is
    [wordCount / ((elapsedMs / 1000) / 60)], submitted as
    [Math.round(wpm * 100) / 100]; every operation is rounded to binary64.
    The sentence "The quick brown fox jumps" has 5 words and gives WPM 5
    on both paths at one minute. *)
Theorem C2_wpm (t : App.test) (typed : jsstring) (elapsedMs : Z) :
  App.hasWord typed = true ->
  App.words typed = App.wordCount typed /\
  wpm (localMetrics (App.prompt t) typed elapsedMs) =
    amendedLiveWpm typed elapsedMs /\
  ((elapsedMs <= 0)%Z ->
   wpm (localMetrics (App.prompt t) typed elapsedMs) = zero) /\
  finalWpm typed elapsedMs = amendedFinalWpm typed elapsedMs /\
  sub_wpm (submissionData t typed (App.startInstant t + elapsedMs)) =
    round2 (amendedFinalWpm typed elapsedMs) /\
  App.words App.fiveWords = 5%nat /\
  App.wordCount App.fiveWords = 5%nat /\
  wpm (localMetrics (App.prompt t) App.fiveWords 60000) = ofZ 5 /\
  finalWpm App.fiveWords 60000 = ofZ 5.
Proof.
  intros Hw.
  pose proof (words_is_wordCount typed Hw) as Hwords.
  pose proof (liveWpm64 (App.prompt t) typed elapsedMs Hw) as Hl.
  assert (Hf : finalWpm typed elapsedMs = amendedFinalWpm typed elapsedMs).
  { unfold finalWpm, amendedFinalWpm. now rewrite Hwords. }
  split; [exact Hwords|]. split; [exact Hl|].
  split.
  { intros Hle. rewrite Hl. unfold amendedLiveWpm.
    now rewrite (minutes_not_positive elapsedMs Hle). }
  split; [exact Hf|].
  split.
  { unfold submissionData. cbn [sub_wpm].
    replace (App.startInstant t + elapsedMs - App.startInstant t)%Z
      with elapsedMs by lia.
    now rewrite Hf. }
  split; [reflexivity|]. split; [reflexivity|].
  split.
  - rewrite (liveWpm64 (App.prompt t) App.fiveWords 60000) by reflexivity.
    vm_compute. reflexivity.
  - vm_compute. reflexivity.
Qed.

Lemma C2_wpm_witness :
  let t := App.mkTest App.fiveWords "easy" "general" (Some 1000%Z) in
  let typed := lit "The quick" in
  App.hasWord typed = true /\
  App.words typed = App.wordCount typed /\
  wpm (localMetrics (App.prompt t) typed 30000) = ofZ 4 /\
  finalWpm typed 30000 = ofZ 4.
Proof.
  intros t typed.
  assert (Hw : App.hasWord typed = true) by reflexivity.
  destruct (C2_wpm t typed 30000 Hw) as [H1 [H2 [_ [H3 _]]]].
  split; [exact Hw|]. split; [exact H1|]. split.
  - rewrite H2. vm_compute. reflexivity.
  - rewrite H3. vm_compute. reflexivity.
Defined.

End Wpm64.

(* ================================================================= *)
(** ** The change percentage *)

Section Change64.

Import Binary64 Analytics64.

(** C5 fails where the order of the operations shows.  The recent five
    sessions average 63 WPM and the older five 40: [(63 - 40) / 40] is
    rounded to binary64 before it is multiplied by 100, the product is
    [57.49999999999999], and [calculateChange] returns 57, where
    [round(100 * 23 / 40)] is 58. *)
Lemma C5_change_counterexample :
  let h := map (fun w => sessionOfWpm (ofZ w))
               [72; 41; 89; 62; 51; 47; 39; 56; 29; 29]%Z in
  specAverage wpm (firstn 5 h) = ofZ 63 /\
  specAverage wpm (lastRecords 5 h) = ofZ 40 /\
  calculateChange (Some h) wpm = ofZ 57 /\
  claimedChange h wpm = ofZ 58 /\
  calculateChange (Some h) wpm <> claimedChange h wpm.
Proof.
  intros h.
  repeat (split; [vm_compute; first [reflexivity | discriminate]|]).
  vm_compute. discriminate.
Qed.

Lemma reduce_is_sum64 (metric : session -> float) (l : list session)
    (a : float) :
  fold_left (fun acc s => add acc (metric s)) l a =
  fold_left add (map metric l) a.
Proof.
  revert a. induction l as [|s l IH]; intros a; [reflexivity|].
  cbn [fold_left map]. apply IH.
Qed.

Lemma average_is_specAverage64 (metric : session -> float)
    (l : list session) :
  average metric l = specAverage metric l.
Proof. unfold average, specAverage, sum. now rewrite reduce_is_sum64. Qed.

Lemma slice_last_is_lastRecords64 (k : nat) (h : list session) :
  Analytics.slice_last k h = lastRecords k h.
Proof.
  unfold Analytics.slice_last, lastRecords.
  rewrite firstn_rev. now rewrite rev_involutive.
Qed.

(** C5, amended.  [calculateChange] is 0 when there are fewer than 10
    records; otherwise, for [a] the average of the metric over the first 5
    records and [b] the average over the last 5, it is 0 unless [b] is
    greater than 0, and [Math.round(((a - b) / b) * 100)] when it is,
    every operation rounded to binary64 in this order: it equals
    [amendedChange]. *)
Theorem C5_calculateChange (h : list session) (metric : session -> float) :
  ((length h < 10)%nat -> calculateChange (Some h) metric = zero) /\
  calculateChange None metric = zero /\
  ((10 <= length h)%nat ->
   length (firstn 5 h) = 5%nat /\ length (lastRecords 5 h) = 5%nat) /\
  calculateChange (Some h) metric = amendedChange h metric.
Proof.
  split.
  { intros H. unfold calculateChange. apply Nat.ltb_lt in H.
    now rewrite H. }
  split; [reflexivity|].
  split.
  { intros H. unfold lastRecords.
    rewrite length_rev, !length_firstn, length_rev. lia. }
  unfold calculateChange, amendedChange.
  destruct (length h <? 10)%nat; [reflexivity|].
  unfold Analytics.slice_first. rewrite slice_last_is_lastRecords64.
  now rewrite !average_is_specAverage64.
Qed.

(** Ten sessions, most recent first: the recent five average 60 WPM, the
    older five 50 WPM, a change of 20 percent. *)
Lemma C5_calculateChange_witness :
  let h := map (fun w => sessionOfWpm (ofZ w))
               [62; 60; 58; 61; 59; 50; 52; 48; 49; 51]%Z in
  calculateChange (Some h) wpm = amendedChange h wpm /\
  amendedChange h wpm = ofZ 20.
Proof.
  intros h. split.
  - exact (proj2 (proj2 (proj2 (C5_calculateChange h wpm)))).
  - vm_compute. reflexivity.
Defined.

End Change64.

(* ================================================================= *)
(** ** The variance of a constant series *)

Section Variance64.

Import Binary64 Analytics64.

(** C8 fails where the mean is not the constant itself.  Three times
    21.35 sum to [64.05000000000001], the mean is [21.350000000000005],
    and the variance is [2^-96], not 0.  Seven times 12345678901.1 have the
    variance [2^-38], and the consistency score is
    [99.99999999999963], not 100. *)
Lemma C8_variance_counterexample :
  let v := dec 2135 100 in
  let w := dec 123456789011 10 in
  v = S754_finite false 6009490752772506 (-48) /\
  sum [v; v; v] = dec 6405000000000001 100000000000000 /\
  meanOf [v; v; v] = S754_finite false 6009490752772507 (-48) /\
  ltb v (meanOf [v; v; v]) = true /\
  calculateVariance [v; v; v] = S754_finite false 4503599627370496 (-148) /\
  gtb (calculateVariance [v; v; v]) zero = true /\
  calculateVariance (repeat w 7) = S754_finite false 4503599627370496 (-90) /\
  gtb (calculateVariance (repeat w 7)) zero = true /\
  consistencyOf (calculateVariance (repeat w 7)) =
    S754_finite false 7036874417766374 (-46) /\
  ltb (consistencyOf (calculateVariance (repeat w 7))) hundred = true.
Proof.
  intros v w.
  repeat (split; [vm_compute; reflexivity|]).
  vm_compute. reflexivity.
Qed.

Lemma squares_of_constant (v : float) (n : nat) :
  is_finite v = true ->
  map (fun val => pow2 (sub val v)) (repeat v n) = repeat zero n.
Proof.
  intros Hv. induction n as [|n IH]; [reflexivity|].
  cbn [repeat map]. rewrite IH, (sub_self v Hv). reflexivity.
Qed.

(** The length by which a finite mean was divided is neither 0 nor NaN,
    so that [0 / length] is [+0]. *)
Lemma zero_over_length (s : float) (n : nat) (v : float) :
  (0 < n)%nat -> is_finite v = true -> div s (ofNat n) = v ->
  div zero (ofNat n) = zero.
Proof.
  intros Hn Hv Hdiv. unfold ofNat in *.
  destruct (Z.of_nat n) as [|p|p] eqn:E; [lia | | lia].
  destruct (ofZ_pos_shape p) as [S | [[m [e S]] | [S | S]]];
    rewrite S in *; try reflexivity.
  - exfalso. subst v. destruct s as [[|]|[|]| |[|] ? ?]; discriminate Hv.
  - exfalso. subst v. destruct s; discriminate Hv.
Qed.

(** C8, amended.  For a constant non-empty series of a finite value [v]
    whose mean, as [calculateVariance] computes it (the sum from 0 in
    order, divided by the length), is [v] itself, the variance is 0 and
    the consistency score computed from it is 100. *)
Theorem C8_constant_series_variance (v : float) (n : nat) :
  (0 < n)%nat ->
  is_finite v = true ->
  meanOf (repeat v n) = v ->
  calculateVariance (repeat v n) = zero /\
  consistencyOf (calculateVariance (repeat v n)) = hundred.
Proof.
  intros Hn Hv Hmean.
  assert (Hvar : calculateVariance (repeat v n) = zero).
  { unfold calculateVariance.
    destruct n as [|k]; [lia|].
    change (repeat v (S k)) with (v :: repeat v k) at 1. cbv iota.
    change (v :: repeat v k) with (repeat v (S k)).
    fold (meanOf (repeat v (S k))). rewrite Hmean.
    rewrite (squares_of_constant v (S k) Hv), sum_of_zeros.
    rewrite repeat_length.
    unfold meanOf in Hmean. rewrite repeat_length in Hmean.
    exact (zero_over_length _ (S k) v Hn Hv Hmean). }
  rewrite Hvar. split; [reflexivity|]. vm_compute. reflexivity.
Qed.

Lemma C8_constant_series_variance_witness :
  (0 < 3)%nat /\ is_finite (ofZ 62) = true /\
  meanOf (repeat (ofZ 62) 3) = ofZ 62 /\
  calculateVariance [ofZ 62; ofZ 62; ofZ 62] = zero /\
  consistencyOf (calculateVariance [ofZ 62; ofZ 62; ofZ 62]) = hundred.
Proof.
  assert (Hn : (0 < 3)%nat) by lia.
  assert (Hv : is_finite (ofZ 62) = true) by reflexivity.
  assert (Hm : meanOf (repeat (ofZ 62) 3) = ofZ 62)
    by (vm_compute; reflexivity).
  split; [exact Hn|]. split; [exact Hv|]. split; [exact Hm|].
  exact (C8_constant_series_variance (ofZ 62) 3 Hn Hv Hm).
Defined.

End Variance64.

(* ================================================================= *)
(** ** The learning rate of a short history *)

Section LearningRate64.

Import Binary64 Analytics64.



End LearningRate64.
